(** * nbexplorer: a shallow embedding of the notebook explorer's core

    The development follows the JavaScript module of the explorer: the
    HTML escaping and the small markdown converter, the preview and full
    notebook renderers, the path normaliser and the tree builder, the
    breadcrumb handler and the carousel of the modal viewer.

    Conventions of the embedding.
    - A JavaScript string is a [string], one character per code unit; the
      model covers strings whose code units are below 256.
    - A value read from a parsed notebook is a [json]; the result of a
      property read is an [option json], [None] standing for undefined.
    - A computation that can raise is an [outcome]; [TypeError] is the only
      exception the modelled code raises by itself.  [Foreign] marks a
      property read that leaves the objects of the model (a built-in
      reached through an inherited name, an element or a method of an
      array): nothing is said about what the program does from there. *)

From stdpp Require Import base option list functions gmap strings fin_maps.
From Stdlib Require Import Ascii String.

Set Warnings "-register-all".
Open Scope string_scope.

(** ** Outcomes *)

Inductive outcome (A : Type) : Type :=
| Ok (a : A)
| TypeError
| Foreign.
Arguments Ok {A} a.
Arguments TypeError {A}.
Arguments Foreign {A}.

#[export] Instance outcome_ret : MRet outcome := fun _ a => Ok a.
#[export] Instance outcome_bind : MBind outcome := fun _ _ f m =>
  match m with
  | Ok a => f a
  | TypeError => TypeError
  | Foreign => Foreign
  end.

#[export] Instance outcome_fmap : FMap outcome := fun _ _ f m =>
  match m with
  | Ok a => Ok (f a)
  | TypeError => TypeError
  | Foreign => Foreign
  end.

Definition is_Ok {A} (m : outcome A) : Prop := ∃ a, m = Ok a.

(** ** Strings *)

Module Str.

Definition dquote : ascii := "034"%char.
Definition newline : ascii := "010"%char.
Definition backslash : ascii := "\"%char.
Definition dq : string := String dquote EmptyString.
Definition nl : string := String newline EmptyString.

(** LineTerminator code units below 256: line feed and carriage return. *)
Definition is_line_terminator (c : ascii) : bool :=
  (c =? "010")%char || (c =? "013")%char.

(** WhiteSpace and LineTerminator code units below 256, as [trim] strips
    them: tab, line feed, vertical tab, form feed, carriage return, space
    and the no-break space. *)
Definition is_space (c : ascii) : bool :=
  (c =? "009")%char || (c =? "010")%char || (c =? "011")%char ||
  (c =? "012")%char || (c =? "013")%char || (c =? " ")%char ||
  (c =? "160")%char.

Fixpoint starts_with (p s : string) : bool :=
  match p, s with
  | EmptyString, _ => true
  | String a p', String b s' => (a =? b)%char && starts_with p' s'
  | String _ _, EmptyString => false
  end.

Fixpoint drop (n : nat) (s : string) : string :=
  match n, s with
  | O, _ => s
  | S k, String _ r => drop k r
  | S _, EmptyString => EmptyString
  end.

(** [s.includes(p)] *)
Fixpoint includes (p s : string) : bool :=
  starts_with p s ||
  match s with
  | EmptyString => false
  | String _ r => includes p r
  end.

(** [s.endsWith(p)] *)
Definition ends_with (p s : string) : bool :=
  (String.length p <=? String.length s)%nat &&
  starts_with p (drop (String.length s - String.length p) s).

Fixpoint trim_start (s : string) : string :=
  match s with
  | String c r => if is_space c then trim_start r else s
  | EmptyString => EmptyString
  end.

Fixpoint trim_end (s : string) : string :=
  match s with
  | EmptyString => EmptyString
  | String c r =>
      match trim_end r with
      | EmptyString => if is_space c then EmptyString else String c EmptyString
      | r' => String c r'
      end
  end.

(** [s.trim()] *)
Definition trim (s : string) : string := trim_end (trim_start s).

(** The longest prefix of [s] whose characters satisfy [p]. *)
Fixpoint take_while (p : ascii → bool) (s : string) : string :=
  match s with
  | String c r => if p c then String c (take_while p r) else EmptyString
  | EmptyString => EmptyString
  end.

Fixpoint mem (c : ascii) (s : string) : bool :=
  match s with
  | EmptyString => false
  | String d r => (c =? d)%char || mem c r
  end.

(** [s.split(sep)] for a one-character separator: the first piece and the
    pieces after each separator. *)
Fixpoint split_at (sep : ascii) (s : string) : string * list string :=
  match s with
  | EmptyString => (EmptyString, [])
  | String c r =>
      let '(hd, tl) := split_at sep r in
      if (c =? sep)%char then (EmptyString, hd :: tl) else (String c hd, tl)
  end.

Definition split (sep : ascii) (s : string) : list string :=
  let '(hd, tl) := split_at sep s in hd :: tl.

(** [l.join(sep)] on strings. *)
Fixpoint join (sep : string) (l : list string) : string :=
  match l with
  | [] => EmptyString
  | [x] => x
  | x :: r => x +:+ sep +:+ join sep r
  end.

Definition nonempty (s : string) : bool :=
  match s with EmptyString => false | String _ _ => true end.

End Str.

(** ** Global regular-expression replacement

    [s.replace(re, by)] with the [g] flag scans [s] from the left; at each
    position not inside an earlier match it tries the pattern, and a match
    of [len] characters is replaced and skipped.  The pattern is given by
    its matcher [m prev rest]: [prev] is the character before the position
    (for the anchor [^]) and [rest] the text from the position on; it
    answers with the replacement text and the length of the match.  None
    of the patterns of the program matches the empty string. *)

Definition matcher := option ascii → string → option (string * nat).

Fixpoint replace_from (m : matcher) (prev : option ascii) (skip : nat)
    (s : string) : string :=
  match s with
  | EmptyString => EmptyString
  | String c r =>
      match skip with
      | S k => replace_from m (Some c) k r
      | O =>
          match m prev s with
          | Some (out, len) => out +:+ replace_from m (Some c) (len - 1) r
          | None => String c (replace_from m (Some c) O r)
          end
      end
  end.

Definition replace_all (m : matcher) (s : string) : string :=
  replace_from m None O s.

(** ** escapeHtml *)

(** The table of [escapeHtml]: the entity a matched character maps to. *)
Definition entity (c : ascii) : option string :=
  if (c =? "&")%char then Some "&amp;"
  else if (c =? "<")%char then Some "&lt;"
  else if (c =? ">")%char then Some "&gt;"
  else if (c =? Str.dquote)%char then Some "&quot;"
  else if (c =? "'")%char then Some "&#39;"
  else None.

(** The character class of [escapeHtml] (ampersand, both angle brackets,
    both quotes) under the [g] flag, with the table as replacement
    function. *)
Definition escape_matcher : matcher := fun _ s =>
  match s with
  | String c _ => match entity c with Some e => Some (e, 1) | None => None end
  | EmptyString => None
  end.

Definition escapeHtml (s : string) : string := replace_all escape_matcher s.

(** Markup in which every special character has been turned into its
    entity. *)
Inductive Escaped : string → Prop :=
| Escaped_nil : Escaped EmptyString
| Escaped_entity c e r :
    entity c = Some e → Escaped r → Escaped (e +:+ r)
| Escaped_plain c r :
    entity c = None → Escaped r → Escaped (String c r).

(** ** renderMarkdown *)

Module Md.

Definition at_line_start (prev : option ascii) : bool :=
  match prev with
  | None => true
  | Some c => Str.is_line_terminator c
  end.

Definition in_line (c : ascii) : bool := negb (Str.is_line_terminator c).

Definition wrap (tag body : string) : string :=
  "<" +:+ tag +:+ ">" +:+ body +:+ "</" +:+ tag +:+ ">".

(** A header pattern: the anchor [^] under the [m] flag, the marker with
    its space, and the group [(.*$)], which takes the rest of the line. *)
Definition header (marker tag : string) : matcher := fun prev s =>
  if at_line_start prev && Str.starts_with marker s then
    let cap := Str.take_while in_line (Str.drop (String.length marker) s) in
    Some (wrap tag cap, String.length marker + String.length cap)%nat
  else None.

(** The lazy group [(.*?)] followed by the closing delimiter: the shortest
    run of characters of the line after which the delimiter stands. *)
Fixpoint lazy_until (close s : string) : option string :=
  if Str.starts_with close s then Some EmptyString
  else
    match s with
    | EmptyString => None
    | String c r =>
        if Str.is_line_terminator c then None
        else String c <$> lazy_until close r
    end.

(** The emphasis patterns: delimiter, lazy group, delimiter. *)
Definition delimited (delim tag : string) : matcher := fun _ s =>
  if Str.starts_with delim s then
    match lazy_until delim (Str.drop (String.length delim) s) with
    | Some cap =>
        Some (wrap tag cap, 2 * String.length delim + String.length cap)%nat
    | None => None
    end
  else None.

Definition not_backtick (c : ascii) : bool := negb (c =? "`")%char.

(** The code-span pattern: a backtick, one or more characters other than
    a backtick (greedy, line terminators included), a backtick. *)
Definition code_span : matcher := fun _ s =>
  match s with
  | String c r =>
      if (c =? "`")%char then
        let run := Str.take_while not_backtick r in
        if Str.nonempty run
           && Str.starts_with "`" (Str.drop (String.length run) r)
        then Some (wrap "code" run, String.length run + 2)%nat
        else None
      else None
  | EmptyString => None
  end.

(** Two line feeds in a row. *)
Definition blank_line : matcher := fun _ s =>
  if Str.starts_with (Str.nl +:+ Str.nl) s then Some ("</p><p>", 2%nat)
  else None.

(** The chain of replacements of [renderMarkdown], in its order. *)
Definition convert (text : string) : string :=
  replace_all blank_line
    (replace_all code_span
      (replace_all (delimited "*" "em")
        (replace_all (delimited "**" "strong")
          (replace_all (header "# " "h1")
            (replace_all (header "## " "h2")
              (replace_all (header "### " "h3") text)))))).

End Md.

(** ** Parsed notebooks *)

(** A value produced by [JSON.parse].  A number is given by what the
    renderers can observe of it: whether it is zero (its truthiness) and
    the text [ToString] gives for it. *)
Inductive json : Type :=
| JNull
| JBool (b : bool)
| JNum (zero : bool) (text : string)
| JStr (s : string)
| JArr (items : list json)
| JObj (props : gmap string json).

(** Truthiness of a value; [None] is undefined. *)
Definition truthy (v : option json) : bool :=
  match v with
  | None | Some JNull => false
  | Some (JBool b) => b
  | Some (JNum zero _) => negb zero
  | Some (JStr s) => Str.nonempty s
  | Some (JArr _) | Some (JObj _) => true
  end.

(** [v === s] for a string literal [s]. *)
Definition is_string (s : string) (v : option json) : bool :=
  match v with
  | Some (JStr t) => bool_decide (t = s)
  | _ => false
  end.

(** [v.k] for the property names the renderers read ([cells],
    [cell_type], [source], [outputs], [data], the MIME keys,
    [output_type], [text]): reading from null raises; an object answers
    with its own property; numbers, booleans, strings and arrays have no
    property of these names. *)
Definition getProp (v : json) (k : string) : outcome (option json) :=
  match v with
  | JNull => TypeError
  | JObj o => Ok (o !! k)
  | _ => Ok None
  end.

(** [ToString]: an array joins its elements with a comma, null elements
    giving the empty text; a plain object gives the text of
    [Object.prototype.toString], unless an own property shadows that
    method with a value that cannot be called. *)
Fixpoint toString (v : json) : outcome string :=
  match v with
  | JNull => Ok "null"
  | JBool b => Ok (if b then "true" else "false")
  | JNum _ t => Ok t
  | JStr s => Ok s
  | JArr l =>
      ss ← (fix items (l : list json) : outcome (list string) :=
              match l with
              | [] => Ok []
              | x :: r =>
                  s ← match x with JNull => Ok EmptyString | _ => toString x end;
                  ss ← items r;
                  Ok (s :: ss)
              end) l;
      Ok (Str.join "," ss)
  | JObj o =>
      match o !! "toString" with
      | Some _ => TypeError
      | None => Ok "[object Object]"
      end
  end.

(** The text of an interpolated [${v}]. *)
Definition interpolate (v : option json) : outcome string :=
  match v with
  | None => Ok "undefined"
  | Some j => toString j
  end.

(** The text an element contributes to [Array.prototype.join]. *)
Definition elementText (x : json) : outcome string :=
  match x with
  | JNull => Ok EmptyString
  | _ => toString x
  end.

Fixpoint elementTexts (l : list json) : outcome (list string) :=
  match l with
  | [] => Ok []
  | x :: r => s ← elementText x; ss ← elementTexts r; Ok (s :: ss)
  end.

(** [l.join(sep)] on an array of parsed values. *)
Definition arrayJoin (sep : string) (l : list json) : outcome string :=
  ss ← elementTexts l; Ok (Str.join sep ss).

(** [Array.isArray(v) ? v.join('') : v] *)
Definition joined (v : option json) : outcome (option json) :=
  match v with
  | Some (JArr l) => s ← arrayJoin EmptyString l; Ok (Some (JStr s))
  | _ => Ok v
  end.

(** [escapeHtml(v)]: the call [v.replace] needs a string. *)
Definition escapeHtmlOf (v : option json) : outcome string :=
  match v with
  | Some (JStr s) => Ok (escapeHtml s)
  | _ => TypeError
  end.

Definition renderMarkdown (text : option json) : outcome string :=
  if negb (truthy text) then Ok EmptyString
  else
    match text with
    | Some (JStr s) => Ok ("<p>" +:+ Md.convert s +:+ "</p>")
    | _ => TypeError
    end.

(** [x || ''] *)
Definition or_empty (v : option json) : option json :=
  if truthy v then v else Some (JStr EmptyString).

Definition code_open : string :=
  "<pre><code class=" +:+ Str.dq +:+ "language-python" +:+ Str.dq +:+ ">".
Definition code_close : string := "</code></pre>".
Definition out_open : string :=
  "<pre class=" +:+ Str.dq +:+ "out" +:+ Str.dq +:+ ">".
Definition out_close : string := "</pre>".

Definition NOTEBOOK_PREVIEW_CELLS : nat := 3.
Definition PYTHON_PREVIEW_LINES : nat := 8.

(** The body of the loop of [renderNotebookPreview], from the cells still
    to visit, the counter [shown] and the markup so far. *)
Fixpoint previewLoop (cells : list json) (shown : nat) (html : string)
    : outcome string :=
  match cells with
  | [] => Ok html
  | c :: rest =>
      if (NOTEBOOK_PREVIEW_CELLS <=? shown)%nat then Ok html
      else
        ty ← getProp c "cell_type";
        if is_string "markdown" ty then
          src ← getProp c "source";
          text ← joined src;
          h ← renderMarkdown text;
          previewLoop rest (S shown) (html +:+ h)
        else if is_string "code" ty then
          src ← getProp c "source";
          text ← joined src;
          match or_empty text with
          | Some (JStr s) =>
              previewLoop rest (S shown)
                (html +:+ code_open +:+ escapeHtml (Str.trim s) +:+ code_close)
          | _ => TypeError
          end
        else previewLoop rest shown html
  end.

(** What [for (const c of cells)] visits: the elements of an array, the
    characters of a string; other values are not iterable. *)
Definition iterate (v : json) : outcome (list json) :=
  match v with
  | JArr l => Ok l
  | JStr s => Ok ((λ ch, JStr (String ch EmptyString)) <$> list_ascii_of_string s)
  | _ => TypeError
  end.

Definition renderNotebookPreview (nb : json) : outcome string :=
  cs ← getProp nb "cells";
  cells ← (if truthy cs then from_option iterate TypeError cs else Ok []);
  previewLoop cells 0 EmptyString.

(** The preview of a script: its first lines, escaped. *)
Definition renderScriptPreview (raw : string) : string :=
  code_open
  +:+ escapeHtml (Str.join Str.nl
                    (take PYTHON_PREVIEW_LINES (Str.split Str.newline raw)))
  +:+ code_close.

(** ** renderFullNotebook *)

(** [o.data && o.data[k]] *)
Definition dataField (o : json) (k : string) : outcome (option json) :=
  d ← getProp o "data";
  if truthy d then from_option (λ j, getProp j k) TypeError d else Ok d.

Definition img (mime payload : string) : string :=
  "<img src=" +:+ Str.dq +:+ "data:" +:+ mime +:+ ";base64," +:+ payload
  +:+ Str.dq +:+ " style=" +:+ Str.dq +:+ "max-width:100%;" +:+ Str.dq +:+ ">".

(** [text.includes(p)]: the method exists on strings only. *)
Definition includesOf (p : string) (text : option json) : outcome bool :=
  match text with
  | Some (JStr s) => Ok (Str.includes p s)
  | _ => TypeError
  end.

(** [o.output_type === 'stream' && o.text] *)
Definition streamText (o : json) : outcome (option json) :=
  ty ← getProp o "output_type";
  if is_string "stream" ty then getProp o "text" else Ok None.

(** The markup one output adds: the chain of alternatives in the body of
    the loop over [c.outputs]. *)
Definition renderOutput (o : json) : outcome string :=
  png ← dataField o "image/png";
  if truthy png then p ← interpolate png; Ok (img "image/png" p)
  else
    jpeg ← dataField o "image/jpeg";
    if truthy jpeg then p ← interpolate jpeg; Ok (img "image/jpeg" p)
    else
      svg ← dataField o "image/svg+xml";
      if truthy svg then p ← interpolate svg; Ok (img "image/svg+xml" p)
      else
        plain ← dataField o "text/plain";
        if truthy plain then
          text ← joined plain;
          fig ← includesOf "<Figure size" text;
          if negb fig then
            call ← includesOf "Figure(" text;
            if negb call then
              e ← escapeHtmlOf text; Ok (out_open +:+ e +:+ out_close)
            else Ok EmptyString
          else Ok EmptyString
        else
          st ← streamText o;
          if truthy st then
            text ← joined st;
            e ← escapeHtmlOf text; Ok (out_open +:+ e +:+ out_close)
          else Ok EmptyString.

Fixpoint outputsLoop (outs : list json) (html : string) : outcome string :=
  match outs with
  | [] => Ok html
  | o :: rest => h ← renderOutput o; outputsLoop rest (html +:+ h)
  end.

(** What [(v || []).forEach] walks: the method exists on arrays only. *)
Definition forEachItems (v : option json) : outcome (list json) :=
  if truthy v then
    match v with
    | Some (JArr l) => Ok l
    | _ => TypeError
    end
  else Ok [].

(** The markup one cell adds to the full view. *)
Definition renderCell (c : json) (html : string) : outcome string :=
  ty ← getProp c "cell_type";
  cls ← interpolate ty;
  let html :=
    html +:+ "<div class=" +:+ Str.dq +:+ "viewer-cell " +:+ cls +:+ Str.dq +:+ ">" in
  body ←
    (if is_string "markdown" ty then
       src ← getProp c "source";
       text ← joined src;
       h ← renderMarkdown text;
       Ok (html +:+ h)
     else if is_string "code" ty then
       src ← getProp c "source";
       text ← joined src;
       e ← escapeHtmlOf (or_empty text);
       outs ← getProp c "outputs";
       items ← forEachItems outs;
       outputsLoop items (html +:+ code_open +:+ e +:+ code_close)
     else Ok html);
  Ok (body +:+ "</div>").

Fixpoint cellsLoop (cells : list json) (html : string) : outcome string :=
  match cells with
  | [] => Ok html
  | c :: rest => h ← renderCell c html; cellsLoop rest h
  end.

Definition renderFullNotebook (nb : json) : outcome string :=
  cs ← getProp nb "cells";
  cells ← forEachItems cs;
  cellsLoop cells EmptyString.

(** ** Sample notebooks *)

Definition obj (kvs : list (string * json)) : json := JObj (list_to_map kvs).

Definition markdown_cell (src : json) : json :=
  obj [("cell_type", JStr "markdown"); ("source", src)].
Definition code_cell (src : json) (outs : list json) : json :=
  obj [("cell_type", JStr "code"); ("source", src); ("outputs", JArr outs)].
Definition raw_cell (src : json) : json :=
  obj [("cell_type", JStr "raw"); ("source", src)].
Definition notebook (cells : list json) : json := obj [("cells", JArr cells)].

(** The text of the escaping scenario: a script element whose content is
    an ampersand, a double quote and a single quote. *)
Definition script_payload : string :=
  "<script>&" +:+ Str.dq +:+ "'</script>".

(** ** File objects and normalizeFilePath *)

(** A [File] as the explorer sees it: its name and the two optional
    location hints, [webkitRelativePath] set by the directory picker and
    [fullPath] set during drag-and-drop traversal.  [None] is an absent
    (undefined) hint; the empty text is falsy as well. *)
Record File : Type := mkFile {
  name : string;
  webkitRelativePath : option string;
  fullPath : option string
}.

Definition set_fullPath (p : string) (f : File) : File :=
  {| name := name f;
     webkitRelativePath := webkitRelativePath f;
     fullPath := Some p |}.

Definition is_backslash (c : ascii) : bool := (c =? Str.backslash)%char.

(** A backslash followed by one or more backslashes (greedy). *)
Definition backslash_run : matcher := fun _ s =>
  let run := Str.take_while is_backslash s in
  if (2 <=? String.length run)%nat then Some ("/", String.length run)
  else None.

(** A single backslash. *)
Definition backslash_one : matcher := fun _ s =>
  match s with
  | String c _ => if is_backslash c then Some ("/", 1%nat) else None
  | EmptyString => None
  end.

(** The two replacements of [normalizeFilePath], in its order. *)
Definition slashes (path : string) : string :=
  replace_all backslash_one (replace_all backslash_run path).

(** [a || b] on optional texts, the result being a text or falsy. *)
Definition or_text (a b : option string) : option string :=
  match a with
  | Some (String _ _) => a
  | _ => b
  end.

(** [file.webkitRelativePath || file.fullPath || ''] *)
Definition hint (f : File) : string :=
  default EmptyString
    (or_text (or_text (webkitRelativePath f) (fullPath f)) (Some EmptyString)).

Definition normalizeFilePath (f : File) : string :=
  let path := hint f in
  if negb (Str.nonempty path) then name f else slashes path.

(** [normalized.split('/').filter(Boolean)] *)
Definition path_parts (normalized : string) : list string :=
  filter (λ s, Str.nonempty s = true) (Str.split "/" normalized).

(** ** The folder tree *)

(** File objects live in a store and are named by their address, so that
    an entry of the tree is the very object of the input. *)
Abbreviation ref := nat (only parsing).
Abbreviation store := (ref → File) (only parsing).

(** The objects the builder creates: a plain object with its own
    properties, or an array of files, which as an object can carry named
    properties of its own besides its elements. *)
Inductive node : Type :=
| Obj (props : gmap string node)
| Arr (elems : list ref) (props : gmap string node).

Definition props_of (n : node) : gmap string node :=
  match n with
  | Obj ps => ps
  | Arr _ ps => ps
  end.

(** Names every plain object inherits from [Object.prototype]. *)
Definition object_prototype_keys : list string :=
  [ "constructor"; "__proto__"; "hasOwnProperty"; "isPrototypeOf";
    "propertyIsEnumerable"; "toLocaleString"; "toString"; "valueOf";
    "__defineGetter__"; "__defineSetter__"; "__lookupGetter__";
    "__lookupSetter__" ].

Definition inherited (k : string) : bool :=
  bool_decide (k ∈ object_prototype_keys).

(** [n[k]]: an own property answers with its value.  Otherwise a plain
    object answers undefined unless the name is inherited, in which case
    the read yields a built-in that is not part of the tree ([Foreign]).
    On an array only the properties the builder stored and the reserved
    name [files] are described; any other name (an index, the length, a
    method) is [Foreign]. *)
Definition get (n : node) (k : string) : outcome (option node) :=
  match props_of n !! k with
  | Some v => Ok (Some v)
  | None =>
      match n with
      | Obj _ => if inherited k then Foreign else Ok None
      | Arr _ _ => if bool_decide (k = "files") then Ok None else Foreign
      end
  end.

(** [n[k] = v] *)
Definition set (n : node) (k : string) (v : node) : node :=
  match n with
  | Obj ps => Obj (<[k := v]> ps)
  | Arr es ps => Arr es (<[k := v]> ps)
  end.

(** [v.push(f)]: the method exists on arrays only. *)
Definition push (v : node) (f : ref) : outcome node :=
  match v with
  | Arr es ps => Ok (Arr (es ++ [f]) ps)
  | Obj _ => TypeError
  end.

(** The inner loop of [buildTree] for one file, from the parts still to
    visit and the node reached: the last part appends the file to the
    node's [files], every other part enters the folder of that name,
    creating it when the read is falsy. *)
Fixpoint place (f : ref) (parts : list string) (n : node) : outcome node :=
  match parts with
  | [] => Ok n
  | part :: rest =>
      match rest with
      | [] =>
          fs ← get n "files";
          entries ← push (default (Arr [] ∅) fs) f;
          Ok (set n "files" entries)
      | _ :: _ =>
          c ← get n part;
          child ← place f rest (default (Obj ∅) c);
          Ok (set n part child)
      end
  end.

(** The outer loop: each file is normalised, its [fullPath] overwritten
    with the normalised path, and placed. *)
Fixpoint buildLoop (files : list ref) (σ : store) (tree : node)
    : outcome (store * node) :=
  match files with
  | [] => Ok (σ, tree)
  | f :: rest =>
      let normalized := normalizeFilePath (σ f) in
      let σ' := <[f := set_fullPath normalized (σ f)]> σ in
      tree' ← place f (path_parts normalized) tree;
      buildLoop rest σ' tree'
  end.

Definition buildTree (σ : store) (files : list ref) : outcome (store * node) :=
  buildLoop files σ (Obj ∅).

(** The filter [initGallery] applies before building. *)
Definition supported (f : File) : bool :=
  (Str.ends_with ".ipynb" (name f) || Str.ends_with ".py" (name f))
  && negb (Str.starts_with "._" (name f)).

(** *** Reading the tree back *)

(** The canonical segments of a file of the store. *)
Definition canonical (σ : store) (f : ref) : list string :=
  path_parts (normalizeFilePath (σ f)).

(** All segments but the last: the folders of a path. *)
Definition folders (parts : list string) : list string := removelast parts.

(** Walking down own properties from a node. *)
Fixpoint descend (n : node) (path : list string) : option node :=
  match path with
  | [] => Some n
  | p :: rest => c ← props_of n !! p; descend c rest
  end.

(** The [files] list of a node: the elements of the array stored under
    the reserved name. *)
Definition files_of (n : node) : option (list ref) :=
  match props_of n !! "files" with
  | Some (Arr es _) => Some es
  | _ => None
  end.

(** The [files] list reached by walking a canonical path. *)
Definition files_at (tree : node) (parts : list string) : option (list ref) :=
  n ← descend tree (folders parts); files_of n.

(** A [files] entry that holds file entries and subfolder children at
    once: an array with named properties of its own. *)
Definition mixed_files (n : node) : Prop :=
  ∃ es ps, props_of n !! "files" = Some (Arr es ps) ∧ es ≠ [] ∧ ps ≠ ∅.

(** A store from a list of files: address [i] holds the [i]-th file. *)
Definition store_of (fs : list File) : store :=
  λ r, default (mkFile EmptyString None None) (fs !! r).

Definition dropped (path : string) (n : string) : File :=
  mkFile n None (Some path).
Definition picked (path : string) (n : string) : File :=
  mkFile n (Some path) None.

(** ** Breadcrumb navigation *)

Section Navigator.

(** The handler only reads properties of truthy values, and such a read
    never raises; [read n p] is [Some] of the value of [n[p]] when it is
    truthy and [None] when it is falsy. *)
Context {value : Type}.
Variable read : value → string → option value.

(** [console.warn('Path segment not found:', p, 'in path:', path)] *)
Record warning : Type := Warn { segment : string; in_path : list string }.

Record session : Type := Session {
  folderStructure : value;
  currentPath : list string;
  console : list warning
}.

(** The loop of the breadcrumb handler over the truncated path [sliced],
    from the segments still to visit and the node reached: the path it
    leaves in [currentPath], the node it hands to the view, and what it
    logs. *)
Fixpoint resolveLoop (root : value) (sliced rest : list string)
    (node : value) : list string * value * list warning :=
  match rest with
  | [] => (sliced, node, [])
  | p :: rest' =>
      match read node p with
      | Some child => resolveLoop root sliced rest' child
      | None => ([], root, [Warn p sliced])
      end
  end.

(** The click handler [updateBreadcrumbs] installs on the breadcrumb of
    index [i]: the session it leaves and the node it passes to
    [renderFolderView]. *)
Definition jumpToBreadcrumb (i : nat) (st : session) : session * value :=
  let sliced := take (S i) (currentPath st) in
  let '(path, node, logged) :=
    resolveLoop (folderStructure st) sliced sliced (folderStructure st) in
  (Session (folderStructure st) path (console st ++ logged), node).

(** The click handler [updateBreadcrumbs] installs on the root
    breadcrumb. *)
Definition jumpToRoot (st : session) : session * value :=
  (Session (folderStructure st) [] (console st), folderStructure st).

(** Resolving a path from a node, one segment at a time. *)
Fixpoint resolve (node : value) (path : list string) : option value :=
  match path with
  | [] => Some node
  | p :: rest => child ← read node p; resolve child rest
  end.

(** The same handler in the earlier revision [js/nbexplorer.js], which
    follows the segments without a guard: reading a property of an
    undefined node raises. *)
Fixpoint unguardedLoop (rest : list string) (node : option value)
    : outcome (option value) :=
  match rest with
  | [] => Ok node
  | p :: rest' =>
      match node with
      | Some n => unguardedLoop rest' (read n p)
      | None => TypeError
      end
  end.


End Navigator.

Arguments Warn segment in_path : clear implicits.
Arguments warning : clear implicits.

(** Property reads on the nodes of a built tree. *)
Definition own (n : node) (p : string) : option node := props_of n !! p.

(** ** The modal viewer and its carousel *)

Inductive kind : Type := IPYNB | PY.

Record meta : Type := Meta { filename : string; raw : string; type : kind }.

(** A navigation button: its [disabled] property and whether its class
    list holds [disabled]. *)
Record button : Type := Button { disabled : bool; disabled_class : bool }.

(** A card of the gallery, by its [dataset.cardId]. *)
Record card : Type := Card { cardId : option string }.

Record viewer : Type := Viewer {
  cardMap : gmap string meta;
  gallery : list card;
  navigationCardIds : list string;
  currentCardIndex : Z;
  prevButton : option button;
  nextButton : option button;
  viewerTitle : string;
  viewerBody : string;
  modalShown : bool;
  alerts : list string
}.

Definition with_navigation (ids : list string) (i : Z) (v : viewer) : viewer :=
  Viewer (cardMap v) (gallery v) ids i (prevButton v) (nextButton v)
    (viewerTitle v) (viewerBody v) (modalShown v) (alerts v).
Definition with_index (i : Z) (v : viewer) : viewer :=
  with_navigation (navigationCardIds v) i v.
Definition with_buttons (p n : option button) (v : viewer) : viewer :=
  Viewer (cardMap v) (gallery v) (navigationCardIds v) (currentCardIndex v)
    p n (viewerTitle v) (viewerBody v) (modalShown v) (alerts v).
Definition with_title (t : string) (v : viewer) : viewer :=
  Viewer (cardMap v) (gallery v) (navigationCardIds v) (currentCardIndex v)
    (prevButton v) (nextButton v) t (viewerBody v) (modalShown v) (alerts v).
Definition with_body (b : string) (v : viewer) : viewer :=
  Viewer (cardMap v) (gallery v) (navigationCardIds v) (currentCardIndex v)
    (prevButton v) (nextButton v) (viewerTitle v) b (modalShown v) (alerts v).
Definition with_modal (shown : bool) (v : viewer) : viewer :=
  Viewer (cardMap v) (gallery v) (navigationCardIds v) (currentCardIndex v)
    (prevButton v) (nextButton v) (viewerTitle v) (viewerBody v) shown (alerts v).
Definition with_alert (msg : string) (v : viewer) : viewer :=
  Viewer (cardMap v) (gallery v) (navigationCardIds v) (currentCardIndex v)
    (prevButton v) (nextButton v) (viewerTitle v) (viewerBody v) (modalShown v)
    (alerts v ++ [msg]).

(** The ids of the cards of the gallery that carry a truthy id. *)
Fixpoint getAllCardIds (cards : list card) : list string :=
  match cards with
  | [] => []
  | c :: rest =>
      match cardId c with
      | Some (String _ _ as id) => id :: getAllCardIds rest
      | _ => getAllCardIds rest
      end
  end.

(** [l.indexOf(x)]: the first position of [x], or -1. *)
Fixpoint indexFrom (x : string) (l : list string) (i : Z) : Z :=
  match l with
  | [] => (-1)%Z
  | y :: rest => if bool_decide (y = x) then i else indexFrom x rest (i + 1)%Z
  end.
Definition indexOf (x : string) (l : list string) : Z := indexFrom x l 0%Z.

(** [l[i]] for an integer [i]: undefined outside the list. *)
Definition at_index (l : list string) (i : Z) : option string :=
  if (i <? 0)%Z then None else l !! Z.to_nat i.

Definition closeModal (v : viewer) : viewer :=
  with_navigation [] (-1)%Z (with_body EmptyString (with_modal false v)).

Definition updateNavigationButtons (v : viewer) : viewer :=
  match prevButton v, nextButton v with
  | Some _, Some _ =>
      let hasPrev := (0 <? currentCardIndex v)%Z in
      let hasNext :=
        (currentCardIndex v <? Z.of_nat (List.length (navigationCardIds v)) - 1)%Z in
      with_buttons (Some (Button (negb hasPrev) (negb hasPrev)))
                   (Some (Button (negb hasNext) (negb hasNext))) v
  | _, _ => v
  end.

Section Viewer.

(** [JSON.parse], [None] when it raises. *)
Variable JSON_parse : string → option json.

Definition loadNotebookInModal (m : meta) (v : viewer) : outcome viewer :=
  let v := with_title (filename m) v in
  match type m with
  | PY => Ok (with_body (code_open +:+ escapeHtml (raw m) +:+ code_close) v)
  | IPYNB =>
      match JSON_parse (raw m) with
      | None => Ok (with_alert "Parse error" v)
      | Some nb => html ← renderFullNotebook nb; Ok (with_body html v)
      end
  end.

Definition openNotebookModal (id : string) (v : viewer) : outcome viewer :=
  match cardMap v !! id with
  | None => Ok v
  | Some m =>
      let ids := getAllCardIds (gallery v) in
      let v := with_navigation ids (indexOf id ids) v in
      v ← loadNotebookInModal m v;
      Ok (with_modal true (updateNavigationButtons v))
  end.

(** What both stepping functions do once the cursor has moved. *)
Definition showCurrent (v : viewer) : outcome viewer :=
  match at_index (navigationCardIds v) (currentCardIndex v)
        ≫= (λ id, cardMap v !! id) with
  | Some m => v ← loadNotebookInModal m v; Ok (updateNavigationButtons v)
  | None => Ok v
  end.

Definition navigatePrevious (v : viewer) : outcome viewer :=
  if (0 <? currentCardIndex v)%Z then
    match prevButton v with
    | None => TypeError
    | Some b =>
        if negb (disabled b)
        then showCurrent (with_index (currentCardIndex v - 1)%Z v)
        else Ok v
    end
  else Ok v.

Definition navigateNext (v : viewer) : outcome viewer :=
  if (currentCardIndex v <? Z.of_nat (List.length (navigationCardIds v)) - 1)%Z then
    match nextButton v with
    | None => TypeError
    | Some b =>
        if negb (disabled b)
        then showCurrent (with_index (currentCardIndex v + 1)%Z v)
        else Ok v
    end
  else Ok v.

End Viewer.

(** Whether a step is offered: the button is there and enabled. *)
Definition available (b : option button) : bool :=
  match b with
  | Some b => negb (disabled b)
  | None => false
  end.


(** ** Further samples and predicates used in the statements *)

(** A notebook whose only cell is a markdown cell holding the script
    payload. *)
Definition script_notebook : json := notebook [markdown_cell (JStr script_payload)].

(** Characters on which none of the patterns of [renderMarkdown] starts:
    anything but the sharp, the star, the backtick and the line feed. *)
Definition inert (c : ascii) : bool :=
  negb ((c =? "#")%char || (c =? "*")%char || (c =? "`")%char
        || (c =? Str.newline)%char).

Fixpoint all_chars (p : ascii → bool) (s : string) : bool :=
  match s with
  | EmptyString => true
  | String c r => p c && all_chars p r
  end.

(** An output carrying the given MIME payloads. *)
Definition data_output (payloads : list (string * json)) : json :=
  obj [("data", obj payloads)].

(** The two outputs of the precedence scenario, and the one output that
    carries both payloads. *)
Definition text_42 : json := data_output [("text/plain", JStr "42")].
Definition png_AAAA : json := data_output [("image/png", JStr "AAAA")].
Definition text_and_png : json :=
  data_output [("text/plain", JStr "42"); ("image/png", JStr "AAAA")].

Definition div_open (cls : string) : string :=
  "<div class=" +:+ Str.dq +:+ "viewer-cell " +:+ cls +:+ Str.dq +:+ ">".

(** *** The preview, cell by cell *)

(** A cell the preview counts: an object whose [cell_type] is [markdown]
    or [code]. *)
Definition counted (c : json) : bool :=
  match c with
  | JObj ps =>
      is_string "markdown" (ps !! "cell_type")
      || is_string "code" (ps !! "cell_type")
  | _ => false
  end.

(** The markup the preview gives for one cell. *)
Definition previewCell (c : json) : outcome string :=
  ty ← getProp c "cell_type";
  if is_string "markdown" ty then
    src ← getProp c "source"; text ← joined src; renderMarkdown text
  else if is_string "code" ty then
    src ← getProp c "source"; text ← joined src;
    match or_empty text with
    | Some (JStr s) =>
        Ok (code_open +:+ escapeHtml (Str.trim s) +:+ code_close)
    | _ => TypeError
    end
  else Ok EmptyString.

(** The markup of a list of cells, one after the other. *)
Fixpoint previewEach (cells : list json) : outcome string :=
  match cells with
  | [] => Ok EmptyString
  | c :: rest => h ← previewCell c; hs ← previewEach rest; Ok (h +:+ hs)
  end.

(** The cells of the counting scenario: markdown, raw, code, code,
    markdown. *)
Definition five_cells : list json :=
  [ markdown_cell (JStr "one"); raw_cell (JStr "two");
    code_cell (JStr "three") []; code_cell (JStr "four") [];
    markdown_cell (JStr "five") ].

(** *** Notebooks in the shape of the notebook format *)

Definition is_JStr (v : json) : bool :=
  match v with JStr _ => true | _ => false end.

(** A text field: absent, null, a string, or a list of strings. *)
Definition textual (v : option json) : bool :=
  match v with
  | None | Some JNull | Some (JStr _) => true
  | Some (JArr l) => forallb is_JStr l
  | _ => false
  end.

Definition wf_data (v : option json) : bool :=
  match v with
  | None | Some JNull => true
  | Some (JObj d) =>
      textual (d !! "image/png") && textual (d !! "image/jpeg")
      && textual (d !! "image/svg+xml") && textual (d !! "text/plain")
  | _ => false
  end.

Definition wf_output (o : json) : bool :=
  match o with
  | JObj ps => wf_data (ps !! "data") && textual (ps !! "text")
  | _ => false
  end.

Definition wf_list (wf : json → bool) (v : option json) : bool :=
  match v with
  | None | Some JNull => true
  | Some (JArr l) => forallb wf l
  | _ => false
  end.

(** A cell: an object whose type is absent, null or a string, whose
    source is a text field and whose outputs are absent, null or a list
    of outputs. *)
Definition wf_cell (c : json) : bool :=
  match c with
  | JObj ps =>
      match ps !! "cell_type" with
      | None | Some JNull | Some (JStr _) => true
      | _ => false
      end
      && textual (ps !! "source")
      && wf_list wf_output (ps !! "outputs")
  | _ => false
  end.

Definition wf_notebook (nb : json) : bool :=
  match nb with
  | JObj ps => wf_list wf_cell (ps !! "cells")
  | _ => false
  end.

(** Writing out a field that is absent or null. *)
Definition fill (k : string) (v : json) (ps : gmap string json)
    : gmap string json :=
  match ps !! k with
  | None | Some JNull => <[k := v]> ps
  | Some _ => ps
  end.

(** A cell with its absent source written out as the empty text and its
    absent outputs as the empty list. *)
Definition fill_cell (c : json) : json :=
  match c with
  | JObj ps => JObj (fill "source" (JStr EmptyString) (fill "outputs" (JArr []) ps))
  | _ => c
  end.

(** A notebook with its absent cells written out as the empty list, and
    every cell filled. *)
Definition fill_notebook (nb : json) : json :=
  match nb with
  | JObj ps =>
      match ps !! "cells" with
      | Some (JArr cs) => JObj (<["cells" := JArr (fill_cell <$> cs)]> ps)
      | None | Some JNull => JObj (<["cells" := JArr []]> ps)
      | Some _ => nb
      end
  | _ => nb
  end.

(** A notebook without cells, a code cell without source and outputs. *)
Definition bare_notebook : json := obj [("nbformat", JNum false "4")].
(** A notebook in which every field the renderers read is null once: the
    type, the source and the outputs of a cell, the data and the text of
    an output, a payload of the data, and the list of cells itself. *)
Definition null_fields_notebook : json :=
  notebook [obj [("cell_type", JNull); ("source", JNull); ("outputs", JNull)];
            obj [("cell_type", JStr "code"); ("source", JNull);
                 ("outputs",
                  JArr [obj [("output_type", JStr "stream");
                             ("data", JNull); ("text", JNull)];
                        obj [("data", obj [("image/png", JNull);
                                           ("text/plain", JNull)])]])]].
Definition null_cells_notebook : json := obj [("cells", JNull)].
Definition sparse_notebook : json :=
  notebook [obj [("cell_type", JStr "code")];
            obj [("cell_type", JStr "markdown"); ("source", JNull)]].

(** The MIME keys the full view reads from the data of an output. *)
Definition mime_keys : list string :=
  ["image/png"; "image/jpeg"; "image/svg+xml"; "text/plain"].

(** *** Normalisation, stated directly *)

(** Every maximal run of backslashes becomes one forward slash;
    [in_run] tells that the previous character was a backslash. *)
Fixpoint collapse (in_run : bool) (s : string) : string :=
  match s with
  | EmptyString => EmptyString
  | String c r =>
      if is_backslash c
      then (if in_run then collapse true r else String "/" (collapse true r))
      else String c (collapse false r)
  end.

(** A character that is not a separator of either style. *)
Definition segment_char (c : ascii) : bool :=
  negb ((c =? "/")%char || is_backslash c).

Fixpoint some_char (p : ascii → bool) (s : string) : bool :=
  match s with
  | EmptyString => false
  | String c r => p c || some_char p r
  end.

(** The text the canonical path is computed from: the chosen hint, or the
    name when there is none. *)
Definition path_source (f : File) : string :=
  if Str.nonempty (hint f) then hint f else name f.

(** A pattern that does not look at the previous character. *)
Definition prev_free (m : matcher) : Prop := ∀ p q s, m p s = m q s.

(** *** Inputs the builder handles, and the shape of what it builds *)

(** A folder name that is neither the reserved name nor inherited. *)
Definition safe_segment (seg : string) : bool :=
  negb (bool_decide (seg = "files")) && negb (inherited seg).

(** A file whose normalised path does not change once [buildTree] has
    written it back to [fullPath]: it has a hint, or its name holds no
    backslash. *)
Definition stable (f : File) : bool :=
  Str.nonempty (hint f) || negb (some_char is_backslash (name f)).

(** A file the builder places as intended: its canonical path has a
    segment, its folders have safe names, and it is stable. *)
Definition admissible (f : File) : bool :=
  let parts := path_parts (normalizeFilePath f) in
  negb (bool_decide (parts = []))
  && forallb safe_segment (folders parts)
  && stable f.

(** A tree of plain objects in which the reserved name holds a plain
    array and every other name a subtree of the same shape. *)
Inductive shaped : node → Prop :=
| shaped_obj (ps : gmap string node) :
    (∀ v, ps !! "files" = Some v → ∃ es, v = Arr es ∅) →
    (∀ k v, k ≠ "files" → ps !! k = Some v → shaped v) →
    shaped (Obj ps).

(** The files found at a folder path, none when the walk fails. *)
Definition list_at (tree : node) (d : list string) : list ref :=
  default [] (descend tree d ≫= files_of).

(** The files of an input that share the folder [d], in input order. *)
Definition in_folder (σ : store) (d : list string) (files : list ref) : list ref :=
  filter (λ g, folders (canonical σ g) = d) files.

(** Inputs of the scenarios: a folder named like the reserved key next to
    a root-level file, a hint made of separators only, the same object
    twice, an object without hints whose name holds backslashes next to
    two other files, and the three files of the end-to-end scenario. *)
Definition reserved_store : store :=
  store_of [dropped "files/x.py" "x.py"; dropped "y.py" "y.py"].
Definition separators_store : store := store_of [dropped "/" "z.py"].
Definition twice_store : store := store_of [mkFile "a\b.py" None None].
Definition unstable_store : store :=
  store_of [mkFile "d\files\x.py" None None; dropped "d/z.py" "z.py";
            mkFile "y.py" None None].
Definition scenario_store : store :=
  store_of [dropped "a/b/x.ipynb" "x.ipynb"; dropped "a/y.py" "y.py";
            mkFile "z.py" None None].

(** How often a file object occurs in a list. *)
Definition occurrences (f : ref) (l : list ref) : nat :=
  List.length (filter (λ g, g = f) l).

(** A store with two objects at the same path, for an input in which one
    object also occurs twice. *)
Definition shared_store : store :=
  store_of [dropped "a/b/x.ipynb" "x.ipynb"; dropped "a/y.py" "y.py";
            mkFile "z.py" None None; picked "a\y.py" "y.py"].
Definition shared_input : list ref := [0; 1; 2; 3; 1]%nat.

(** The trees of the scenarios. *)
Definition folder_under_reserved_name : node :=
  Obj {[ "files" := Arr [1%nat] {[ "files" := Arr [0%nat] ∅ ]} ]}.
Definition split_twice : node :=
  Obj {[ "files" := Arr [0%nat] ∅;
         "a" := Obj {[ "files" := Arr [0%nat] ∅ ]} ]}.

(** *** Sessions and viewers of the scenarios *)

(** The tree of the end-to-end scenario: folder [a] with subfolder [b]
    and a file, and a root-level file. *)
Definition scenario_tree : node :=
  Obj {[ "a" := Obj {[ "b" := Obj {[ "files" := Arr [0%nat] ∅ ]};
                       "files" := Arr [1%nat] ∅ ]};
         "files" := Arr [2%nat] ∅ ]}.

(** The session standing in [a/b], and one whose path is stale. *)
Definition inside_b : session := Session scenario_tree ["a"; "b"] [].
Definition stale : session := Session scenario_tree ["a"; "gone"; "b"] [].

(** The first segment of a path that does not resolve. *)
Fixpoint first_missing {value : Type} (read : value → string → option value)
    (node : value) (path : list string) : option string :=
  match path with
  | [] => None
  | p :: rest =>
      match read node p with
      | Some child => first_missing read child rest
      | None => Some p
      end
  end.

Section Loading.

Variable JSON_parse : string → option json.

(** The content of a card loads without raising: it is a script, or its
    text does not parse, or the parsed notebook renders. *)
Definition renders (m : meta) : Prop :=
  match type m with
  | PY => True
  | IPYNB =>
      match JSON_parse (raw m) with
      | None => True
      | Some nb => is_Ok (renderFullNotebook nb)
      end
  end.

End Loading.

(** A viewer over three script cards, with both buttons enabled. *)
Definition three_scripts : viewer :=
  Viewer (list_to_map [("a", Meta "a.py" "x = 1" PY);
                       ("b", Meta "b.py" "y = 2" PY);
                       ("c", Meta "c.py" "z = 3" PY)])
         [Card (Some "a"); Card None; Card (Some "b"); Card (Some "c")]
         [] (-1)%Z
         (Some (Button false false)) (Some (Button false false))
         EmptyString EmptyString false [].

Definition no_parse : string → option json := λ _, None.

(** * Further definitions, for the rest of the module *)

(** ** Reading escaped markup back *)

(** A character [escapeHtml] replaces. *)
Definition special (c : ascii) : bool :=
  match entity c with Some _ => true | None => false end.

(** The five entities, read back as their characters. *)
Definition unescape_matcher : matcher := fun _ s =>
  if Str.starts_with "&amp;" s then Some ("&", 5%nat)
  else if Str.starts_with "&lt;" s then Some ("<", 4%nat)
  else if Str.starts_with "&gt;" s then Some (">", 4%nat)
  else if Str.starts_with "&quot;" s then Some (Str.dq, 6%nat)
  else if Str.starts_with "&#39;" s then Some ("'", 5%nat)
  else None.

Definition unescapeHtml (s : string) : string := replace_all unescape_matcher s.

(** The character before the position reached after a text. *)
Fixpoint last_char (prev : option ascii) (s : string) : option ascii :=
  match s with
  | EmptyString => prev
  | String c r => last_char (Some c) r
  end.

(** ** Texts for the markdown properties *)

(** Characters that can stand inside a line without starting emphasis or
    a code span: anything but a line terminator, a star and a backtick. *)
Definition midline (c : ascii) : bool :=
  Md.in_line c && negb (c =? "*")%char && negb (c =? "`")%char.

Definition not_char (k c : ascii) : bool := negb (c =? k)%char.

(** ** Collecting dropped entries *)

(** What a drop hands over: a file entry with the File object its [file]
    method yields, a directory entry with the entries its reader yields
    on the one call the module makes, or an entry that is neither. *)
Inductive entry : Type :=
| FileEntry (label : string) (f : File)
| DirEntry (label : string) (entries : list entry)
| OtherEntry (label : string).

(** [entry.name] *)
Definition entry_name (e : entry) : string :=
  match e with
  | FileEntry n _ => n
  | DirEntry n _ => n
  | OtherEntry n => n
  end.

(** [traverseFileTree(item, fileList, path)]: the list [fileList] once
    the promise has resolved.  A file gets the normalised path followed
    by its name as [fullPath] and is kept when its name is supported; a
    directory passes its entries one after the other, those whose name
    starts with a dot and an underscore apart. *)
Fixpoint traverseFileTree (item : entry) (fileList : list File) (path : string)
    : list File :=
  match item with
  | FileEntry _ f =>
      let normalizedPath := replace_all backslash_one path in
      let f := set_fullPath (normalizedPath +:+ name f) f in
      if supported f then (fileList ++ [f])%list else fileList
  | DirEntry dir entries =>
      (fix each (entries : list entry) (fileList : list File) : list File :=
         match entries with
         | [] => fileList
         | e :: rest =>
             if negb (Str.starts_with "._" (entry_name e)) then
               let normalizedPath := replace_all backslash_one path in
               let newPath := normalizedPath +:+ dir +:+ "/" in
               each rest (traverseFileTree e fileList newPath)
             else each rest fileList
         end) entries fileList
  | OtherEntry _ => fileList
  end.

(** The loop of the drop handler over the items, an item without an
    entry being passed over: the files handed to [initGallery]. *)
Fixpoint dropLoop (items : list (option entry)) (files : list File) : list File :=
  match items with
  | [] => files
  | Some e :: rest => dropLoop rest (traverseFileTree e files EmptyString)
  | None :: rest => dropLoop rest files
  end.

(** The loop over the entries of a directory, on its own. *)
Fixpoint traverseEntries (dir : string) (entries : list entry)
    (fileList : list File) (path : string) : list File :=
  match entries with
  | [] => fileList
  | e :: rest =>
      if negb (Str.starts_with "._" (entry_name e)) then
        traverseEntries dir rest
          (traverseFileTree e fileList
             (replace_all backslash_one path +:+ dir +:+ "/")) path
      else traverseEntries dir rest fileList path
  end.

(** What the traversal guarantees of a collected file under the path
    [path]: a supported name and a [fullPath] made of the normalised
    path, the directories passed, and the name. *)
Definition collected_under (path : string) (g : File) : Prop :=
  supported g = true
  ∧ ∃ dirs, fullPath g = Some (replace_all backslash_one path +:+ dirs +:+ name g)
            ∧ some_char is_backslash dirs = false
            ∧ (dirs = EmptyString ∨ Str.ends_with "/" dirs = true).

(** The files below an entry and the directories passed on the way to
    each, from the entry down: a file entry is reached through none, and
    a file below an entry of a directory, entries whose name starts with
    a dot and an underscore apart, through that directory first. *)
Inductive reaches : entry → list string → File → Prop :=
| reaches_file (label : string) (f : File) :
    reaches (FileEntry label f) [] f
| reaches_dir (dir : string) (entries : list entry) (e : entry)
    (dirs : list string) (f : File) :
    e ∈ entries →
    Str.starts_with "._" (entry_name e) = false →
    reaches e dirs f →
    reaches (DirEntry dir entries) (dir :: dirs) f.

(** The directories passed, as text: each with its backslashes turned
    into slashes and followed by a slash. *)
Fixpoint dirs_text (dirs : list string) : string :=
  match dirs with
  | [] => EmptyString
  | d :: rest => replace_all backslash_one d +:+ "/" +:+ dirs_text rest
  end.

(** A file with the path of a traversal started at [path] that passed
    the directories [dirs]. *)
Definition placed (path : string) (dirs : list string) (f : File) : File :=
  set_fullPath (replace_all backslash_one path +:+ dirs_text dirs +:+ name f) f.

(** A dropped folder with nested folders, a metadata entry, a file that
    is not supported and a directory name written with a backslash. *)
Definition dropped_folder : entry :=
  DirEntry "proj"
    [ FileEntry "a.ipynb" (mkFile "a.ipynb" (Some EmptyString) None);
      FileEntry "._a.ipynb" (mkFile "._a.ipynb" (Some EmptyString) None);
      FileEntry "notes.txt" (mkFile "notes.txt" (Some EmptyString) None);
      DirEntry "src\lib"
        [ FileEntry "m.py" (mkFile "m.py" (Some EmptyString) None);
          OtherEntry "link" ] ].

(** ** initGallery *)

Definition no_files_found : string := "No .ipynb or .py files found.".

(** [initGallery(files)]: the store, the session and the alerts it
    leaves.  Without a supported file it alerts and returns; otherwise
    the tree of the supported files becomes the folder structure, the
    path is emptied and the root is shown. *)
Definition initGallery (files : list ref) (σ : store) (st : @session node)
    : outcome (store * @session node * list string) :=
  let supportedFiles := filter (λ f, supported (σ f) = true) files in
  match supportedFiles with
  | [] => Ok (σ, st, [no_files_found])
  | _ :: _ =>
      '(σ', tree) ← buildTree σ supportedFiles;
      Ok (σ', Session tree [] (console st), [])
  end.

(** ** Moving through the folders *)

Section Folders.

Context {value : Type}.
Variable read : value → string → option value.

(** [getCurrentNode()]: the path is followed without a guard. *)
Definition getCurrentNode (st : @session value) : outcome (option value) :=
  unguardedLoop read (currentPath st) (Some (folderStructure st)).

(** The click handler [renderFolderView] installs on the card of the
    folder [name] of the node it shows: the session it leaves and the
    value it passes on to be shown. *)
Definition enterFolder (name : string) (st : @session value) (node : value)
    : @session value * option value :=
  (Session (folderStructure st) (currentPath st ++ [name]) (console st),
   read node name).

(** The view shows the node the path leads to. *)
Definition in_step (st : @session value) (shown : value) : Prop :=
  resolve read (folderStructure st) (currentPath st) = Some shown.

End Folders.

(** ** Registering a card *)

(** What a card shows once its file is read: markup, or a plain text. *)
Inductive content : Type :=
| Markup (html : string)
| Text (t : string).

Definition with_registered (i : nat) (id : string) (m : meta) (v : viewer)
    : viewer :=
  Viewer (<[id := m]> (cardMap v)) (<[i := Card (Some id)]> (gallery v))
    (navigationCardIds v) (currentCardIndex v) (prevButton v) (nextButton v)
    (viewerTitle v) (viewerBody v) (modalShown v) (alerts v).

(** [cardMap.clear()] and [gallery.innerHTML = ''] of the clear button. *)
Definition clearCards (v : viewer) : viewer :=
  Viewer ∅ [] (navigationCardIds v) (currentCardIndex v) (prevButton v)
    (nextButton v) (viewerTitle v) (viewerBody v) (modalShown v) (alerts v).

Section Registration.

Variable JSON_parse : string → option json.

(** The [onload] handler of the reader of the card at position [i] of
    the gallery, [id] being the text drawn for it: the preview is
    rendered, and then the card gets its id and its entry in the map;
    when the parsing or the preview raises, the card shows an error text
    and is not registered.  Highlighting is taken not to raise.  A card
    that has left the gallery by then is a position outside of it. *)
Definition onload (ext : kind) (file_name result id : string) (i : nat)
    (v : viewer) : viewer * content :=
  let registered := with_registered i id (Meta file_name result ext) v in
  match ext with
  | IPYNB =>
      match JSON_parse result with
      | Some nb =>
          match renderNotebookPreview nb with
          | Ok html => (registered, Markup html)
          | _ => (v, Text "Error parsing")
          end
      | None => (v, Text "Error parsing")
      end
  | PY => (registered, Markup (renderScriptPreview result))
  end.

(** Every notebook of the map has a text that parses. *)
Definition parsed_on_entry (v : viewer) : Prop :=
  ∀ id m, cardMap v !! id = Some m → type m = IPYNB →
          is_Some (JSON_parse (raw m)).

End Registration.

(** Parsing, on the texts of the scenario: the text of a notebook with
    one markdown cell and the empty object parse; an opening brace alone
    does not, and no other text is used. *)
Definition quoted (s : string) : string := Str.dq +:+ s +:+ Str.dq.
Definition hello_text : string :=
  "{" +:+ quoted "cells" +:+ ":[{" +:+ quoted "cell_type" +:+ ":"
  +:+ quoted "markdown" +:+ "," +:+ quoted "source" +:+ ":" +:+ quoted "hello"
  +:+ "}]}".
Definition hello_notebook : json := notebook [markdown_cell (JStr "hello")].
Definition parse_scenario : string → option json := λ s,
  if bool_decide (s = hello_text) then Some hello_notebook
  else if bool_decide (s = "{}") then Some (JObj ∅)
  else None.

(** The viewer of the three scripts once the card at position 1 has
    loaded the notebook of the scenario under the id [k3]. *)
Definition with_notebook_card : viewer :=
  (onload parse_scenario IPYNB "hello.ipynb" hello_text "k3" 1 three_scripts).1.

(** The cursor is on a card of the captured list, or before the first. *)
Definition cursor_in_range (v : viewer) : Prop :=
  (-1 ≤ currentCardIndex v < Z.of_nat (List.length (navigationCardIds v)))%Z.

(** ** Inputs of further scenarios *)

(** The files of the cross-platform test of the module: a dropped file
    of each style, and a picked file of each style in one folder. *)
Definition cross_platform_store : store :=
  store_of [dropped "C:\Users\Test\folder1\win1.ipynb" "win1.ipynb";
            dropped "/Users/Test/folder1/mac1.ipynb" "mac1.ipynb";
            picked "folder1\subfolder\win2.ipynb" "win2.ipynb";
            picked "folder1/subfolder/mac2.ipynb" "mac2.ipynb"].

(** The same cell or output with its text written as a list of lines and
    as one text. *)
Definition as_lines (lines : list string) : json := JArr (JStr <$> lines).
Definition as_text (lines : list string) : json :=
  JStr (Str.join EmptyString lines).
(** * Properties *)

(** ** Strings *)

Lemma append_cons (c : ascii) (a b : string) :
  String c a +:+ b = String c (a +:+ b).
Proof. reflexivity. Qed.

Lemma append_nil_l (s : string) : EmptyString +:+ s = s.
Proof. reflexivity. Qed.

Lemma mem_app (c : ascii) (a b : string) :
  Str.mem c (a +:+ b) = Str.mem c a || Str.mem c b.
Proof.
  induction a as [|d a IH]; [done|].
  rewrite append_cons. simpl. by rewrite IH, orb_assoc.
Qed.

Lemma append_nil_r (s : string) : s +:+ EmptyString = s.
Proof. induction s as [|c s IH]; [done | by rewrite append_cons, IH]. Qed.

Lemma append_assoc (a b c : string) : (a +:+ b) +:+ c = a +:+ (b +:+ c).
Proof. induction a as [|d a IH]; [done | by rewrite !append_cons, IH]. Qed.

(** ** escapeHtml *)

(** One step of [escapeHtml]: the first character gives its entity, or
    itself when it has none. *)
Lemma escapeHtml_cons (c : ascii) (r : string) :
  escapeHtml (String c r) =
  default (String c EmptyString) (entity c) +:+ escapeHtml r.
Proof.
  assert (replace_from escape_matcher (Some c) 0 r
          = replace_from escape_matcher None 0 r) as E by by destruct r.
  unfold escapeHtml, replace_all. simpl.
  destruct (entity c) as [e|]; simpl; by rewrite E.
Qed.

Lemma escapeHtml_Escaped (s : string) : Escaped (escapeHtml s).
Proof.
  induction s as [|c s IH]; [constructor|].
  rewrite escapeHtml_cons.
  destruct (entity c) as [e|] eqn:He; simpl.
  - by eapply Escaped_entity.
  - by apply Escaped_plain.
Qed.

Lemma entity_chars (c d : ascii) (e : string) :
  entity c = Some e → Str.mem d e = true →
  d ≠ "<"%char ∧ d ≠ ">"%char ∧ d ≠ Str.dquote ∧ d ≠ "'"%char.
Proof.
  unfold entity. intros He Hd.
  repeat match type of He with
         | (if ?b then _ else _) = _ => destruct b
         end; simplify_eq; simpl in Hd;
    repeat match type of Hd with
           | (?x =? ?y)%char || _ = true =>
               destruct (Ascii.eqb_spec x y);
               [subst; repeat split; discriminate | simpl in Hd]
           end; done.
Qed.

Lemma entity_None (c : ascii) :
  entity c = None →
  c ≠ "&"%char ∧ c ≠ "<"%char ∧ c ≠ ">"%char ∧ c ≠ Str.dquote ∧ c ≠ "'"%char.
Proof.
  unfold entity. intros H.
  repeat match type of H with
         | (if (?x =? ?y)%char then _ else _) = _ =>
             destruct (Ascii.eqb_spec x y); [discriminate|]
         end.
  done.
Qed.

(** No angle bracket and no quote survives [escapeHtml]. *)
Lemma escapeHtml_no_raw (s : string) (d : ascii) :
  Str.mem d (escapeHtml s) = true →
  d ≠ "<"%char ∧ d ≠ ">"%char ∧ d ≠ Str.dquote ∧ d ≠ "'"%char.
Proof.
  induction s as [|c s IH]; [done|].
  rewrite escapeHtml_cons, mem_app. intros [H|H]%orb_true_iff; [|by apply IH].
  destruct (entity c) as [e|] eqn:He; simpl in H.
  - by eapply entity_chars.
  - rewrite orb_false_r in H. apply Ascii.eqb_eq in H as ->.
    by apply entity_None in He as (_ & ? & ? & ? & ?).
Qed.

(** ** renderMarkdown inserts its text as it is *)

(** A pattern that cannot start on the characters of a text leaves the
    text alone. *)
Lemma replace_from_inert (m : matcher) (p : ascii → bool) (s : string) :
  (∀ prev c r, p c = true → m prev (String c r) = None) →
  all_chars p s = true →
  ∀ prev, replace_from m prev 0 s = s.
Proof.
  intros Hm. induction s as [|c s IH]; [done|].
  simpl. intros [Hc Hs]%andb_true_iff prev.
  rewrite (Hm prev c s Hc). f_equal. by apply IH.
Qed.

Lemma starts_with_head (c d : ascii) (p r : string) :
  c ≠ d → Str.starts_with (String c p) (String d r) = false.
Proof. intros H. simpl. by destruct (Ascii.eqb_spec c d). Qed.

Lemma inert_spec (c : ascii) :
  inert c = true →
  c ≠ "#"%char ∧ c ≠ "*"%char ∧ c ≠ "`"%char ∧ c ≠ Str.newline.
Proof.
  unfold inert. rewrite negb_true_iff, !orb_false_iff.
  intros [[[H1 H2] H3] H4].
  repeat split; intros ->; discriminate.
Qed.

Lemma header_inert (tag : string) (m : string) prev c r :
  inert c = true → Md.header (String "#" m) tag prev (String c r) = None.
Proof.
  intros (H1 & _)%inert_spec. unfold Md.header.
  by rewrite starts_with_head, andb_false_r.
Qed.

Lemma delimited_inert (tag : string) (m : string) prev c r :
  inert c = true → Md.delimited (String "*" m) tag prev (String c r) = None.
Proof.
  intros (_ & H2 & _)%inert_spec. unfold Md.delimited.
  by rewrite starts_with_head.
Qed.

Lemma code_span_inert prev c r :
  inert c = true → Md.code_span prev (String c r) = None.
Proof.
  intros (_ & _ & H3 & _)%inert_spec. unfold Md.code_span.
  by destruct (Ascii.eqb_spec c "`").
Qed.

Lemma blank_line_inert prev c r :
  inert c = true → Md.blank_line prev (String c r) = None.
Proof.
  intros (_ & _ & _ & H4)%inert_spec. unfold Md.blank_line.
  unfold Str.nl. rewrite append_cons. by rewrite starts_with_head.
Qed.

Lemma convert_inert (s : string) : all_chars inert s = true → Md.convert s = s.
Proof.
  intros Hs. unfold Md.convert, replace_all.
  rewrite (replace_from_inert (Md.header "### " "h3") inert s)
    by (done || intros; by apply header_inert).
  rewrite (replace_from_inert (Md.header "## " "h2") inert s)
    by (done || intros; by apply header_inert).
  rewrite (replace_from_inert (Md.header "# " "h1") inert s)
    by (done || intros; by apply header_inert).
  rewrite (replace_from_inert (Md.delimited "**" "strong") inert s)
    by (done || intros; by apply delimited_inert).
  rewrite (replace_from_inert (Md.delimited "*" "em") inert s)
    by (done || intros; by apply delimited_inert).
  rewrite (replace_from_inert Md.code_span inert s)
    by (done || intros; by apply code_span_inert).
  by rewrite (replace_from_inert Md.blank_line inert s)
    by (done || intros; by apply blank_line_inert).
Qed.

(** Text without markdown markup reaches the page as it is, whatever
    HTML it holds. *)
Lemma renderMarkdown_verbatim (s : string) :
  all_chars inert s = true → s ≠ EmptyString →
  renderMarkdown (Some (JStr s)) = Ok ("<p>" +:+ s +:+ "</p>").
Proof.
  intros Hs Hne. unfold renderMarkdown. simpl.
  destruct s; [done|]. simpl. by rewrite convert_inert.
Qed.

(** C1 (the code departs from the claim): a markdown cell whose source is
    the script payload is rendered, in the preview and in the full view,
    with the payload inside the paragraph as it is: the angle brackets,
    the ampersand and both quotes are inserted unescaped. *)
Theorem markdown_source_inserted_unescaped :
  renderNotebookPreview script_notebook
    = Ok ("<p>" +:+ script_payload +:+ "</p>")
  ∧ renderFullNotebook script_notebook
    = Ok (div_open "markdown" +:+ "<p>" +:+ script_payload +:+ "</p>"
          +:+ "</div>")
  ∧ Str.includes "<script>" ("<p>" +:+ script_payload +:+ "</p>") = true
  ∧ escapeHtml script_payload ≠ script_payload.
Proof. repeat split; by vm_compute. Qed.

(** The sibling path: the source of a code cell goes through
    [escapeHtml] in the preview. *)
Lemma preview_code_cell_escaped (ps : gmap string json) (s : string) :
  ps !! "cell_type" = Some (JStr "code") →
  ps !! "source" = Some (JStr s) →
  renderNotebookPreview (notebook [JObj ps])
  = Ok (code_open +:+ escapeHtml (Str.trim s) +:+ code_close).
Proof.
  intros Hty Hsrc.
  unfold renderNotebookPreview, notebook, obj. simpl.
  rewrite lookup_insert_eq. simpl. rewrite Hty. simpl. rewrite Hsrc. simpl.
  unfold or_empty. simpl. by destruct s.
Qed.

(** The text of an output goes through [escapeHtml] in the full view. *)
Lemma plain_text_output_escaped (ps data : gmap string json) (s : string) :
  ps !! "data" = Some (JObj data) →
  data !! "image/png" = None → data !! "image/jpeg" = None →
  data !! "image/svg+xml" = None →
  data !! "text/plain" = Some (JStr s) → s ≠ EmptyString →
  Str.includes "<Figure size" s = false → Str.includes "Figure(" s = false →
  renderOutput (JObj ps) = Ok (out_open +:+ escapeHtml s +:+ out_close).
Proof.
  intros Hd Hpng Hjpeg Hsvg Hplain Hne Hfig Hcall.
  unfold renderOutput, dataField. simpl.
  rewrite Hd. simpl. rewrite Hpng, Hjpeg, Hsvg, Hplain. simpl.
  destruct s; [done|]. simpl in *. by rewrite Hfig, Hcall.
Qed.

(** The lines of a script go through [escapeHtml] in the preview. *)
Lemma script_preview_escaped (raw : string) :
  ∃ e, renderScriptPreview raw = code_open +:+ e +:+ code_close ∧ Escaped e.
Proof. eexists. split; [done|]. apply escapeHtml_Escaped. Qed.

(** ** Output precedence *)

(** C2 (the claim fails as stated): with the text output and the image
    output as two entries of the list, both are rendered, the text first. *)
Lemma separate_outputs_both_rendered :
  renderFullNotebook (notebook [code_cell (JStr EmptyString) [text_42; png_AAAA]])
  = Ok (div_open "code" +:+ code_open +:+ code_close
        +:+ out_open +:+ "42" +:+ out_close
        +:+ img "image/png" "AAAA" +:+ "</div>")
  ∧ Str.includes (out_open +:+ "42" +:+ out_close)
      (div_open "code" +:+ code_open +:+ code_close
        +:+ out_open +:+ "42" +:+ out_close
        +:+ img "image/png" "AAAA" +:+ "</div>") = true.
Proof. split; by vm_compute. Qed.

(** C2 (amended): within one output a PNG payload wins over every other
    payload of that output, whatever else its data holds: the output is
    rendered as the embedded image and nothing else.  The loop over the
    outputs adds that image and goes on with the outputs that follow, so
    the precedence does not reach across the entries of the list. *)
Theorem image_precedence_within_output
    (ps data : gmap string json) (payload : string) :
  ps !! "data" = Some (JObj data) →
  data !! "image/png" = Some (JStr payload) →
  payload ≠ EmptyString →
  renderOutput (JObj ps) = Ok (img "image/png" payload)
  ∧ ∀ rest html,
      outputsLoop (JObj ps :: rest) html
      = outputsLoop rest (html +:+ img "image/png" payload).
Proof.
  intros Hd Hp Hne.
  assert (renderOutput (JObj ps) = Ok (img "image/png" payload)) as E.
  { unfold renderOutput, dataField. simpl.
    rewrite Hd. simpl. rewrite Hp. simpl. by destruct payload. }
  split; [done|]. intros rest html. simpl. by rewrite E.
Qed.

Lemma image_precedence_within_output_witness :
  renderOutput text_and_png = Ok (img "image/png" "AAAA")
  ∧ ∀ rest html,
      outputsLoop (text_and_png :: rest) html
      = outputsLoop rest (html +:+ img "image/png" "AAAA").
Proof.
  unfold text_and_png, data_output, obj.
  eapply image_precedence_within_output; [by vm_compute | by vm_compute | done].
Defined.

(** ** Hints of a file *)

(** C3 (the claim fails as stated): with both hints present the
    picker-derived one is used, and a traversal-derived hint is not used
    as it is: its backslashes are replaced as well. *)
Lemma picker_hint_preferred :
  normalizeFilePath (mkFile "x.py" (Some "picked/x.py") (Some "dropped/x.py"))
    = "picked/x.py"
  ∧ normalizeFilePath (mkFile "a\b.py" None (Some "d/a\b.py")) = "d/a/b.py".
Proof. split; by vm_compute. Qed.

(** The hints in their order of preference. *)
Lemma hint_order (f : File) :
  normalizeFilePath f =
    match webkitRelativePath f, fullPath f with
    | Some (String c w), _ => slashes (String c w)
    | _, Some (String c p) => slashes (String c p)
    | _, _ => name f
    end.
Proof.
  unfold normalizeFilePath, hint.
  destruct f as [n [[|c w]|] [[|d p]|]]; done.
Qed.

(** ** Counting in the preview *)

Lemma previewLoop_full (cells : list json) (shown : nat) (html : string) :
  (NOTEBOOK_PREVIEW_CELLS ≤ shown)%nat → previewLoop cells shown html = Ok html.
Proof.
  intros H. destruct cells as [|c rest]; [done|]. simpl.
  destruct shown as [|[|[|n]]]; unfold NOTEBOOK_PREVIEW_CELLS in H; (lia || done).
Qed.

(** One turn of the loop on a cell that is not null. *)
Lemma previewLoop_step (c : json) (rest : list json) (shown : nat) (html : string) :
  (shown < NOTEBOOK_PREVIEW_CELLS)%nat → c ≠ JNull →
  previewLoop (c :: rest) shown html =
  if counted c
  then h ← previewCell c; previewLoop rest (S shown) (html +:+ h)
  else previewLoop rest shown html.
Proof.
  intros Hs Hc.
  assert ((NOTEBOOK_PREVIEW_CELLS <=? shown)%nat = false) as E
    by by apply Nat.leb_gt.
  cbn [previewLoop]. rewrite E. clear E.
  unfold previewCell, counted.
  destruct c as [|b|z t|s|l|ps]; try done. simpl.
  destruct (is_string "markdown" (ps !! "cell_type")) eqn:Hm; simpl.
  - by destruct (joined (ps !! "source")) as [text| |].
  - destruct (is_string "code" (ps !! "cell_type")) eqn:Hcode; simpl; [|done].
    destruct (joined (ps !! "source")) as [text| |]; simpl; try done.
    by destruct (or_empty text) as [[| | |s| |]|].
Qed.

Lemma previewLoop_spec (cells : list json) :
  Forall (λ c, c ≠ JNull) cells →
  ∀ shown html,
    previewLoop cells shown html =
    (h ← previewEach (take (NOTEBOOK_PREVIEW_CELLS - shown)
                        (filter (λ c, counted c = true) cells));
     Ok (html +:+ h)).
Proof.
  induction 1 as [|c rest Hc Hrest IH]; intros shown html.
  - simpl. rewrite filter_nil, take_nil. simpl. by rewrite append_nil_r.
  - destruct (decide (NOTEBOOK_PREVIEW_CELLS ≤ shown)%nat) as [Hfull|Hroom].
    + rewrite previewLoop_full by done.
      replace (NOTEBOOK_PREVIEW_CELLS - shown)%nat with 0%nat by lia.
      simpl. by rewrite append_nil_r.
    + rewrite previewLoop_step by (done || lia).
      rewrite filter_cons. destruct (counted c) eqn:Hcount.
      * rewrite decide_True by done.
        replace (NOTEBOOK_PREVIEW_CELLS - shown)%nat
          with (S (NOTEBOOK_PREVIEW_CELLS - S shown)) by lia.
        simpl. destruct (previewCell c) as [h| |]; simpl; try done.
        rewrite IH.
        destruct (previewEach _) as [hs| |]; simpl; try done.
        by rewrite append_assoc.
      * rewrite decide_False by congruence. apply IH.
Qed.

(** C9: the preview of a notebook is the markup of the first three cells
    among its markdown and code cells, in document order; cells of other
    types are passed over and do not count. *)
Theorem preview_renders_first_three_counted
    (ps : gmap string json) (cells : list json) :
  ps !! "cells" = Some (JArr cells) →
  Forall (λ c, c ≠ JNull) cells →
  renderNotebookPreview (JObj ps) =
  previewEach (take 3 (filter (λ c, counted c = true) cells))
  ∧ (List.length (take 3 (filter (λ c, counted c = true) cells)) ≤ 3)%nat.
Proof.
  intros Hps Hcells. split; [|rewrite length_take; lia].
  unfold renderNotebookPreview. simpl. rewrite Hps. simpl.
  rewrite previewLoop_spec by done. simpl.
  by destruct (previewEach _).
Qed.

Lemma preview_renders_first_three_counted_witness :
  renderNotebookPreview (notebook five_cells) =
  previewEach [ markdown_cell (JStr "one"); code_cell (JStr "three") [];
                code_cell (JStr "four") [] ]
  ∧ renderNotebookPreview (notebook five_cells)
    = Ok ("<p>one</p>" +:+ code_open +:+ "three" +:+ code_close
          +:+ code_open +:+ "four" +:+ code_close).
Proof.
  split.
  - apply (preview_renders_first_three_counted _ five_cells).
    + by vm_compute.
    + repeat constructor; by vm_compute.
  - by vm_compute.
Defined.

(** ** The renderers on well-formed notebooks *)

Lemma toString_array (l : list json) : toString (JArr l) = arrayJoin "," l.
Proof.
  unfold arrayJoin. simpl. by f_equal.
Qed.

Lemma elementTexts_strings (l : list json) :
  forallb is_JStr l = true → is_Ok (elementTexts l).
Proof.
  induction l as [|x l IH]; simpl; [by eexists|].
  intros [Hx Hl]%andb_true_iff. destruct x; try done. simpl.
  destruct (IH Hl) as [ss ->]. by eexists.
Qed.

Lemma arrayJoin_strings (sep : string) (l : list json) :
  forallb is_JStr l = true → is_Ok (arrayJoin sep l).
Proof.
  intros H. unfold arrayJoin.
  destruct (elementTexts_strings l H) as [ss ->]. by eexists.
Qed.

Lemma interpolate_textual (v : option json) :
  textual v = true → is_Ok (interpolate v).
Proof.
  destruct v as [[| | |s|l|]|]; intros H; try discriminate H;
    unfold interpolate; try (by eexists).
  rewrite toString_array. by apply arrayJoin_strings.
Qed.

(** A text field joins to a string, or stays absent or null. *)
Lemma joined_textual (v : option json) :
  textual v = true →
  ∃ w, joined v = Ok w ∧
       match w with
       | None | Some JNull => truthy v = false
       | Some (JStr _) => True
       | _ => False
       end.
Proof.
  destruct v as [[| | |s|l|]|]; simpl; try done; try by eexists.
  intros H. destruct (arrayJoin_strings EmptyString l H) as [s ->].
  simpl. by eexists.
Qed.

Lemma renderMarkdown_textual (v w : option json) :
  textual v = true → joined v = Ok w → is_Ok (renderMarkdown w).
Proof.
  intros Hv Hw. destruct (joined_textual v Hv) as (w' & E & Hshape).
  rewrite Hw in E. injection E as <-.
  unfold renderMarkdown.
  destruct w as [[| | |s| |]|]; try done; simpl; try by eexists.
  destruct (negb (Str.nonempty s)); by eexists.
Qed.

Lemma or_empty_textual (v w : option json) :
  textual v = true → joined v = Ok w → ∃ s, or_empty w = Some (JStr s).
Proof.
  intros Hv Hw. destruct (joined_textual v Hv) as (w' & E & Hshape).
  rewrite Hw in E. injection E as <-.
  unfold or_empty.
  destruct w as [[| | |s| |]|]; try done; simpl; try by eexists.
  destruct (Str.nonempty s); by eexists.
Qed.

Lemma joined_truthy_textual (v : option json) :
  textual v = true → truthy v = true → ∃ s, joined v = Ok (Some (JStr s)).
Proof.
  intros Hv Ht. destruct (joined_textual v Hv) as (w & E & Hshape).
  destruct w as [[| | |s| |]|]; try done; try congruence. by exists s.
Qed.

Lemma dataField_wf (ps : gmap string json) (k : string) :
  wf_data (ps !! "data") = true → k ∈ mime_keys →
  ∃ v, dataField (JObj ps) k = Ok v ∧ textual v = true.
Proof.
  unfold dataField. simpl.
  destruct (ps !! "data") as [[| | | | |d]|]; simpl; try done; try by eexists.
  intros H Hk. exists (d !! k). split; [done|].
  repeat apply andb_true_iff in H as [H ?].
  unfold mime_keys in Hk.
  repeat (apply elem_of_cons in Hk as [->|Hk]; [done|]).
  by apply elem_of_nil in Hk.
Qed.

Lemma escaped_output (v : option json) :
  textual v = true → truthy v = true →
  is_Ok (text ← joined v; e ← escapeHtmlOf text; Ok (out_open +:+ e +:+ out_close)).
Proof.
  intros Hv Ht. destruct (joined_truthy_textual v Hv Ht) as [s ->].
  by eexists.
Qed.

Lemma renderOutput_wf (o : json) : wf_output o = true → is_Ok (renderOutput o).
Proof.
  destruct o as [| | | | |ps]; try done. simpl.
  intros [Hd Ht]%andb_true_iff. unfold renderOutput.
  destruct (dataField_wf ps "image/png" Hd) as (png & -> & Hpng);
    [unfold mime_keys; set_solver|]. simpl.
  destruct (truthy png) eqn:?.
  { destruct (interpolate_textual png Hpng) as [p ->]. by eexists. }
  destruct (dataField_wf ps "image/jpeg" Hd) as (jpeg & -> & Hjpeg);
    [unfold mime_keys; set_solver|]. simpl.
  destruct (truthy jpeg) eqn:?.
  { destruct (interpolate_textual jpeg Hjpeg) as [p ->]. by eexists. }
  destruct (dataField_wf ps "image/svg+xml" Hd) as (svg & -> & Hsvg);
    [unfold mime_keys; set_solver|]. simpl.
  destruct (truthy svg) eqn:?.
  { destruct (interpolate_textual svg Hsvg) as [p ->]. by eexists. }
  destruct (dataField_wf ps "text/plain" Hd) as (plain & -> & Hplain);
    [unfold mime_keys; set_solver|]. simpl.
  destruct (truthy plain) eqn:Hp.
  { destruct (joined_truthy_textual plain Hplain Hp) as [s ->]. simpl.
    destruct (Str.includes "<Figure size" s); simpl; [by eexists|].
    destruct (Str.includes "Figure(" s); simpl; by eexists. }
  unfold streamText. simpl.
  destruct (is_string "stream" (ps !! "output_type")); simpl; [|by eexists].
  destruct (truthy (ps !! "text")) eqn:Hs; [|by eexists].
  by apply escaped_output.
Qed.

Lemma outputsLoop_wf (os : list json) :
  forallb wf_output os = true → ∀ html, is_Ok (outputsLoop os html).
Proof.
  induction os as [|o os IH]; simpl; [by eexists|].
  intros [Ho Hos]%andb_true_iff html.
  destruct (renderOutput_wf o Ho) as [h ->]. simpl. by apply IH.
Qed.

Lemma forEachItems_wf (wf : json → bool) (v : option json) :
  wf_list wf v = true → ∃ l, forEachItems v = Ok l ∧ forallb wf l = true.
Proof.
  destruct v as [[| | | |l|]|]; simpl; try done; by eexists.
Qed.

Lemma renderCell_wf (c : json) :
  wf_cell c = true → ∀ html, is_Ok (renderCell c html).
Proof.
  destruct c as [| | | | |ps]; try done. simpl.
  intros [[Hty Hsrc]%andb_true_iff Houts]%andb_true_iff html.
  unfold renderCell. simpl.
  assert (is_Ok (interpolate (ps !! "cell_type"))) as [cls ->].
  { destruct (ps !! "cell_type") as [[]|]; try done; by eexists. }
  simpl.
  destruct (is_string "markdown" (ps !! "cell_type")).
  { destruct (joined_textual _ Hsrc) as (w & Hw & _). rewrite Hw. simpl.
    destruct (renderMarkdown_textual _ _ Hsrc Hw) as [h ->]. by eexists. }
  destruct (is_string "code" (ps !! "cell_type")); [|by eexists].
  destruct (joined_textual _ Hsrc) as (w & Hw & _). rewrite Hw. simpl.
  destruct (or_empty_textual _ _ Hsrc Hw) as [s ->]. simpl.
  destruct (forEachItems_wf _ _ Houts) as (os & -> & Hos). simpl.
  destruct (outputsLoop_wf os Hos (html +:+ div_open cls +:+ code_open
                                    +:+ escapeHtml s +:+ code_close)) as [h Hh].
  unfold div_open in Hh. rewrite !append_assoc in Hh. rewrite !append_assoc.
  rewrite Hh. by eexists.
Qed.

Lemma cellsLoop_wf (cells : list json) :
  forallb wf_cell cells = true → ∀ html, is_Ok (cellsLoop cells html).
Proof.
  induction cells as [|c cells IH]; simpl; [by eexists|].
  intros [Hc Hcells]%andb_true_iff html.
  destruct (renderCell_wf c Hc html) as [h ->]. simpl. by apply IH.
Qed.

Lemma previewCell_wf (c : json) : wf_cell c = true → is_Ok (previewCell c).
Proof.
  destruct c as [| | | | |ps]; try done. simpl.
  intros [[Hty Hsrc]%andb_true_iff Houts]%andb_true_iff.
  unfold previewCell. simpl.
  destruct (is_string "markdown" (ps !! "cell_type")).
  { destruct (joined_textual _ Hsrc) as (w & Hw & _). rewrite Hw. simpl.
    by apply (renderMarkdown_textual (ps !! "source")). }
  destruct (is_string "code" (ps !! "cell_type")); [|by eexists].
  destruct (joined_textual _ Hsrc) as (w & Hw & _). rewrite Hw. simpl.
  destruct (or_empty_textual _ _ Hsrc Hw) as [s ->]. by eexists.
Qed.

Lemma previewEach_wf (cells : list json) :
  forallb wf_cell cells = true → is_Ok (previewEach cells).
Proof.
  induction cells as [|c cells IH]; simpl; [by eexists|].
  intros [Hc Hcells]%andb_true_iff.
  destruct (previewCell_wf c Hc) as [h ->]. simpl.
  destruct (IH Hcells) as [hs ->]. by eexists.
Qed.

Lemma wf_cell_not_null (cells : list json) :
  forallb wf_cell cells = true → Forall (λ c, c ≠ JNull) cells.
Proof.
  induction cells as [|c cells IH]; simpl; [constructor|].
  intros [Hc Hcells]%andb_true_iff. constructor; [|by apply IH].
  by intros ->.
Qed.

Lemma forallb_sublist_filter_take (wf : json → bool) (n : nat) (cells : list json) :
  forallb wf cells = true →
  forallb wf (take n (filter (λ c, counted c = true) cells)) = true.
Proof.
  rewrite !forallb_forall. intros H c Hc. apply H.
  apply list_elem_of_In. apply list_elem_of_In in Hc.
  apply elem_of_take in Hc as (i & Hi & _).
  apply list_elem_of_lookup_2 in Hi.
  by apply list_elem_of_filter in Hi as [_ ?].
Qed.

Lemma renderers_total (nb : json) :
  wf_notebook nb = true →
  is_Ok (renderNotebookPreview nb) ∧ is_Ok (renderFullNotebook nb).
Proof.
  destruct nb as [| | | | |ps]; try done. simpl. intros Hwf.
  unfold renderNotebookPreview, renderFullNotebook. simpl.
  destruct (ps !! "cells") as [[| | | |cells|]|]; simpl in *; try done;
    try (split; by eexists).
  split; [|by apply cellsLoop_wf].
  rewrite previewLoop_spec by by apply wf_cell_not_null.
  destruct (previewEach_wf (take (NOTEBOOK_PREVIEW_CELLS - 0)
      (filter (λ c, counted c = true) cells))) as [h ->];
    [by apply forallb_sublist_filter_take | by eexists].
Qed.

(** *** Absent fields read as empty ones *)

Lemma fill_lookup_ne (k k' : string) (v : json) (ps : gmap string json) :
  k ≠ k' → fill k v ps !! k' = ps !! k'.
Proof.
  intros Hne. unfold fill.
  destruct (ps !! k) as [[]|]; by rewrite ?lookup_insert_ne.
Qed.

Lemma fill_lookup_eq (k : string) (v : json) (ps : gmap string json) :
  fill k v ps !! k =
  match ps !! k with
  | None | Some JNull => Some v
  | Some x => Some x
  end.
Proof.
  unfold fill.
  destruct (ps !! k) as [[]|] eqn:E; by rewrite ?lookup_insert_eq.
Qed.

Lemma fill_cell_type (c : json) :
  getProp (fill_cell c) "cell_type" = getProp c "cell_type".
Proof.
  destruct c as [| | | | |ps]; try done. simpl.
  by rewrite !fill_lookup_ne.
Qed.

(** An absent or null source reads as the empty text. *)
Lemma fill_source (ps : gmap string json) :
  let src := fill "source" (JStr EmptyString) (fill "outputs" (JArr []) ps)
             !! "source" in
  (text ← joined src; renderMarkdown text)
  = (text ← joined (ps !! "source"); renderMarkdown text)
  ∧ or_empty <$> joined src = or_empty <$> joined (ps !! "source").
Proof.
  simpl. rewrite fill_lookup_eq, fill_lookup_ne by done.
  by destruct (ps !! "source") as [[]|].
Qed.

(** Absent or null outputs read as the empty list. *)
Lemma fill_outputs (ps : gmap string json) :
  forEachItems (fill "source" (JStr EmptyString) (fill "outputs" (JArr []) ps)
                !! "outputs")
  = forEachItems (ps !! "outputs").
Proof.
  rewrite fill_lookup_ne, fill_lookup_eq by done.
  by destruct (ps !! "outputs") as [[]|].
Qed.

Lemma renderCell_fill (c : json) (html : string) :
  renderCell (fill_cell c) html = renderCell c html.
Proof.
  unfold renderCell. rewrite fill_cell_type.
  destruct c as [| | | | |ps]; try done. simpl.
  destruct (interpolate (ps !! "cell_type")) as [cls| |]; simpl; try done.
  destruct (fill_source ps) as [Hmd Hcode]. simpl in Hmd, Hcode.
  destruct (is_string "markdown" (ps !! "cell_type")).
  { f_equal.
    destruct (joined (fill _ _ _ !! "source")) as [t1| |],
             (joined (ps !! "source")) as [t2| |]; simpl in *; try done.
    by rewrite Hmd. }
  destruct (is_string "code" (ps !! "cell_type")); [|done].
  rewrite fill_outputs. f_equal.
  destruct (joined (fill _ _ _ !! "source")) as [t1| |],
           (joined (ps !! "source")) as [t2| |]; simpl in *; try done.
  by injection Hcode as ->.
Qed.

Lemma cellsLoop_fill (cells : list json) (html : string) :
  cellsLoop (fill_cell <$> cells) html = cellsLoop cells html.
Proof.
  revert html. induction cells as [|c cells IH]; intros html; [done|].
  simpl. rewrite renderCell_fill.
  destruct (renderCell c html); simpl; [apply IH|done..].
Qed.

Lemma previewLoop_fill (cells : list json) (shown : nat) (html : string) :
  previewLoop (fill_cell <$> cells) shown html = previewLoop cells shown html.
Proof.
  revert shown html. induction cells as [|c cells IH]; intros shown html; [done|].
  cbn [fmap list_fmap previewLoop].
  destruct (NOTEBOOK_PREVIEW_CELLS <=? shown)%nat; [done|].
  rewrite fill_cell_type.
  destruct c as [| | | | |ps]; try done; try apply IH.
  simpl.
  destruct (fill_source ps) as [Hmd Hcode]. simpl in Hmd, Hcode.
  destruct (is_string "markdown" (ps !! "cell_type")).
  { destruct (joined (fill _ _ _ !! "source")) as [t1| |],
             (joined (ps !! "source")) as [t2| |]; simpl in *; try done.
    rewrite Hmd. destruct (renderMarkdown t2); simpl; [apply IH|done..]. }
  destruct (is_string "code" (ps !! "cell_type")); [|apply IH].
  destruct (joined (fill _ _ _ !! "source")) as [t1| |],
           (joined (ps !! "source")) as [t2| |]; simpl in *; try done.
  injection Hcode as ->.
  destruct (or_empty t2) as [[]|]; first [done | apply IH].
Qed.

Lemma renderers_fill (nb : json) :
  renderNotebookPreview (fill_notebook nb) = renderNotebookPreview nb
  ∧ renderFullNotebook (fill_notebook nb) = renderFullNotebook nb.
Proof.
  destruct nb as [| | | | |ps]; try done.
  unfold fill_notebook, renderNotebookPreview, renderFullNotebook. simpl.
  destruct (ps !! "cells") as [[| | | |cells|]|] eqn:E; simpl;
    rewrite ?E, ?lookup_insert_eq; simpl; try done.
  split; [apply previewLoop_fill | apply cellsLoop_fill].
Qed.

(** C10 (the claim fails as stated): a parseable notebook can make both
    renderers raise; here a null among the cells, and a number as the
    source of a code cell. *)
Lemma renderers_raise_on_parseable_notebooks :
  renderNotebookPreview (notebook [JNull]) = TypeError
  ∧ renderFullNotebook (notebook [JNull]) = TypeError
  ∧ renderNotebookPreview
      (notebook [obj [("cell_type", JStr "code"); ("source", JNum false "5")]])
    = TypeError
  ∧ renderFullNotebook
      (notebook [obj [("cell_type", JStr "code"); ("source", JNum false "5")]])
    = TypeError.
Proof. repeat split; by vm_compute. Qed.

(** C10 (amended): on a notebook whose fields, where present, have the
    shapes of the notebook format, each of them possibly absent or null,
    both renderers return; and a notebook renders as the one in which
    absent or null cells are written out as the empty list, absent or
    null outputs as the empty list and an absent or null source as the
    empty text. *)
Theorem renderers_total_on_well_formed (nb : json) :
  wf_notebook nb = true →
  is_Ok (renderNotebookPreview nb) ∧ is_Ok (renderFullNotebook nb)
  ∧ renderNotebookPreview nb = renderNotebookPreview (fill_notebook nb)
  ∧ renderFullNotebook nb = renderFullNotebook (fill_notebook nb).
Proof.
  intros Hwf. destruct (renderers_total nb Hwf) as [Hp Hf].
  destruct (renderers_fill nb) as [Ep Ef]. by rewrite Ep, Ef.
Qed.

Lemma renderers_total_on_well_formed_witness :
  (is_Ok (renderNotebookPreview sparse_notebook)
   ∧ is_Ok (renderFullNotebook sparse_notebook)
   ∧ renderNotebookPreview sparse_notebook
     = renderNotebookPreview (fill_notebook sparse_notebook)
   ∧ renderFullNotebook sparse_notebook
     = renderFullNotebook (fill_notebook sparse_notebook))
  ∧ (is_Ok (renderNotebookPreview null_fields_notebook)
     ∧ is_Ok (renderFullNotebook null_fields_notebook)
     ∧ renderNotebookPreview null_fields_notebook
       = renderNotebookPreview (fill_notebook null_fields_notebook)
     ∧ renderFullNotebook null_fields_notebook
       = renderFullNotebook (fill_notebook null_fields_notebook))
  ∧ (is_Ok (renderNotebookPreview null_cells_notebook)
     ∧ is_Ok (renderFullNotebook null_cells_notebook)
     ∧ renderNotebookPreview null_cells_notebook
       = renderNotebookPreview (fill_notebook null_cells_notebook)
     ∧ renderFullNotebook null_cells_notebook
       = renderFullNotebook (fill_notebook null_cells_notebook))
  ∧ renderNotebookPreview bare_notebook = Ok EmptyString
  ∧ renderFullNotebook bare_notebook = Ok EmptyString
  ∧ renderFullNotebook sparse_notebook
    = Ok (div_open "code" +:+ code_open +:+ code_close +:+ "</div>"
          +:+ div_open "markdown" +:+ "</div>")
  ∧ renderFullNotebook null_fields_notebook
    = Ok (div_open "null" +:+ "</div>"
          +:+ div_open "code" +:+ code_open +:+ code_close +:+ "</div>")
  ∧ renderNotebookPreview null_fields_notebook
    = Ok (code_open +:+ code_close).
Proof.
  split; [apply (renderers_total_on_well_formed sparse_notebook); by vm_compute|].
  split; [apply (renderers_total_on_well_formed null_fields_notebook);
          by vm_compute|].
  split; [apply (renderers_total_on_well_formed null_cells_notebook);
          by vm_compute|].
  repeat split; by vm_compute.
Defined.

(** ** Normalisation of paths *)

Lemma replace_from_prev (m : matcher) (p q : option ascii) (s : string) :
  prev_free m → replace_from m p 0 s = replace_from m q 0 s.
Proof. intros Hm. destruct s as [|c r]; [done|]. simpl. by rewrite (Hm p q). Qed.

(** Skipping the rest of a match is dropping it. *)
Lemma replace_from_skip (m : matcher) (k : nat) (s : string) (p : option ascii) :
  prev_free m → replace_from m p k s = replace_all m (Str.drop k s).
Proof.
  intros Hm. revert k p. induction s as [|c r IH]; intros k p.
  - by destruct k.
  - destruct k as [|k]; [by apply replace_from_prev|]. simpl. apply IH.
Qed.

Lemma backslash_run_prev_free : prev_free backslash_run.
Proof. done. Qed.

Lemma backslash_one_prev_free : prev_free backslash_one.
Proof. done. Qed.

Lemma backslash_one_cons (c : ascii) (r : string) :
  replace_all backslash_one (String c r) =
  String (if is_backslash c then "/"%char else c) (replace_all backslash_one r).
Proof.
  unfold replace_all. simpl.
  destruct (is_backslash c); simpl;
    by rewrite (replace_from_prev _ (Some c) None).
Qed.

Lemma backslash_one_slash (r : string) :
  replace_all backslash_one (String "/" r)
  = String "/" (replace_all backslash_one r).
Proof. by rewrite backslash_one_cons. Qed.

Lemma length_drop_le (k : nat) (s : string) :
  (String.length (Str.drop k s) ≤ String.length s)%nat.
Proof.
  revert k. induction s as [|c r IH]; intros [|k]; simpl; try lia.
  specialize (IH k). lia.
Qed.

Lemma collapse_true_drop (r : string) :
  collapse true r =
  collapse false (Str.drop (String.length (Str.take_while is_backslash r)) r).
Proof.
  induction r as [|d r IH]; [done|]. simpl.
  destruct (is_backslash d) eqn:Hd; simpl; [done|]. by rewrite Hd.
Qed.

(** The two replacements together turn every run of backslashes into one
    forward slash. *)
Lemma slashes_collapse (s : string) : slashes s = collapse false s.
Proof.
  remember (String.length s) as n eqn:Hn. revert s Hn.
  induction n as [n IH] using lt_wf_ind. intros [|c r] Hn; [done|].
  simpl in Hn. unfold slashes, replace_all at 2. simpl.
  unfold backslash_run at 1. simpl.
  destruct (is_backslash c) eqn:Hc; simpl.
  - destruct (Str.take_while is_backslash r) as [|d run] eqn:Hrun; simpl.
    + rewrite backslash_one_cons, Hc.
      rewrite (replace_from_prev _ (Some c) None) by done.
      fold (replace_all backslash_run r). fold (slashes r).
      rewrite (IH (String.length r)) by (done || lia).
      rewrite collapse_true_drop, Hrun. done.
    + rewrite append_cons, append_nil_l.
      rewrite replace_from_skip by done.
      rewrite backslash_one_slash.
      fold (slashes (Str.drop (S (String.length run)) r)).
      rewrite (IH (String.length (Str.drop (S (String.length run)) r)));
        [|pose proof (length_drop_le (S (String.length run)) r); lia|done].
      by rewrite collapse_true_drop, Hrun.
  - rewrite backslash_one_cons, Hc.
    rewrite (replace_from_prev _ (Some c) None) by done.
    fold (replace_all backslash_run r). fold (slashes r).
    by rewrite (IH (String.length r)) by (done || lia).
Qed.

Lemma collapse_no_backslash (b : bool) (s : string) :
  some_char is_backslash (collapse b s) = false.
Proof.
  revert b. induction s as [|c r IH]; intros b; [done|]. simpl.
  destruct (is_backslash c) eqn:Hc; [destruct b|]; simpl; rewrite ?Hc; by rewrite ?IH.
Qed.

Lemma collapse_id (s : string) :
  some_char is_backslash s = false → ∀ b, collapse b s = s.
Proof.
  induction s as [|c r IH]; [done|]. simpl.
  intros [Hc Hr]%orb_false_iff b. rewrite Hc. by rewrite IH.
Qed.

(** Normalising a normalised path changes nothing. *)
Lemma slashes_idempotent (s : string) : slashes (slashes s) = slashes s.
Proof.
  rewrite !slashes_collapse. apply collapse_id, collapse_no_backslash.
Qed.

Lemma collapse_segment_char (b : bool) (s : string) :
  some_char segment_char s = true → some_char segment_char (collapse b s) = true.
Proof.
  revert b. induction s as [|c r IH]; intros b; [done|]. simpl.
  unfold segment_char at 1.
  destruct (is_backslash c) eqn:Hc.
  - rewrite orb_true_r. simpl. intros H. destruct b; simpl; by rewrite ?IH.
  - intros H. simpl. unfold segment_char at 1. rewrite Hc.
    apply orb_true_iff in H as [H|H]; [by rewrite H|].
    rewrite (IH false H). apply orb_true_r.
Qed.

(** C3 (amended): the picker-derived hint is preferred, then the
    traversal-derived one, each with every run of backslashes turned into
    one forward slash; without a hint the path is the bare name. *)
Theorem hint_preference (f : File) :
  normalizeFilePath f =
    match webkitRelativePath f, fullPath f with
    | Some (String c w), _ => collapse false (String c w)
    | _, Some (String c p) => collapse false (String c p)
    | _, _ => name f
    end.
Proof.
  rewrite hint_order.
  destruct f as [n [[|c w]|] [[|d p]|]]; simpl; by rewrite ?slashes_collapse.
Qed.

(** ** Canonical paths *)

Lemma split_at_pieces (s : string) :
  some_char (λ c, negb (c =? "/")%char) s = true →
  ∃ piece, piece ∈ Str.split "/" s ∧ Str.nonempty piece = true.
Proof.
  unfold Str.split. induction s as [|c r IH]; [done|]. simpl.
  destruct (Str.split_at "/" r) as [hd tl].
  destruct (Ascii.eqb_spec c "/") as [->|Hc]; simpl.
  - intros (piece & Hin & Hne)%IH. exists piece. split; [|done].
    apply elem_of_cons. by right.
  - intros _. exists (String c hd). split; [|done]. apply elem_of_cons. by left.
Qed.

Lemma path_parts_nonempty (s : string) :
  some_char (λ c, negb (c =? "/")%char) s = true → path_parts s ≠ [].
Proof.
  intros (piece & Hin & Hne)%split_at_pieces Hnil.
  assert (piece ∈ path_parts s) as Hp by by apply list_elem_of_filter.
  rewrite Hnil in Hp. by apply elem_of_nil in Hp.
Qed.

Lemma split_at_no_sep (s : string) :
  Str.mem "/" s = false → Str.split_at "/" s = (s, []).
Proof.
  induction s as [|c r IH]; [done|]. intros H.
  change (Str.mem "/" (String c r))
    with (("/" =? c)%char || Str.mem "/" r) in H.
  apply orb_false_iff in H as [Hc Hr].
  cbn [Str.split_at]. rewrite (IH Hr).
  destruct (Ascii.eqb_spec c "/") as [->|]; [|done].
  by rewrite Ascii.eqb_refl in Hc.
Qed.

(** A name without a slash is its own single segment. *)
Lemma path_parts_name (s : string) :
  Str.mem "/" s = false → s ≠ EmptyString → path_parts s = [s].
Proof.
  intros Hs Hne. unfold path_parts, Str.split. rewrite split_at_no_sep by done.
  rewrite filter_cons, filter_nil. destruct s; [done|].
  by rewrite decide_True.
Qed.

Lemma some_char_weaken (p q : ascii → bool) (s : string) :
  (∀ c, p c = true → q c = true) → some_char p s = true → some_char q s = true.
Proof.
  intros Hpq. induction s as [|c r IH]; [done|]. simpl.
  intros [H|H]%orb_true_iff; [by rewrite (Hpq c H)|].
  rewrite (IH H). apply orb_true_r.
Qed.

Lemma segment_char_not_slash (c : ascii) :
  segment_char c = true → negb (c =? "/")%char = true.
Proof.
  unfold segment_char. rewrite !negb_true_iff. by intros [? _]%orb_false_iff.
Qed.

(** A path source with a character that is no separator gives at least
    one segment. *)
Lemma canonical_nonempty (f : File) :
  some_char segment_char (path_source f) = true →
  path_parts (normalizeFilePath f) ≠ [].
Proof.
  unfold path_source, normalizeFilePath.
  destruct (Str.nonempty (hint f)); simpl; intros H;
    apply path_parts_nonempty;
    apply (some_char_weaken segment_char _ _ segment_char_not_slash);
    [|done].
  rewrite slashes_collapse. by apply collapse_segment_char.
Qed.

(** ** The tree builder on admissible inputs *)

Lemma shaped_empty : shaped (Obj ∅).
Proof. constructor; intros *; by rewrite ?lookup_empty. Qed.

Lemma list_at_empty (d : list string) : list_at (Obj ∅) d = [].
Proof. unfold list_at, files_of. destruct d; simpl; by rewrite lookup_empty. Qed.

Lemma list_at_array (es : list ref) (d : list string) : list_at (Arr es ∅) d = [].
Proof. unfold list_at, files_of. destruct d; simpl; by rewrite lookup_empty. Qed.

Lemma list_at_cons (ps : gmap string node) (p : string) (d : list string) :
  list_at (Obj ps) (p :: d) = from_option (λ c, list_at c d) [] (ps !! p).
Proof. unfold list_at. simpl. by destruct (ps !! p). Qed.

Lemma safe_segment_spec (seg : string) :
  safe_segment seg = true → seg ≠ "files" ∧ inherited seg = false.
Proof.
  unfold safe_segment. intros [H1 H2]%andb_true_iff.
  apply negb_true_iff in H1, H2. by apply bool_decide_eq_false in H1.
Qed.

Lemma place_last (f : ref) (part : string) (n : node) :
  place f [part] n =
  (fs ← get n "files";
   entries ← push (default (Arr [] ∅) fs) f;
   Ok (set n "files" entries)).
Proof. done. Qed.

Lemma place_folder (f : ref) (part part2 : string) (rest : list string) (n : node) :
  place f (part :: part2 :: rest) n =
  (c ← get n part;
   child ← place f (part2 :: rest) (default (Obj ∅) c);
   Ok (set n part child)).
Proof. done. Qed.

(** Placing one file in a shaped tree: the walk succeeds, the tree stays
    shaped, and the file is appended to the list of its folder and to no
    other. *)
Lemma place_shaped (f : ref) (parts : list string) :
  parts ≠ [] → forallb safe_segment (folders parts) = true →
  ∀ n, shaped n →
  ∃ n', place f parts n = Ok n' ∧ shaped n' ∧
        ∀ d, list_at n' d =
             (list_at n d
              ++ if bool_decide (d = folders parts) then [f] else [])%list.
Proof.
  induction parts as [|part rest IH]; [done|]. intros _ Hsafe n Hn.
  destruct Hn as [ps Hfiles Hsub]. destruct rest as [|part2 rest].
  - (* the last part *)
    rewrite place_last.
    assert (∃ es, default (Arr [] ∅) (ps !! "files") = Arr es ∅
                  ∧ list_at (Obj ps) [] = es
                  ∧ get (Obj ps) "files" = Ok (ps !! "files")) as (es & Hes & Hat & Hget).
    { unfold get, list_at, files_of. cbn [props_of descend mbind option_bind].
      destruct (ps !! "files") as [v|] eqn:E.
      - destruct (Hfiles v eq_refl) as [es ->]. by exists es.
      - by exists []. }
    rewrite Hget. simpl. rewrite Hes. simpl. eexists. split; [done|]. split.
    + constructor.
      * intros v. rewrite lookup_insert_eq. intros [= <-]. by eexists.
      * intros k v Hk. rewrite lookup_insert_ne by done. by apply Hsub.
    + intros [|p d].
      * rewrite Hat. unfold list_at, files_of. simpl.
        by rewrite lookup_insert_eq.
      * rewrite bool_decide_eq_false_2 by done. rewrite app_nil_r.
        rewrite !list_at_cons.
        destruct (decide (p = "files")) as [->|Hp].
        -- rewrite lookup_insert_eq. simpl. rewrite list_at_array.
           destruct (ps !! "files") as [v|] eqn:E; [|done].
           destruct (Hfiles v eq_refl) as [es' ->]. simpl.
           by rewrite list_at_array.
        -- by rewrite lookup_insert_ne.
  - (* a folder *)
    change (folders (part :: part2 :: rest))
      with (part :: folders (part2 :: rest)) in *.
    cbn [forallb] in Hsafe. apply andb_true_iff in Hsafe as [Hpart Hrest].
    apply safe_segment_spec in Hpart as [Hne Hinh].
    assert (get (Obj ps) part = Ok (ps !! part)) as Hget.
    { unfold get. cbn [props_of]. destruct (ps !! part); [done|]. by rewrite Hinh. }
    assert (shaped (default (Obj ∅) (ps !! part))) as Hchild.
    { destruct (ps !! part) as [v|] eqn:E; simpl; [by eapply Hsub|].
      apply shaped_empty. }
    destruct (IH ltac:(done) Hrest _ Hchild) as (child' & Hplace & Hshaped & Hlist).
    rewrite place_folder, Hget. cbn [mbind outcome_bind]. rewrite Hplace.
    eexists. split; [done|]. split.
    + constructor.
      * intros v. rewrite lookup_insert_ne by done. apply Hfiles.
      * intros k v Hk. destruct (decide (k = part)) as [->|Hkp].
        -- rewrite lookup_insert_eq. by intros [= <-].
        -- rewrite lookup_insert_ne by done. by apply Hsub.
    + intros [|p d].
      * rewrite bool_decide_eq_false_2 by done. rewrite app_nil_r.
        unfold list_at, files_of. simpl. by rewrite lookup_insert_ne.
      * cbn [set]. rewrite !list_at_cons.
        destruct (decide (p = part)) as [->|Hp].
        -- rewrite lookup_insert_eq. simpl. rewrite Hlist.
           f_equal.
           ++ destruct (ps !! part); simpl; [done|]. by rewrite list_at_empty.
           ++ destruct (decide (d = folders (part2 :: rest))) as [->|Hd].
              ** by rewrite !bool_decide_eq_true_2.
              ** rewrite (bool_decide_eq_false_2 (d = _)) by done.
                 by rewrite bool_decide_eq_false_2 by (by intros [= ?]).
        -- rewrite lookup_insert_ne by done.
           rewrite bool_decide_eq_false_2 by congruence. by rewrite app_nil_r.
Qed.

Lemma admissible_spec (f : File) :
  admissible f = true →
  path_parts (normalizeFilePath f) ≠ []
  ∧ forallb safe_segment (folders (path_parts (normalizeFilePath f))) = true
  ∧ stable f = true.
Proof.
  unfold admissible. intros [[H1 H2]%andb_true_iff H3]%andb_true_iff.
  apply negb_true_iff, bool_decide_eq_false in H1. done.
Qed.

(** Writing the normalised path back does not change what a stable file
    normalises to. *)
Lemma normalize_written_back (f : File) :
  stable f = true → normalizeFilePath f ≠ EmptyString →
  normalizeFilePath (set_fullPath (normalizeFilePath f) f) = normalizeFilePath f.
Proof.
  unfold stable. rewrite !hint_order.
  assert (∀ n, negb (some_char is_backslash n) = true → n ≠ EmptyString →
               match n with
               | EmptyString => n
               | String c p => slashes (String c p)
               end = n) as Hname.
  { intros [|e n] Hn Hne; [done|]. apply negb_true_iff in Hn.
    by rewrite slashes_collapse, collapse_id. }
  assert (∀ n q, slashes q ≠ EmptyString →
                 match slashes q with
                 | EmptyString => n
                 | String c p => slashes (String c p)
                 end = slashes q) as Hhint.
  { intros n q Hne. pose proof (slashes_idempotent q) as Hq.
    by destruct (slashes q). }
  destruct f as [n wrp fp]; simpl.
  destruct wrp as [[|c w]|]; [| done |];
    (destruct fp as [[|d p]|]; simpl;
     [ apply Hname | intros _; apply Hhint | apply Hname ]).
Qed.

Lemma stable_written_back (f : File) (p : string) :
  p ≠ EmptyString → stable (set_fullPath p f) = true.
Proof.
  intros Hp. unfold stable, hint. destruct f as [n [[|c w]|] fp]; simpl;
    by destruct p.
Qed.

Lemma in_folder_cons (σ : store) (d : list string) (f : ref) (files : list ref) :
  in_folder σ d (f :: files) =
  ((if bool_decide (d = folders (canonical σ f)) then [f] else [])
   ++ in_folder σ d files)%list.
Proof.
  unfold in_folder. rewrite filter_cons.
  destruct (decide (folders (canonical σ f) = d)) as [<-|Hne].
  - by rewrite bool_decide_eq_true_2.
  - by rewrite bool_decide_eq_false_2.
Qed.

Lemma in_folder_ext (σ σ' : store) (d : list string) (files : list ref) :
  (∀ g, canonical σ' g = canonical σ g) →
  in_folder σ' d files = in_folder σ d files.
Proof.
  intros Hc. unfold in_folder. apply list_filter_iff. intros g.
  by rewrite Hc.
Qed.

(** The loop over the files on an admissible input: it returns, the tree
    stays shaped, and every folder list grows by the files of the input
    that belong to it, in input order. *)
Lemma buildLoop_shaped (files : list ref) :
  ∀ (σ : store) (tree : node),
    shaped tree →
    (∀ f, f ∈ files → admissible (σ f) = true) →
    ∃ σ' tree', buildLoop files σ tree = Ok (σ', tree') ∧ shaped tree' ∧
      ∀ d, list_at tree' d = (list_at tree d ++ in_folder σ d files)%list.
Proof.
  induction files as [|f files IH]; intros σ tree Htree Hadm.
  - exists σ, tree. repeat split; [done|]. intros d.
    unfold in_folder. by rewrite filter_nil, app_nil_r.
  - destruct (admissible_spec (σ f)) as (Hparts & Hsafe & Hstable);
      [apply Hadm, elem_of_cons; by left|].
    destruct (place_shaped f _ Hparts Hsafe tree Htree)
      as (tree1 & Hplace & Htree1 & Hlist1).
    cbn [buildLoop]. rewrite Hplace. cbn [mbind outcome_bind].
    set (σ1 := <[f := set_fullPath (normalizeFilePath (σ f)) (σ f)]> σ).
    assert (normalizeFilePath (σ f) ≠ EmptyString) as Hne.
    { intros E. by rewrite E in Hparts. }
    assert (∀ g, canonical σ1 g = canonical σ g) as Hcanon.
    { intros g. unfold canonical, σ1. destruct (decide (g = f)) as [->|Hg].
      - by rewrite fn_lookup_insert, normalize_written_back.
      - by rewrite fn_lookup_insert_ne. }
    destruct (IH σ1 tree1 Htree1) as (σ' & tree' & Hloop & Htree' & Hlist).
    { intros g Hg. specialize (Hcanon g). unfold canonical in Hcanon.
      unfold admissible. rewrite Hcanon.
      destruct (decide (g = f)) as [->|Hgf].
      - unfold σ1. rewrite fn_lookup_insert.
        rewrite stable_written_back by done.
        rewrite bool_decide_eq_false_2 by done. simpl.
        by rewrite Hsafe.
      - unfold σ1. rewrite fn_lookup_insert_ne by done.
        apply Hadm. apply elem_of_cons. by right. }
    exists σ', tree'. split; [done|]. split; [done|]. intros d.
    rewrite Hlist, Hlist1, in_folder_cons, (in_folder_ext σ σ1) by done.
    by rewrite <- app_assoc.
Qed.

Lemma occurrences_filter (P : ref → Prop) `{∀ g, Decision (P g)}
    (f : ref) (l : list ref) :
  P f → occurrences f (filter P l) = occurrences f l.
Proof.
  intros Hf. unfold occurrences. induction l as [|g l IH]; [done|].
  rewrite !filter_cons. destruct (decide (P g)) as [Hg|Hg].
  - rewrite filter_cons. destruct (decide (g = f)); simpl; by rewrite IH.
  - destruct (decide (g = f)) as [->|]; [done|]. apply IH.
Qed.

Lemma occurrences_elem_of (f : ref) (l : list ref) :
  f ∈ l → (0 < occurrences f l)%nat.
Proof.
  unfold occurrences. intros Hf.
  assert (f ∈ filter (λ g, g = f) l) as H by by apply list_elem_of_filter.
  destruct (filter _ l); [by apply elem_of_nil in H | simpl; lia].
Qed.

(** What [buildTree] returns on an admissible input. *)
Lemma buildTree_admissible (σ : store) (files : list ref) :
  (∀ f, f ∈ files → admissible (σ f) = true) →
  ∃ σ' tree, buildTree σ files = Ok (σ', tree) ∧
    ∀ f, f ∈ files →
      files_at tree (canonical σ f)
      = Some (in_folder σ (folders (canonical σ f)) files).
Proof.
  intros Hadm.
  destruct (buildLoop_shaped files σ (Obj ∅) shaped_empty Hadm)
    as (σ' & tree & Hloop & _ & Hlist).
  exists σ', tree. split; [done|]. intros f Hf.
  specialize (Hlist (folders (canonical σ f))).
  rewrite list_at_empty in Hlist. simpl in Hlist.
  unfold list_at in Hlist. unfold files_at.
  destruct (descend tree (folders (canonical σ f)) ≫= files_of) as [es|];
    simpl in Hlist; [by rewrite Hlist|].
  assert (f ∈ in_folder σ (folders (canonical σ f)) files) as Hin
    by by apply list_elem_of_filter.
  rewrite <- Hlist in Hin. by apply elem_of_nil in Hin.
Qed.

(** C4 (the code departs from the claim): with a folder named like the
    reserved key next to a root-level file, the builder raises when the
    folder comes first, and when the file comes first the array of root
    files itself becomes the folder: it then holds a file entry and, as a
    named property, the list of the folder. *)
Theorem reserved_folder_name_breaks_the_builder :
  buildTree reserved_store [0; 1]%nat = TypeError
  ∧ snd <$> buildTree reserved_store [1; 0]%nat = Ok folder_under_reserved_name
  ∧ mixed_files folder_under_reserved_name.
Proof.
  split; [by vm_compute|]. split; [by vm_compute|].
  exists [1%nat], {[ "files" := Arr [0%nat] ∅ ]}.
  split; [by vm_compute|]. split; [done|].
  intros H. apply (f_equal (λ m, m !! "files")) in H.
  by rewrite lookup_singleton_eq, lookup_empty in H.
Qed.

(** C5 (the claim fails as stated): a hint made of a separator only
    normalises to itself, not to the bare name; it has no segment, and
    the file is not placed in the tree. *)
Lemma separators_only_hint_has_no_segment :
  normalizeFilePath (separators_store 0%nat) = "/"
  ∧ canonical separators_store 0%nat = []
  ∧ snd <$> buildTree separators_store [0%nat] = Ok (Obj ∅).
Proof. repeat split; by vm_compute. Qed.

(** Why the files are asked to be stable: an object without hints whose
    name holds backslashes has a segment and no unsafe folder name, and
    so have the files next to it; given once it is placed at the root,
    but given twice it comes back with the path the first visit wrote,
    and the builder raises. *)
Example unstable_object_given_twice :
  forallb (λ f, negb (bool_decide (canonical unstable_store f = []))
                && forallb safe_segment (folders (canonical unstable_store f)))
    [0; 0; 1; 2]%nat = true
  ∧ stable (unstable_store 0%nat) = false
  ∧ buildTree unstable_store [0; 0; 1; 2]%nat = TypeError
  ∧ is_Ok (buildTree unstable_store [0; 1; 2]%nat).
Proof.
  split; [by vm_compute|]. split; [by vm_compute|]. split; [by vm_compute|].
  destruct (buildTree unstable_store [0; 1; 2]%nat) as [r| |] eqn:E;
    [by eexists | by vm_compute in E..].
Qed.

(** C5 (amended): a path source with a character that is no separator
    gives at least one segment; a file without hints normalises to its
    bare name, which, when it is not empty and holds no slash, is its
    only segment; and on an input of admissible files (each with a
    segment, with safe folder names, and with a hint or a name without
    backslash) such a file is an entry of the root list of the built
    tree. *)
Theorem canonical_segments_and_root_entries :
  (∀ f : File,
     some_char segment_char (path_source f) = true →
     path_parts (normalizeFilePath f) ≠ [])
  ∧ (∀ f : File,
       hint f = EmptyString →
       normalizeFilePath f = name f
       ∧ (name f ≠ EmptyString → Str.mem "/" (name f) = false →
          path_parts (normalizeFilePath f) = [name f]))
  ∧ (∀ (σ : store) (files : list ref) (f : ref),
       (∀ g, g ∈ files → admissible (σ g) = true) →
       f ∈ files →
       hint (σ f) = EmptyString →
       Str.mem "/" (name (σ f)) = false →
       normalizeFilePath (σ f) = name (σ f)
       ∧ canonical σ f = [name (σ f)]
       ∧ ∃ σ' tree es,
           buildTree σ files = Ok (σ', tree)
           ∧ files_of tree = Some es ∧ f ∈ es).
Proof.
  split; [apply canonical_nonempty|].
  assert (∀ f : File, hint f = EmptyString → normalizeFilePath f = name f)
    as Hbare.
  { intros f Hhint. unfold normalizeFilePath. by rewrite Hhint. }
  split.
  { intros f Hhint. split; [by apply Hbare|]. intros Hne Hname.
    rewrite (Hbare f Hhint). by apply path_parts_name. }
  intros σ files f Hadm Hf Hhint Hname.
  pose proof (Hbare _ Hhint) as Hnorm.
  assert (canonical σ f = [name (σ f)]) as Hcanon.
  { unfold canonical. rewrite Hnorm. apply path_parts_name; [done|].
    intros E. destruct (admissible_spec _ (Hadm f Hf)) as (Hparts & _).
    by rewrite Hnorm, E in Hparts. }
  split; [done|]. split; [done|].
  destruct (buildTree_admissible σ files Hadm) as (σ' & tree & Hbuild & Hat).
  specialize (Hat f Hf). rewrite Hcanon in Hat. unfold files_at in Hat.
  simpl in Hat. eexists σ', tree, _. split; [done|]. split; [exact Hat|].
  apply list_elem_of_filter. split; [|done]. by rewrite Hcanon.
Qed.

Lemma all_admissible (σ : store) (files : list ref) :
  forallb (λ f, admissible (σ f)) files = true →
  ∀ g, g ∈ files → admissible (σ g) = true.
Proof.
  rewrite forallb_forall. intros H g Hg. by apply H, list_elem_of_In.
Qed.

Lemma canonical_segments_and_root_entries_witness :
  path_parts (normalizeFilePath (picked "a\b/x.py" "x.py")) ≠ []
  ∧ path_parts (normalizeFilePath (mkFile "z.py" None None)) = ["z.py"]
  ∧ ∃ σ' tree es,
      buildTree scenario_store [0; 1; 2]%nat = Ok (σ', tree)
      ∧ files_of tree = Some es ∧ 2%nat ∈ es.
Proof.
  destruct canonical_segments_and_root_entries as (Hseg & Hbare & Hroot).
  split; [|split].
  - apply Hseg. by vm_compute.
  - by apply (Hbare (mkFile "z.py" None None)).
  - apply (Hroot scenario_store [0; 1; 2]%nat 2%nat).
    + apply all_admissible. by vm_compute.
    + apply list_elem_of_In. simpl. tauto.
    + by vm_compute.
    + by vm_compute.
Defined.

(** C6 (the claim fails as stated): with a folder named like the reserved
    key the builder returns no tree; a file whose hint is a separator is
    in no list; and an object without hints whose name holds a backslash,
    given twice, is placed once at the root and once in a folder. *)
Lemma files_not_always_reachable :
  buildTree reserved_store [0; 1]%nat = TypeError
  ∧ (snd <$> buildTree separators_store [0%nat] = Ok (Obj ∅)
     ∧ files_at (Obj ∅) (canonical separators_store 0%nat) = None)
  ∧ (snd <$> buildTree twice_store [0; 0]%nat = Ok split_twice
     ∧ files_at split_twice (canonical twice_store 0%nat) = Some [0%nat]
     ∧ occurrences 0%nat [0; 0]%nat = 2%nat).
Proof. repeat split; by vm_compute. Qed.

(** C6 (amended): on an input of admissible files the builder returns a
    tree in which walking a file's canonical path reaches the list of
    the files of the input that share its folder, in input order; the
    file is in it as often as it occurs in the input. *)
Theorem built_tree_holds_every_file (σ : store) (files : list ref) :
  (∀ f, f ∈ files → admissible (σ f) = true) →
  ∃ σ' tree,
    buildTree σ files = Ok (σ', tree)
    ∧ ∀ f, f ∈ files →
        ∃ es, files_at tree (canonical σ f) = Some es
              ∧ es = in_folder σ (folders (canonical σ f)) files
              ∧ occurrences f es = occurrences f files
              ∧ (0 < occurrences f es)%nat.
Proof.
  intros Hadm.
  destruct (buildTree_admissible σ files Hadm) as (σ' & tree & Hbuild & Hat).
  exists σ', tree. split; [done|]. intros f Hf.
  eexists. split; [by apply Hat|]. split; [done|].
  assert (occurrences f (in_folder σ (folders (canonical σ f)) files)
          = occurrences f files) as Hocc
    by by apply (occurrences_filter (λ g, folders (canonical σ g) = _)).
  split; [done|]. rewrite Hocc. by apply occurrences_elem_of.
Qed.

Lemma built_tree_holds_every_file_witness :
  ∃ σ' tree,
    buildTree shared_store shared_input = Ok (σ', tree)
    ∧ ∀ f, f ∈ shared_input →
        ∃ es, files_at tree (canonical shared_store f) = Some es
              ∧ es = in_folder shared_store
                       (folders (canonical shared_store f)) shared_input
              ∧ occurrences f es = occurrences f shared_input
              ∧ (0 < occurrences f es)%nat.
Proof.
  apply (built_tree_holds_every_file shared_store shared_input).
  apply all_admissible. by vm_compute.
Defined.

(** ** Breadcrumbs *)

Section NavigatorFacts.

Context {value : Type}.
Variable read : value → string → option value.

Lemma resolveLoop_resolved (root : value) (sliced rest : list string)
    (node n : value) :
  resolve read node rest = Some n →
  resolveLoop read root sliced rest node = (sliced, n, []).
Proof.
  revert node. induction rest as [|p rest IH]; intros node; simpl.
  - by intros [= ->].
  - destruct (read node p) as [child|]; simpl; [apply IH|done].
Qed.

Lemma resolveLoop_missing (root : value) (sliced rest : list string)
    (node : value) :
  resolve read node rest = None →
  ∃ p, first_missing read node rest = Some p ∧ p ∈ rest
       ∧ resolveLoop read root sliced rest node = ([], root, [Warn p sliced]).
Proof.
  revert node. induction rest as [|p rest IH]; intros node; simpl; [done|].
  destruct (read node p) as [child|]; simpl.
  - intros (q & Hq & Hin & Hloop)%IH. exists q.
    split; [done|]. split; [|done]. apply elem_of_cons. by right.
  - intros _. exists p. split; [done|]. split; [|done].
    apply elem_of_cons. by left.
Qed.

(** The handler of the later revision does what is asked of it:
    selecting the breadcrumb of index [i] keeps the first [i+1] segments
    of the path and resolves them from the root one by one.  When they
    all resolve, they become the path and the node reached is shown;
    when one does not, the path becomes empty, the root is shown and one
    warning naming the segment is logged.  The handler is a total
    function: it always returns a session and a node. *)
Theorem breadcrumb_resolves_or_falls_back (i : nat) (st : session) :
  let sliced := take (S i) (currentPath st) in
  let st' := (jumpToBreadcrumb read i st).1 in
  let shown := (jumpToBreadcrumb read i st).2 in
  folderStructure st' = folderStructure st
  ∧ match resolve read (folderStructure st) sliced with
    | Some n =>
        currentPath st' = sliced ∧ shown = n ∧ console st' = console st
    | None =>
        currentPath st' = [] ∧ shown = folderStructure st
        ∧ ∃ p, first_missing read (folderStructure st) sliced = Some p
               ∧ p ∈ sliced
               ∧ console st' = (console st ++ [Warn p sliced])%list
    end.
Proof.
  intros sliced st' shown. subst st' shown. unfold jumpToBreadcrumb.
  fold sliced.
  destruct (resolve read (folderStructure st) sliced) as [n|] eqn:E.
  - rewrite (resolveLoop_resolved _ _ _ _ n E). simpl.
    by rewrite app_nil_r.
  - destruct (resolveLoop_missing (folderStructure st) sliced sliced _ E)
      as (p & Hp & Hin & ->). simpl. eauto 10.
Qed.

(** The segments kept are those of the old path. *)
Lemma breadcrumb_truncates (i : nat) (path : list string) :
  (i < List.length path)%nat →
  List.length (take (S i) path) = S i
  ∧ ∀ k, (k ≤ i)%nat → take (S i) path !! k = path !! k.
Proof.
  intros Hi. split; [rewrite length_take; lia|].
  intros k Hk. apply lookup_take_lt. lia.
Qed.

(** The earlier revision raises where the guarded loop falls back:
    after a segment that is missing, the next read is on undefined. *)
Lemma unguarded_raises (node : value) (p q : string) (rest : list string) :
  read node p = None →
  unguardedLoop read (p :: q :: rest) (Some node) = TypeError.
Proof. intros H. simpl. by rewrite H. Qed.

End NavigatorFacts.

(** The handler on the tree of the end-to-end scenario. *)
Example breadcrumbs_on_scenario_tree :
  jumpToBreadcrumb own 0 inside_b
    = (Session scenario_tree ["a"] [],
       Obj {[ "b" := Obj {[ "files" := Arr [0%nat] ∅ ]};
              "files" := Arr [1%nat] ∅ ]})
  ∧ jumpToBreadcrumb own 2 stale
    = (Session scenario_tree [] [Warn "gone" ["a"; "gone"; "b"]], scenario_tree)
  ∧ snd <$> buildTree scenario_store [0; 1; 2]%nat = Ok scenario_tree.
Proof. repeat split; by vm_compute. Qed.


(** ** The carousel *)

Lemma indexFrom_lookup (x : string) (l : list string) (i : nat) (k : Z) :
  NoDup l → l !! i = Some x → indexFrom x l k = (k + Z.of_nat i)%Z.
Proof.
  revert i k. induction l as [|y l IH]; intros i k Hnd Hi; [done|].
  apply NoDup_cons in Hnd as [Hy Hnd]. simpl.
  destruct i as [|i]; simpl in Hi.
  - injection Hi as ->. rewrite bool_decide_eq_true_2 by done. lia.
  - rewrite bool_decide_eq_false_2.
    + rewrite (IH i) by done. lia.
    + intros ->. apply Hy. by eapply list_elem_of_lookup_2.
Qed.

Lemma indexOf_lookup (x : string) (l : list string) (i : nat) :
  NoDup l → l !! i = Some x → indexOf x l = Z.of_nat i.
Proof. intros. unfold indexOf. by rewrite (indexFrom_lookup x l i). Qed.

Section ViewerFacts.

Variable JSON_parse : string → option json.

(** Loading the content touches the title, the body and the alerts
    only. *)
Lemma loadNotebookInModal_frame (m : meta) (v v' : viewer) :
  loadNotebookInModal JSON_parse m v = Ok v' →
  cardMap v' = cardMap v ∧ gallery v' = gallery v
  ∧ navigationCardIds v' = navigationCardIds v
  ∧ currentCardIndex v' = currentCardIndex v
  ∧ prevButton v' = prevButton v ∧ nextButton v' = nextButton v
  ∧ modalShown v' = modalShown v.
Proof.
  unfold loadNotebookInModal. destruct (type m).
  - destruct (JSON_parse (raw m)) as [nb|].
    + destruct (renderFullNotebook nb); simpl; [|done..].
      by intros [= <-].
    + by intros [= <-].
  - by intros [= <-].
Qed.

Lemma loadNotebookInModal_renders (m : meta) (v : viewer) :
  renders JSON_parse m → is_Ok (loadNotebookInModal JSON_parse m v).
Proof.
  unfold renders, loadNotebookInModal. destruct (type m); [|by eexists].
  destruct (JSON_parse (raw m)) as [nb|]; [|by eexists].
  intros [html ->]. by eexists.
Qed.

(** C8: opening a card captures the ids of the gallery and puts the
    cursor on the card; a previous step is offered exactly when the
    cursor is above 0 and a next step exactly when it is below the last
    position.  So the first of two or more cards has no previous and a
    next step, the last has a previous and no next step, a single card
    has neither; and stepping back from the first card or forward from
    the last changes nothing. *)
Theorem carousel_boundaries (v : viewer) (id : string) (m : meta) (i : nat) :
  let ids := getAllCardIds (gallery v) in
  cardMap v !! id = Some m →
  renders JSON_parse m →
  is_Some (prevButton v) → is_Some (nextButton v) →
  NoDup ids →
  ids !! i = Some id →
  ∃ v',
    openNotebookModal JSON_parse id v = Ok v'
    ∧ navigationCardIds v' = ids
    ∧ currentCardIndex v' = Z.of_nat i
    ∧ available (prevButton v') = bool_decide (0 < i)%nat
    ∧ available (nextButton v') = bool_decide (S i < List.length ids)%nat
    ∧ (i = 0%nat → (2 ≤ List.length ids)%nat →
       available (prevButton v') = false ∧ available (nextButton v') = true)
    ∧ (S i = List.length ids → (2 ≤ List.length ids)%nat →
       available (prevButton v') = true ∧ available (nextButton v') = false)
    ∧ (List.length ids = 1%nat →
       available (prevButton v') = false ∧ available (nextButton v') = false)
    ∧ (i = 0%nat → navigatePrevious JSON_parse v' = Ok v')
    ∧ (S i = List.length ids → navigateNext JSON_parse v' = Ok v').
Proof.
  intros ids Hmeta Hrenders [pb Hpb] [nb Hnb] Hnd Hi.
  pose proof (lookup_lt_Some _ _ _ Hi) as Hlt.
  unfold openNotebookModal. rewrite Hmeta. fold ids.
  rewrite (indexOf_lookup id ids i) by done.
  destruct (loadNotebookInModal_renders m
              (with_navigation ids (Z.of_nat i) v) Hrenders) as [v1 Hload].
  rewrite Hload. simpl.
  apply loadNotebookInModal_frame in Hload
    as (_ & _ & Hids & Hidx & Hprev & Hnext & _). simpl in *.
  eexists. split; [done|].
  unfold updateNavigationButtons. rewrite Hprev, Hnext, Hpb, Hnb, Hids, Hidx.
  simpl.
  assert ((0 <? Z.of_nat i)%Z = bool_decide (0 < i)%nat) as Eprev.
  { destruct (decide (0 < i)%nat).
    - rewrite bool_decide_eq_true_2 by done. apply Z.ltb_lt. lia.
    - rewrite bool_decide_eq_false_2 by done. apply Z.ltb_ge. lia. }
  assert ((Z.of_nat i <? Z.of_nat (List.length ids) - 1)%Z
          = bool_decide (S i < List.length ids)%nat) as Enext.
  { destruct (decide (S i < List.length ids)%nat).
    - rewrite bool_decide_eq_true_2 by done. apply Z.ltb_lt. lia.
    - rewrite bool_decide_eq_false_2 by done. apply Z.ltb_ge. lia. }
  rewrite Eprev, Enext, !negb_involutive.
  do 4 (split; [done|]).
  split; [|split; [|split; [|split]]].
  - intros -> ?. split; [done|]. by rewrite bool_decide_eq_true_2 by lia.
  - intros E ?. split.
    + by rewrite bool_decide_eq_true_2 by lia.
    + by rewrite bool_decide_eq_false_2 by lia.
  - intros E. split; by rewrite bool_decide_eq_false_2 by lia.
  - intros ->. unfold navigatePrevious. simpl. by rewrite Hidx.
  - intros E. unfold navigateNext. simpl. rewrite Hidx, Hids, Enext.
    by rewrite bool_decide_eq_false_2 by lia.
Qed.

End ViewerFacts.

Lemma carousel_boundaries_witness :
  ∃ v',
    openNotebookModal no_parse "a" three_scripts = Ok v'
    ∧ navigationCardIds v' = ["a"; "b"; "c"]
    ∧ currentCardIndex v' = 0%Z
    ∧ available (prevButton v') = false
    ∧ available (nextButton v') = true.
Proof.
  destruct (carousel_boundaries no_parse three_scripts "a"
              (Meta "a.py" "x = 1" PY) 0%nat)
    as (v' & Hopen & Hids & Hidx & Hprev & Hnext & _).
  - by vm_compute.
  - exact I.
  - by eexists.
  - by eexists.
  - apply (bool_decide_unpack _). by vm_compute.
  - done.
  - exists v'. by repeat split.
Defined.

(** * Properties of the rest of the module *)

(** ** Texts and replacement *)

Lemma length_append (a b : string) :
  String.length (a +:+ b) = (String.length a + String.length b)%nat.
Proof. induction a as [|c a IH]; [done|]. rewrite append_cons. simpl. by rewrite IH. Qed.

Lemma all_chars_app (p : ascii → bool) (a b : string) :
  all_chars p (a +:+ b) = all_chars p a && all_chars p b.
Proof.
  induction a as [|c a IH]; [done|]. rewrite append_cons. simpl.
  by rewrite IH, andb_assoc.
Qed.

Lemma all_chars_impl (p q : ascii → bool) (s : string) :
  (∀ c, p c = true → q c = true) → all_chars p s = true → all_chars q s = true.
Proof.
  intros Hpq. induction s as [|c s IH]; [done|]. simpl.
  intros [Hc Hs]%andb_true_iff. by rewrite (Hpq c Hc), IH.
Qed.

(** A pattern passes over a text on whose characters it cannot start. *)
Lemma replace_from_app_inert (m : matcher) (p : ascii → bool) (a t : string) :
  (∀ q c r, p c = true → m q (String c r) = None) →
  all_chars p a = true →
  ∀ prev, replace_from m prev 0 (a +:+ t)
          = a +:+ replace_from m (last_char prev a) 0 t.
Proof.
  intros Hm. induction a as [|c a IH]; [done|]. simpl.
  intros [Hc Ha]%andb_true_iff prev. rewrite !append_cons. simpl.
  rewrite (Hm prev c _ Hc). by rewrite IH.
Qed.

(** Skipping a matched text. *)
Lemma replace_from_skip_app (m : matcher) (x t : string) :
  ∀ prev, replace_from m prev (String.length x) (x +:+ t)
          = replace_from m (last_char prev x) 0 t.
Proof.
  induction x as [|c x IH]; intros prev.
  - simpl. by destruct t.
  - rewrite append_cons. simpl. apply IH.
Qed.

(** A match at the current position. *)
Lemma replace_from_hit (m : matcher) (mid t out : string) (prev : option ascii) :
  mid ≠ EmptyString →
  m prev (mid +:+ t) = Some (out, String.length mid) →
  replace_from m prev 0 (mid +:+ t)
  = out +:+ replace_from m (last_char prev mid) 0 t.
Proof.
  destruct mid as [|c mid]; [done|]. intros _ Hm.
  rewrite append_cons in *. simpl. rewrite Hm. simpl.
  rewrite Nat.sub_0_r. by rewrite replace_from_skip_app.
Qed.

(** No match at the current position. *)
Lemma replace_from_miss (m : matcher) (c : ascii) (t : string) (prev : option ascii) :
  m prev (String c t) = None →
  replace_from m prev 0 (String c t) = String c (replace_from m (Some c) 0 t).
Proof. intros Hm. simpl. by rewrite Hm. Qed.

(** ** escapeHtml *)

Lemma escapeHtml_app (a b : string) :
  escapeHtml (a +:+ b) = escapeHtml a +:+ escapeHtml b.
Proof.
  induction a as [|c a IH]; [done|].
  by rewrite append_cons, !escapeHtml_cons, IH, append_assoc.
Qed.

Lemma unescape_prev_free : prev_free unescape_matcher.
Proof. done. Qed.

Lemma unescape_entity (c : ascii) (e rest : string) :
  entity c = Some e →
  unescapeHtml (e +:+ rest) = String c (unescapeHtml rest).
Proof.
  unfold entity. intros He. unfold unescapeHtml, replace_all.
  repeat match type of He with
         | (if (?x =? ?y)%char then _ else _) = _ =>
             destruct (Ascii.eqb_spec x y); [subst; injection He as <-|]
         end; try done;
    rewrite !append_cons, append_nil_l; simpl;
    by rewrite (replace_from_prev _ _ None) by done.
Qed.

Lemma unescape_plain (c : ascii) (rest : string) :
  entity c = None → unescapeHtml (String c rest) = String c (unescapeHtml rest).
Proof.
  intros (Hamp & _)%entity_None. unfold unescapeHtml, replace_all.
  rewrite replace_from_miss.
  - by rewrite (replace_from_prev _ _ None) by done.
  - unfold unescape_matcher. by rewrite !starts_with_head.
Qed.

(** X1: reading the entities back undoes [escapeHtml], so escaping loses
    nothing: two texts with the same escaped form are the same text. *)
Theorem escapeHtml_round_trip (s : string) :
  unescapeHtml (escapeHtml s) = s
  ∧ ∀ t, escapeHtml t = escapeHtml s → t = s.
Proof.
  assert (∀ u, unescapeHtml (escapeHtml u) = u) as Hinv.
  { induction u as [|c u IH]; [done|]. rewrite escapeHtml_cons.
    destruct (entity c) as [e|] eqn:He; simpl.
    - by rewrite (unescape_entity c), IH.
    - by rewrite append_cons, append_nil_l, unescape_plain, IH. }
  split; [done|]. intros t Ht.
  by rewrite <- (Hinv t), Ht.
Qed.

(** X2: the escaped form holds no angle bracket and no quote, every
    ampersand in it opens one of the five entities, and escaping text
    piece by piece is escaping it as a whole. *)
Theorem escapeHtml_markup_is_inert (a b : string) :
  Escaped (escapeHtml a)
  ∧ (∀ d, Str.mem d (escapeHtml a) = true →
          d ≠ "<"%char ∧ d ≠ ">"%char ∧ d ≠ Str.dquote ∧ d ≠ "'"%char)
  ∧ escapeHtml (a +:+ b) = escapeHtml a +:+ escapeHtml b.
Proof.
  split; [apply escapeHtml_Escaped|]. split; [apply escapeHtml_no_raw|].
  apply escapeHtml_app.
Qed.

Lemma escapeHtml_length (s : string) :
  (String.length s ≤ String.length (escapeHtml s))%nat
  ∧ (String.length (escapeHtml s) = String.length s → all_chars (λ c, negb (special c)) s = true).
Proof.
  induction s as [|c s [IHle IHeq]]; [done|].
  rewrite escapeHtml_cons, length_append. unfold special. simpl.
  destruct (entity c) as [e|] eqn:He; simpl.
  - assert (2 ≤ String.length e)%nat.
    { unfold entity in He.
      repeat match type of He with
             | (if ?b then _ else _) = _ => destruct b
             end; simplify_eq; simpl; lia. }
    split; [lia|]. intros. lia.
  - split; [lia|]. intros Hlen. apply IHeq. lia.
Qed.

(** X3: [escapeHtml] returns a text as it is exactly when the text holds
    none of the five characters; otherwise the result is longer. *)
Theorem escapeHtml_fixes_plain_text_only (s : string) :
  (escapeHtml s = s ↔ all_chars (λ c, negb (special c)) s = true)
  ∧ (String.length s ≤ String.length (escapeHtml s))%nat.
Proof.
  split; [|apply escapeHtml_length]. split.
  - intros E. apply escapeHtml_length. by rewrite E.
  - induction s as [|c s IH]; [done|]. simpl. unfold special at 1.
    intros [Hc Hs]%andb_true_iff. rewrite escapeHtml_cons.
    destruct (entity c); [done|]. simpl.
    by rewrite append_cons, append_nil_l, IH.
Qed.

(** ** renderMarkdown *)

(** Appends of literal texts, brought to one shape. *)
Ltac norm_app :=
  unfold Md.wrap, Str.nl, Str.dq;
  rewrite ?append_assoc;
  repeat (rewrite append_cons || rewrite append_nil_l).

Lemma starts_with_app (p t : string) : Str.starts_with p (p +:+ t) = true.
Proof.
  induction p as [|c p IH]; [done|]. rewrite append_cons. simpl.
  by rewrite Ascii.eqb_refl, IH.
Qed.

Lemma starts_with_second (k1 k2 c : ascii) (p t : string) :
  c ≠ k2 →
  Str.starts_with (String k1 (String k2 p)) (String k1 (String c t)) = false.
Proof.
  intros H. cbn [Str.starts_with]. rewrite Ascii.eqb_refl.
  by destruct (Ascii.eqb_spec k2 c).
Qed.

Lemma drop_app_length (x t : string) : Str.drop (String.length x) (x +:+ t) = t.
Proof. induction x as [|c x IH]; [done|]. rewrite append_cons. by simpl. Qed.

Lemma take_while_app (p : ascii → bool) (x : string) (k : ascii) (t : string) :
  all_chars p x = true → p k = false →
  Str.take_while p (x +:+ String k t) = x.
Proof.
  intros Hx Hk. induction x as [|c x IH].
  - rewrite append_nil_l. simpl. by rewrite Hk.
  - simpl in Hx. apply andb_true_iff in Hx as [Hc Hx].
    rewrite append_cons. simpl. by rewrite Hc, IH.
Qed.

Lemma take_while_all (p : ascii → bool) (x : string) :
  all_chars p x = true → Str.take_while p x = x.
Proof.
  induction x as [|c x IH]; [done|]. simpl.
  intros [Hc Hx]%andb_true_iff. by rewrite Hc, IH.
Qed.

Lemma not_char_spec (k c : ascii) : not_char k c = true ↔ c ≠ k.
Proof.
  unfold not_char. rewrite negb_true_iff. by destruct (Ascii.eqb_spec c k).
Qed.

Lemma inert_not_char (c : ascii) :
  inert c = true →
  not_char "#" c = true ∧ not_char "*" c = true ∧ not_char "`" c = true
  ∧ not_char Str.newline c = true.
Proof. intros H%inert_spec. rewrite !not_char_spec. naive_solver. Qed.

(** Each pattern leaves a text alone that lacks its first character. *)
Lemma header_free (m tag s : string) :
  all_chars (not_char "#") s = true →
  ∀ prev, replace_from (Md.header (String "#" m) tag) prev 0 s = s.
Proof.
  intros Hs. apply (replace_from_inert _ (not_char "#")); [|done].
  intros prev c r Hc%not_char_spec. unfold Md.header.
  by rewrite starts_with_head, andb_false_r.
Qed.

Lemma delimited_free (m tag s : string) :
  all_chars (not_char "*") s = true →
  ∀ prev, replace_from (Md.delimited (String "*" m) tag) prev 0 s = s.
Proof.
  intros Hs. apply (replace_from_inert _ (not_char "*")); [|done].
  intros prev c r Hc%not_char_spec. unfold Md.delimited.
  by rewrite starts_with_head.
Qed.

Lemma code_span_free (s : string) :
  all_chars (not_char "`") s = true →
  ∀ prev, replace_from Md.code_span prev 0 s = s.
Proof.
  intros Hs. apply (replace_from_inert _ (not_char "`")); [|done].
  intros prev c r Hc%not_char_spec. unfold Md.code_span.
  by destruct (Ascii.eqb_spec c "`").
Qed.

Lemma blank_line_free (s : string) :
  all_chars (not_char Str.newline) s = true →
  ∀ prev, replace_from Md.blank_line prev 0 s = s.
Proof.
  intros Hs. apply (replace_from_inert _ (not_char Str.newline)); [|done].
  intros prev c r Hc%not_char_spec. unfold Md.blank_line, Str.nl.
  rewrite append_cons. by rewrite starts_with_head.
Qed.

Lemma inert_all (k : ascii) (s : string) :
  k = "#"%char ∨ k = "*"%char ∨ k = "`"%char ∨ k = Str.newline →
  all_chars inert s = true → all_chars (not_char k) s = true.
Proof.
  intros Hk. apply all_chars_impl. intros c (H1 & H2 & H3 & H4)%inert_not_char.
  by destruct Hk as [->|[->|[->| ->]]].
Qed.

(** The passes after the one that fires see markup without any of the
    characters they start on. *)
Lemma late_passes_inert (s : string) :
  all_chars inert s = true →
  replace_all Md.blank_line
    (replace_all Md.code_span
       (replace_all (Md.delimited "*" "em") s)) = s.
Proof.
  intros Hs. unfold replace_all.
  rewrite delimited_free by (apply inert_all; auto).
  rewrite code_span_free by (apply inert_all; auto).
  by rewrite blank_line_free by (apply inert_all; auto).
Qed.

Lemma wrap_inert (tag x : string) :
  all_chars inert tag = true → all_chars inert x = true →
  all_chars inert (Md.wrap tag x) = true.
Proof.
  intros Ht Hx. unfold Md.wrap. rewrite !all_chars_app, Ht, Hx. done.
Qed.

(** Without a sharp no header pattern fires. *)
Lemma convert_no_sharp (s : string) :
  all_chars (not_char "#") s = true →
  Md.convert s =
  replace_all Md.blank_line
    (replace_all Md.code_span
       (replace_all (Md.delimited "*" "em")
          (replace_all (Md.delimited "**" "strong") s))).
Proof.
  intros Hs. unfold Md.convert.
  unfold replace_all at 7. rewrite (header_free _ _ s) by done.
  unfold replace_all at 6. rewrite (header_free _ _ s) by done.
  unfold replace_all at 5. by rewrite (header_free _ _ s) by done.
Qed.

(** The lazy group stops at the first closing delimiter. *)
Lemma lazy_until_found (k : ascii) (close' x t : string) :
  all_chars Md.in_line x = true → all_chars (not_char k) x = true →
  Md.lazy_until (String k close') (x +:+ String k close' +:+ t) = Some x.
Proof.
  intros Hline Hk. induction x as [|c x IH].
  - rewrite append_nil_l. unfold Md.lazy_until.
    destruct (String k close' +:+ t) eqn:E; rewrite <- E;
      by rewrite starts_with_app.
  - simpl in Hline, Hk.
    apply andb_true_iff in Hline as [Hc Hline].
    apply andb_true_iff in Hk as [Hck Hk]. apply not_char_spec in Hck.
    rewrite append_cons. cbn [Md.lazy_until].
    rewrite starts_with_head by done.
    unfold Md.in_line in Hc. apply negb_true_iff in Hc. rewrite Hc.
    by rewrite IH.
Qed.

Lemma lazy_until_none (k : ascii) (close' t : string) :
  all_chars (not_char k) t = true → Md.lazy_until (String k close') t = None.
Proof.
  induction t as [|c t IH]; [done|]. simpl.
  intros [Hc Ht]%andb_true_iff. apply not_char_spec in Hc.
  destruct (Ascii.eqb_spec k c); [done|]. simpl.
  destruct (Str.is_line_terminator c); [done|]. by rewrite IH.
Qed.

(** A delimited pattern on its delimiter, a text of the line without
    the delimiter character, and the delimiter again. *)
Lemma delimited_hit (k : ascii) (d' tag x t : string) (prev : option ascii) :
  all_chars Md.in_line x = true → all_chars (not_char k) x = true →
  Md.delimited (String k d') tag prev
    ((String k d' +:+ x +:+ String k d') +:+ t)
  = Some (Md.wrap tag x, String.length (String k d' +:+ x +:+ String k d')).
Proof.
  intros Hline Hk. unfold Md.delimited.
  rewrite !append_assoc, starts_with_app, drop_app_length.
  rewrite lazy_until_found by done. f_equal. f_equal.
  rewrite !length_append. simpl. lia.
Qed.

(** X4: text between double stars becomes strong text and text between
    single stars emphasised text, when the text around and between holds
    no markup characters: the bold pattern is tried first, so the double
    stars are not taken for two empty emphases. *)
Theorem emphasis_rendered (a x b : string) :
  all_chars inert a = true → all_chars inert b = true →
  all_chars inert x = true → all_chars Md.in_line x = true →
  Md.convert (a +:+ "**" +:+ x +:+ "**" +:+ b)
    = a +:+ "<strong>" +:+ x +:+ "</strong>" +:+ b
  ∧ Md.convert (a +:+ "*" +:+ x +:+ "*" +:+ b)
    = a +:+ "<em>" +:+ x +:+ "</em>" +:+ b.
Proof.
  intros Ha Hb Hx Hline.
  pose proof (inert_all "*" x (or_intror (or_introl eq_refl)) Hx) as Hxs.
  pose proof (inert_all "*" a (or_intror (or_introl eq_refl)) Ha) as Has.
  pose proof (inert_all "*" b (or_intror (or_introl eq_refl)) Hb) as Hbs.
  assert (∀ s, all_chars inert (a +:+ s +:+ b) = all_chars inert s) as Hctx.
  { intros s. by rewrite !all_chars_app, Ha, Hb, andb_true_r. }
  split.
  - rewrite convert_no_sharp
      by (rewrite !all_chars_app;
          by rewrite (inert_all "#" a), (inert_all "#" x), (inert_all "#" b) by auto).
    unfold replace_all at 4.
    rewrite (replace_from_app_inert _ (not_char "*")); [|clear|done].
    2:{ intros q c r Hc%not_char_spec. unfold Md.delimited.
        by rewrite starts_with_head. }
    replace ("**" +:+ x +:+ "**" +:+ b) with (("**" +:+ x +:+ "**") +:+ b)
      by by rewrite !append_assoc.
    rewrite (replace_from_hit _ ("**" +:+ x +:+ "**") b (Md.wrap "strong" x));
      [|done|by apply delimited_hit].
    rewrite delimited_free by done.
    rewrite late_passes_inert; [by norm_app|].
    rewrite Hctx. by apply wrap_inert.
  - rewrite convert_no_sharp
      by (rewrite !all_chars_app;
          by rewrite (inert_all "#" a), (inert_all "#" x), (inert_all "#" b) by auto).
    (* the bold pattern does not fire *)
    assert (replace_all (Md.delimited "**" "strong") (a +:+ "*" +:+ x +:+ "*" +:+ b)
            = a +:+ "*" +:+ x +:+ "*" +:+ b) as ->.
    { unfold replace_all.
      rewrite (replace_from_app_inert _ (not_char "*")); [|clear|done].
      2:{ intros q c r Hc%not_char_spec. unfold Md.delimited.
          by rewrite starts_with_head. }
      f_equal. rewrite append_cons, append_nil_l.
      rewrite replace_from_miss.
      2:{ unfold Md.delimited. destruct x as [|c x].
          - change (String "*" (EmptyString +:+ "*" +:+ b)) with ("**" +:+ b).
            rewrite starts_with_app, drop_app_length.
            rewrite (lazy_until_none "*" "*" b Hbs). reflexivity.
          - simpl in Hxs. apply andb_true_iff in Hxs as [Hc%not_char_spec _].
            rewrite append_cons. by rewrite starts_with_second. }
      f_equal.
      rewrite (replace_from_app_inert _ (not_char "*")); [|clear|done].
      2:{ intros q c r Hc%not_char_spec. unfold Md.delimited.
          by rewrite starts_with_head. }
      f_equal. rewrite append_cons, append_nil_l.
      rewrite replace_from_miss.
      2:{ unfold Md.delimited. destruct b as [|c b]; [done|].
          simpl in Hbs. apply andb_true_iff in Hbs as [Hc%not_char_spec _].
          by rewrite starts_with_second. }
      by rewrite delimited_free. }
    unfold replace_all at 3.
    rewrite (replace_from_app_inert _ (not_char "*")); [|clear|done].
    2:{ intros q c r Hc%not_char_spec. unfold Md.delimited.
        by rewrite starts_with_head. }
    replace ("*" +:+ x +:+ "*" +:+ b) with (("*" +:+ x +:+ "*") +:+ b)
      by by rewrite !append_assoc.
    rewrite (replace_from_hit _ ("*" +:+ x +:+ "*") b (Md.wrap "em" x));
      [|done|by apply delimited_hit].
    rewrite delimited_free by done.
    assert (all_chars inert (a +:+ Md.wrap "em" x +:+ b) = true) as Hres.
    { rewrite Hctx. by apply wrap_inert. }
    unfold replace_all.
    rewrite code_span_free by (apply inert_all; auto).
    rewrite blank_line_free by (apply inert_all; auto).
    by norm_app.
Qed.

Lemma emphasis_rendered_witness :
  Md.convert ("so " +:+ "**" +:+ "very" +:+ "**" +:+ " <b>")
    = "so " +:+ "<strong>" +:+ "very" +:+ "</strong>" +:+ " <b>"
  ∧ Md.convert ("so " +:+ "*" +:+ "very" +:+ "*" +:+ " <b>")
    = "so " +:+ "<em>" +:+ "very" +:+ "</em>" +:+ " <b>".
Proof. apply emphasis_rendered; by vm_compute. Defined.

Lemma emphasis_free (s : string) :
  all_chars (not_char "*") s = true →
  replace_all (Md.delimited "*" "em")
    (replace_all (Md.delimited "**" "strong") s) = s.
Proof.
  intros Hs. unfold replace_all.
  rewrite (delimited_free "*" "strong" s) by done.
  by rewrite (delimited_free EmptyString "em" s).
Qed.

Lemma code_span_hit (x t : string) (prev : option ascii) :
  x ≠ EmptyString → all_chars (not_char "`") x = true →
  Md.code_span prev (("`" +:+ x +:+ "`") +:+ t)
  = Some (Md.wrap "code" x, String.length ("`" +:+ x +:+ "`")).
Proof.
  intros Hne Hx. rewrite append_assoc, append_cons, append_nil_l.
  unfold Md.code_span. rewrite Ascii.eqb_refl.
  rewrite append_assoc, (append_cons "`" EmptyString t), append_nil_l.
  rewrite (take_while_app Md.not_backtick); [|exact Hx|done].
  rewrite drop_app_length. destruct x as [|c x]; [done|].
  cbn [Str.nonempty Str.starts_with andb]. rewrite Ascii.eqb_refl.
  f_equal. f_equal. rewrite !length_append. simpl. lia.
Qed.

(** X5: text between backticks becomes a code span, when it is not empty
    and the text around and between holds no markup characters. *)
Theorem code_span_rendered (a x b : string) :
  all_chars inert a = true → all_chars inert b = true →
  all_chars inert x = true → x ≠ EmptyString →
  Md.convert (a +:+ "`" +:+ x +:+ "`" +:+ b)
    = a +:+ "<code>" +:+ x +:+ "</code>" +:+ b.
Proof.
  intros Ha Hb Hx Hne.
  rewrite convert_no_sharp
    by (rewrite !all_chars_app;
        by rewrite (inert_all "#" a), (inert_all "#" x), (inert_all "#" b) by auto).
  rewrite emphasis_free
    by (rewrite !all_chars_app;
        by rewrite (inert_all "*" a), (inert_all "*" x), (inert_all "*" b) by auto).
  unfold replace_all at 2.
  rewrite (replace_from_app_inert _ (not_char "`"));
    [| |by apply inert_all; auto].
  2:{ intros q c r Hc%not_char_spec. unfold Md.code_span.
      by destruct (Ascii.eqb_spec c "`"). }
  replace ("`" +:+ x +:+ "`" +:+ b) with (("`" +:+ x +:+ "`") +:+ b)
    by by rewrite !append_assoc.
  rewrite (replace_from_hit _ ("`" +:+ x +:+ "`") b (Md.wrap "code" x));
    [|done|by apply code_span_hit, inert_all; auto].
  rewrite code_span_free by (apply inert_all; auto).
  unfold replace_all. rewrite blank_line_free; [by norm_app|].
  rewrite !all_chars_app.
  rewrite (inert_all Str.newline a), (inert_all Str.newline b) by auto.
  unfold Md.wrap. rewrite !all_chars_app.
  by rewrite (inert_all Str.newline x) by auto.
Qed.

Lemma code_span_rendered_witness :
  Md.convert ("run " +:+ "`" +:+ "ls -l" +:+ "`" +:+ " now")
    = "run " +:+ "<code>" +:+ "ls -l" +:+ "</code>" +:+ " now".
Proof. apply code_span_rendered; by vm_compute. Defined.

(** X6: two line feeds between texts without markup characters become a
    paragraph break, so the texts are rendered as two paragraphs. *)
Theorem paragraphs_rendered (a b : string) :
  all_chars inert a = true → all_chars inert b = true →
  renderMarkdown (Some (JStr (a +:+ Str.nl +:+ Str.nl +:+ b)))
    = Ok ("<p>" +:+ a +:+ "</p><p>" +:+ b +:+ "</p>").
Proof.
  intros Ha Hb. unfold renderMarkdown.
  assert (truthy (Some (JStr (a +:+ Str.nl +:+ Str.nl +:+ b))) = true) as ->.
  { simpl. destruct a; by rewrite ?append_cons. }
  simpl. f_equal.
  rewrite convert_no_sharp
    by (rewrite !all_chars_app;
        by rewrite (inert_all "#" a), (inert_all "#" b) by auto).
  rewrite emphasis_free
    by (rewrite !all_chars_app;
        by rewrite (inert_all "*" a), (inert_all "*" b) by auto).
  unfold replace_all.
  rewrite code_span_free
    by (rewrite !all_chars_app;
        by rewrite (inert_all "`" a), (inert_all "`" b) by auto).
  rewrite (replace_from_app_inert _ (not_char Str.newline));
    [| |by apply inert_all; auto].
  2:{ intros q c r Hc%not_char_spec. unfold Md.blank_line, Str.nl.
      rewrite append_cons. by rewrite starts_with_head. }
  replace (Str.nl +:+ Str.nl +:+ b) with ((Str.nl +:+ Str.nl) +:+ b)
    by by rewrite !append_assoc.
  rewrite (replace_from_hit _ (Str.nl +:+ Str.nl) b "</p><p>"); [|done|].
  2:{ unfold Md.blank_line. by rewrite starts_with_app. }
  rewrite blank_line_free by (apply inert_all; auto).
  by norm_app.
Qed.

Lemma paragraphs_rendered_witness :
  renderMarkdown (Some (JStr ("one" +:+ Str.nl +:+ Str.nl +:+ "two")))
    = Ok ("<p>" +:+ "one" +:+ "</p><p>" +:+ "two" +:+ "</p>").
Proof. apply paragraphs_rendered; by vm_compute. Defined.

(** A header pattern at the start of the text, on its marker and the rest
    of the line. *)
Lemma header_pass_hit (m tag t b : string) :
  all_chars Md.in_line t = true →
  all_chars (not_char "#") b = true →
  replace_all (Md.header (String "#" m) tag)
    (String "#" m +:+ t +:+ Str.nl +:+ b)
  = Md.wrap tag t +:+ Str.nl +:+ b.
Proof.
  intros Ht Hb. unfold replace_all.
  replace (String "#" m +:+ t +:+ Str.nl +:+ b)
    with ((String "#" m +:+ t) +:+ Str.nl +:+ b) by by rewrite !append_assoc.
  rewrite (replace_from_hit _ (String "#" m +:+ t) (Str.nl +:+ b) (Md.wrap tag t));
    [|done|].
  - rewrite header_free; [done|]. by rewrite all_chars_app, Hb.
  - unfold Md.header. cbn [Md.at_line_start andb].
    rewrite !append_assoc, starts_with_app, drop_app_length.
    unfold Str.nl. rewrite !(append_cons Str.newline EmptyString b), !append_nil_l.
    rewrite !take_while_app by done.
    by rewrite length_append.
Qed.

(** Inside a line no header pattern fires. *)
Lemma header_inside_line (marker tag r : string) :
  all_chars Md.in_line r = true →
  ∀ prev, Md.at_line_start prev = false →
    replace_from (Md.header marker tag) prev 0 r = r.
Proof.
  induction r as [|d r IH]; [done|]. simpl.
  intros [Hd Hr]%andb_true_iff prev Hprev.
  unfold Md.header at 1. rewrite Hprev. simpl. f_equal.
  apply IH; [done|]. simpl. unfold Md.in_line in Hd.
  by apply negb_true_iff in Hd.
Qed.

Lemma single_newline_kept (h b : string) :
  all_chars (not_char Str.newline) h = true →
  all_chars (not_char Str.newline) b = true →
  replace_all Md.blank_line (h +:+ Str.nl +:+ b) = h +:+ Str.nl +:+ b.
Proof.
  intros Hh Hb. unfold replace_all.
  rewrite (replace_from_app_inert _ (not_char Str.newline)); [| |done].
  2:{ intros q c r Hc%not_char_spec. unfold Md.blank_line, Str.nl.
      rewrite append_cons. by rewrite starts_with_head. }
  f_equal. unfold Str.nl.
  rewrite !(append_cons Str.newline EmptyString b), !append_nil_l.
  rewrite replace_from_miss.
  - by rewrite blank_line_free.
  - unfold Md.blank_line, Str.nl. rewrite append_cons, append_nil_l.
    destruct b as [|c b]; [done|]. simpl in Hb.
    apply andb_true_iff in Hb as [Hc%not_char_spec _].
    by rewrite starts_with_second.
Qed.

(** What the passes after the headers do to a rendered header line. *)
Lemma header_line_kept (tag t b : string) :
  all_chars inert tag = true → all_chars inert t = true →
  all_chars inert b = true →
  replace_all Md.blank_line
    (replace_all Md.code_span
       (replace_all (Md.delimited "*" "em")
          (replace_all (Md.delimited "**" "strong")
             (Md.wrap tag t +:+ Str.nl +:+ b))))
  = Md.wrap tag t +:+ Str.nl +:+ b.
Proof.
  intros Htag Ht Hb.
  pose proof (wrap_inert tag t Htag Ht) as Hw.
  rewrite emphasis_free
    by (rewrite !all_chars_app;
        by rewrite (inert_all "*" _ ltac:(auto) Hw), (inert_all "*" b) by auto).
  unfold replace_all at 2.
  rewrite code_span_free
    by (rewrite !all_chars_app;
        by rewrite (inert_all "`" _ ltac:(auto) Hw), (inert_all "`" b) by auto).
  apply single_newline_kept; apply inert_all; auto.
Qed.

(** X7: a line that starts with one, two or three sharps and a space
    becomes a header of that level holding the rest of the line, and the
    text after the line is kept; a sharp inside a line starts no
    header. *)
Theorem headers_rendered (t b : string) :
  all_chars inert t = true → all_chars Md.in_line t = true →
  all_chars inert b = true →
  Md.convert ("# " +:+ t +:+ Str.nl +:+ b)
    = "<h1>" +:+ t +:+ "</h1>" +:+ Str.nl +:+ b
  ∧ Md.convert ("## " +:+ t +:+ Str.nl +:+ b)
    = "<h2>" +:+ t +:+ "</h2>" +:+ Str.nl +:+ b
  ∧ Md.convert ("### " +:+ t +:+ Str.nl +:+ b)
    = "<h3>" +:+ t +:+ "</h3>" +:+ Str.nl +:+ b
  ∧ ∀ c r, inert c = true → Md.in_line c = true →
           all_chars midline r = true →
           Md.convert (String c r) = String c r.
Proof.
  intros Ht Hline Hb.
  pose proof (inert_all "#" t ltac:(auto) Ht) as Hts.
  pose proof (inert_all "#" b ltac:(auto) Hb) as Hbs.
  assert (all_chars (not_char "#") (t +:+ Str.nl +:+ b) = true) as Htail
    by by rewrite !all_chars_app, Hts, Hbs.
  assert (∀ tag, all_chars inert tag = true →
                 all_chars (not_char "#") (Md.wrap tag t +:+ Str.nl +:+ b) = true)
    as Hwrap.
  { intros tag Htag. rewrite !all_chars_app, Hbs.
    by rewrite (inert_all "#" _ ltac:(auto) (wrap_inert tag t Htag Ht)). }
  split; [|split; [|split]].
  - unfold Md.convert.
    assert (replace_all (Md.header "### " "h3") ("# " +:+ t +:+ Str.nl +:+ b)
            = "# " +:+ t +:+ Str.nl +:+ b) as ->.
    { unfold replace_all. rewrite !append_cons, append_nil_l.
      rewrite replace_from_miss by done. f_equal.
      rewrite header_free; [done|]. simpl. exact Htail. }
    assert (replace_all (Md.header "## " "h2") ("# " +:+ t +:+ Str.nl +:+ b)
            = "# " +:+ t +:+ Str.nl +:+ b) as ->.
    { unfold replace_all. rewrite !append_cons, append_nil_l.
      rewrite replace_from_miss by done. f_equal.
      rewrite header_free; [done|]. simpl. exact Htail. }
    rewrite (header_pass_hit " " "h1") by done.
    rewrite header_line_kept by done. by norm_app.
  - unfold Md.convert.
    assert (replace_all (Md.header "### " "h3") ("## " +:+ t +:+ Str.nl +:+ b)
            = "## " +:+ t +:+ Str.nl +:+ b) as ->.
    { unfold replace_all. rewrite !append_cons, append_nil_l.
      rewrite replace_from_miss by done. f_equal.
      rewrite replace_from_miss by done. f_equal.
      rewrite header_free; [done|]. simpl. exact Htail. }
    rewrite (header_pass_hit "# " "h2") by done.
    unfold replace_all at 5. rewrite header_free by (by apply Hwrap).
    rewrite header_line_kept by done. by norm_app.
  - unfold Md.convert.
    rewrite (header_pass_hit "## " "h3") by done.
    unfold replace_all at 6. rewrite header_free by (by apply Hwrap).
    unfold replace_all at 5. rewrite header_free by (by apply Hwrap).
    rewrite header_line_kept by done. by norm_app.
  - intros c r Hc Hcl Hr.
    assert (all_chars Md.in_line r = true) as Hrl.
    { revert Hr. apply all_chars_impl. unfold midline.
      by intros d [[? _]%andb_true_iff _]%andb_true_iff. }
    assert (∀ marker tag,
              replace_all (Md.header (String "#" marker) tag) (String c r)
              = String c r) as Hhead.
    { intros marker tag. unfold replace_all.
      rewrite replace_from_miss.
      - f_equal. apply header_inside_line; [done|]. simpl.
        unfold Md.in_line in Hcl. by apply negb_true_iff in Hcl.
      - apply header_inert. exact Hc. }
    unfold Md.convert. rewrite !Hhead.
    destruct (inert_not_char c Hc) as (_ & Hstar & Htick & Hnl).
    rewrite emphasis_free.
    2:{ simpl. rewrite Hstar. simpl. revert Hr. apply all_chars_impl.
        unfold midline, not_char.
        by intros d [[_ ?]%andb_true_iff _]%andb_true_iff. }
    unfold replace_all.
    rewrite code_span_free.
    2:{ simpl. rewrite Htick. simpl. revert Hr. apply all_chars_impl.
        unfold midline, not_char. by intros d [_ ?]%andb_true_iff. }
    apply blank_line_free. simpl. rewrite Hnl. simpl.
    revert Hrl. apply all_chars_impl. unfold Md.in_line, not_char.
    intros d Hd. apply negb_true_iff in Hd. apply negb_true_iff.
    unfold Str.is_line_terminator in Hd. by apply orb_false_iff in Hd as [? _].
Qed.

Lemma headers_rendered_witness :
  Md.convert ("# " +:+ "Title" +:+ Str.nl +:+ "text")
    = "<h1>" +:+ "Title" +:+ "</h1>" +:+ Str.nl +:+ "text"
  ∧ Md.convert "issue #3 is open" = "issue #3 is open".
Proof.
  destruct (headers_rendered "Title" "text") as (H1 & _ & _ & Hmid);
    [by vm_compute..|].
  split; [exact H1|]. apply Hmid; by vm_compute.
Defined.

(** ** Outputs in the full view *)

(** X8: a plain-text payload that holds one of the two figure marks is
    not rendered, and nothing else of that output is rendered in its
    place, whatever its stream text. *)
Theorem figure_text_suppressed
    (ps data : gmap string json) (s : string) :
  ps !! "data" = Some (JObj data) →
  truthy (data !! "image/png") = false →
  truthy (data !! "image/jpeg") = false →
  truthy (data !! "image/svg+xml") = false →
  truthy (data !! "text/plain") = true →
  joined (data !! "text/plain") = Ok (Some (JStr s)) →
  Str.includes "<Figure size" s = true ∨ Str.includes "Figure(" s = true →
  renderOutput (JObj ps) = Ok EmptyString.
Proof.
  intros Hd Hpng Hjpeg Hsvg Hplain Hjoin Hfig.
  unfold renderOutput, dataField. simpl. rewrite Hd. simpl.
  rewrite Hpng, Hjpeg, Hsvg, Hplain, Hjoin. simpl.
  destruct (Str.includes "<Figure size" s); simpl; [done|].
  destruct Hfig as [H|H]; [done|]. by rewrite H.
Qed.

Lemma figure_text_suppressed_witness :
  renderOutput
    (obj [("output_type", JStr "stream"); ("text", JStr "shown?");
          ("data", obj [("text/plain",
                         JArr [JStr "<Figure size 640x480 "; JStr "with 1 Axes>"])])])
  = Ok EmptyString.
Proof.
  unfold obj.
  eapply (figure_text_suppressed _ _ "<Figure size 640x480 with 1 Axes>");
    try by vm_compute.
  left. by vm_compute.
Defined.

(** X9: without a PNG payload a JPEG payload is the one rendered, and
    without both an SVG payload is, each as an embedded image and before
    any text of the output. *)
Theorem image_precedence_chain
    (ps data : gmap string json) (payload : string) :
  ps !! "data" = Some (JObj data) →
  truthy (data !! "image/png") = false →
  payload ≠ EmptyString →
  (data !! "image/jpeg" = Some (JStr payload) →
   renderOutput (JObj ps) = Ok (img "image/jpeg" payload))
  ∧ (truthy (data !! "image/jpeg") = false →
     data !! "image/svg+xml" = Some (JStr payload) →
     renderOutput (JObj ps) = Ok (img "image/svg+xml" payload)).
Proof.
  intros Hd Hpng Hne.
  split; unfold renderOutput, dataField; simpl; rewrite Hd; simpl; rewrite Hpng.
  - intros ->. simpl. by destruct payload.
  - intros -> ->. simpl. by destruct payload.
Qed.

Lemma image_precedence_chain_witness :
  renderOutput (data_output [("text/plain", JStr "42"); ("image/svg+xml", JStr "PHN2Zz4=");
                             ("image/jpeg", JStr "/9j/4AAQ")])
    = Ok (img "image/jpeg" "/9j/4AAQ")
  ∧ renderOutput (data_output [("text/plain", JStr "42"); ("image/svg+xml", JStr "PHN2Zz4=")])
    = Ok (img "image/svg+xml" "PHN2Zz4=").
Proof.
  unfold data_output, obj. split.
  - eapply image_precedence_chain; by vm_compute.
  - eapply image_precedence_chain; by vm_compute.
Defined.

(** X10: an output without data is rendered from its stream text alone:
    the escaped text when its type is [stream] and the text is a string
    that is not empty, nothing when the type is another one or the text
    is falsy. *)
Theorem output_without_data (ps : gmap string json) :
  truthy (ps !! "data") = false →
  (is_string "stream" (ps !! "output_type") = false →
   renderOutput (JObj ps) = Ok EmptyString)
  ∧ (truthy (ps !! "text") = false → renderOutput (JObj ps) = Ok EmptyString)
  ∧ (∀ s, is_string "stream" (ps !! "output_type") = true →
          ps !! "text" = Some (JStr s) → s ≠ EmptyString →
          renderOutput (JObj ps) = Ok (out_open +:+ escapeHtml s +:+ out_close)).
Proof.
  intros Hd. unfold renderOutput, dataField, streamText. simpl. rewrite Hd. simpl.
  rewrite Hd. simpl. split; [|split].
  - by intros ->.
  - intros Ht. destruct (is_string "stream" (ps !! "output_type")); simpl; [|done].
    by rewrite Ht.
  - intros s -> -> Hs. simpl. by destruct s.
Qed.

Lemma output_without_data_witness :
  renderOutput (obj [("output_type", JStr "stream"); ("text", JStr "a < b")])
    = Ok (out_open +:+ escapeHtml "a < b" +:+ out_close)
  ∧ renderOutput (obj [("output_type", JStr "display_data")]) = Ok EmptyString.
Proof.
  unfold obj. split.
  - refine (proj2 (proj2 (output_without_data _ _)) "a < b" _ _ _); by vm_compute.
  - refine (proj1 (output_without_data _ _) _); by vm_compute.
Defined.

(** ** The full view, cell by cell *)

Lemma outputsLoop_acc (outs : list json) (html : string) :
  outputsLoop outs html = (h ← outputsLoop outs EmptyString; Ok (html +:+ h)).
Proof.
  revert html. induction outs as [|o rest IH]; intros html.
  - simpl. by rewrite append_nil_r.
  - simpl. destruct (renderOutput o) as [h| |]; simpl; try done.
    rewrite (IH (html +:+ h)), (IH (EmptyString +:+ h)), append_nil_l.
    destruct (outputsLoop rest EmptyString) as [h'| |]; simpl; try done.
    by rewrite append_assoc.
Qed.

Lemma renderCell_acc (c : json) (html : string) :
  renderCell c html = (h ← renderCell c EmptyString; Ok (html +:+ h)).
Proof.
  unfold renderCell.
  destruct (getProp c "cell_type") as [ty| |]; simpl; try done.
  destruct (interpolate ty) as [cls| |]; simpl; try done.
  destruct (is_string "markdown" ty); simpl.
  - destruct (getProp c "source") as [src| |]; simpl; try done.
    destruct (joined src) as [text| |]; simpl; try done.
    destruct (renderMarkdown text) as [h| |]; simpl; try done.
    by rewrite !append_assoc, !append_nil_l.
  - destruct (is_string "code" ty); simpl.
    + destruct (getProp c "source") as [src| |]; simpl; try done.
      destruct (joined src) as [text| |]; simpl; try done.
      destruct (escapeHtmlOf (or_empty text)) as [e| |]; simpl; try done.
      destruct (getProp c "outputs") as [outs| |]; simpl; try done.
      destruct (forEachItems outs) as [items| |]; simpl; try done.
      rewrite outputsLoop_acc. symmetry. rewrite outputsLoop_acc. symmetry.
      destruct (outputsLoop items EmptyString) as [h| |]; simpl; try done.
      by rewrite !append_assoc, !append_nil_l.
    + by rewrite !append_assoc, !append_nil_l.
Qed.

Lemma cellsLoop_acc (cells : list json) (html : string) :
  cellsLoop cells html = (h ← cellsLoop cells EmptyString; Ok (html +:+ h)).
Proof.
  revert html. induction cells as [|c rest IH]; intros html.
  - simpl. by rewrite append_nil_r.
  - simpl. rewrite renderCell_acc.
    destruct (renderCell c EmptyString) as [h| |]; simpl; try done.
    rewrite (IH (html +:+ h)), (IH h).
    destruct (cellsLoop rest EmptyString) as [h'| |]; simpl; try done.
    by rewrite append_assoc.
Qed.

Lemma cellsLoop_app (a b : list json) (html : string) :
  cellsLoop (a ++ b)%list html = (h ← cellsLoop a html; cellsLoop b h).
Proof.
  revert html. induction a as [|c a IH]; intros html; [done|].
  simpl. destruct (renderCell c html) as [h| |]; simpl; first [done | apply IH].
Qed.

Lemma renderFullNotebook_notebook (cells : list json) :
  renderFullNotebook (notebook cells) = cellsLoop cells EmptyString.
Proof. done. Qed.

(** X11: the full view is put together cell by cell: the view of a
    notebook is the block of its first cell followed by the view of the
    other cells, and the view of two lists of cells one after the other
    is the two views one after the other; a cell's block does not depend
    on the cells before it. *)
Theorem full_view_concatenates (c : json) (a b : list json) :
  renderFullNotebook (notebook (c :: a))
  = (h ← renderCell c EmptyString;
     hs ← renderFullNotebook (notebook a); Ok (h +:+ hs))
  ∧ renderFullNotebook (notebook (a ++ b)%list)
    = (ha ← renderFullNotebook (notebook a);
       hb ← renderFullNotebook (notebook b); Ok (ha +:+ hb)).
Proof.
  rewrite !renderFullNotebook_notebook. split.
  - simpl. destruct (renderCell c EmptyString) as [h| |]; simpl; try done.
    apply cellsLoop_acc.
  - rewrite cellsLoop_app.
    destruct (cellsLoop a EmptyString) as [ha| |]; simpl; try done.
    apply cellsLoop_acc.
Qed.

(** X12: the preview stops reading at the third counted cell: what
    follows it is never looked at, so that a notebook whose later cells
    are null still has its preview, while its full view raises. *)
Theorem preview_ignores_later_cells (pre post : list json) :
  Forall (λ c, c ≠ JNull) pre →
  (3 ≤ List.length (filter (λ c, counted c = true) pre))%nat →
  renderNotebookPreview (notebook (pre ++ post)%list)
  = renderNotebookPreview (notebook pre)
  ∧ ¬ is_Ok (renderFullNotebook (notebook (pre ++ JNull :: post)%list)).
Proof.
  intros Hpre Hcount. split.
  - change (previewLoop (pre ++ post)%list 0 EmptyString
            = previewLoop pre 0 EmptyString).
    assert (∀ shown html,
      (NOTEBOOK_PREVIEW_CELLS
         ≤ shown + List.length (filter (λ c, counted c = true) pre))%nat →
      previewLoop (pre ++ post)%list shown html = previewLoop pre shown html)
      as Hgen; [|by apply Hgen].
    clear Hcount. induction Hpre as [|c rest Hc Hrest IH]; intros shown html Hn.
    + rewrite filter_nil in Hn. simpl in Hn.
      rewrite !previewLoop_full; [done | lia | lia].
    + destruct (decide (NOTEBOOK_PREVIEW_CELLS ≤ shown)%nat) as [Hfull|Hroom].
      * by rewrite !previewLoop_full.
      * change ((c :: rest) ++ post)%list with (c :: (rest ++ post))%list.
        rewrite !previewLoop_step by (done || lia).
        rewrite filter_cons in Hn. destruct (counted c) eqn:Hcnt.
        -- rewrite decide_True in Hn by done. simpl in Hn.
           destruct (previewCell c) as [h| |]; simpl; try done.
           apply IH. lia.
        -- rewrite decide_False in Hn by congruence. by apply IH.
  - rewrite renderFullNotebook_notebook, cellsLoop_app.
    intros [h Hh].
    destruct (cellsLoop pre EmptyString) as [hp| |]; simpl in Hh; done.
Qed.

Lemma preview_ignores_later_cells_witness :
  renderNotebookPreview
    (notebook ([markdown_cell (JStr "a"); markdown_cell (JStr "b");
                markdown_cell (JStr "c")] ++ [JNull; JNum false "7"])%list)
  = renderNotebookPreview
      (notebook [markdown_cell (JStr "a"); markdown_cell (JStr "b");
                 markdown_cell (JStr "c")])
  ∧ ¬ is_Ok (renderFullNotebook
               (notebook ([markdown_cell (JStr "a"); markdown_cell (JStr "b");
                           markdown_cell (JStr "c")] ++ JNull :: [JNum false "7"])%list)).
Proof.
  pose proof (preview_ignores_later_cells
                [markdown_cell (JStr "a"); markdown_cell (JStr "b");
                 markdown_cell (JStr "c")] [JNum false "7"]) as H.
  split.
  - apply (preview_ignores_later_cells _ [JNull; JNum false "7"]).
    + by repeat constructor.
    + vm_compute. lia.
  - apply H.
    + by repeat constructor.
    + vm_compute. lia.
Defined.

(** X13: a cell whose type is a text other than [markdown] and [code]
    is passed over by the preview and gives an empty block in the full
    view, whatever its source and outputs are; the block carries the
    type as it is written, not escaped. *)
Theorem other_cell_types (ps : gmap string json) (t html : string) :
  ps !! "cell_type" = Some (JStr t) →
  t ≠ "markdown" → t ≠ "code" →
  renderCell (JObj ps) html = Ok (html +:+ div_open t +:+ "</div>")
  ∧ previewCell (JObj ps) = Ok EmptyString
  ∧ counted (JObj ps) = false.
Proof.
  intros Ht Hm Hc. unfold renderCell, previewCell, counted. simpl.
  rewrite Ht. simpl. rewrite !bool_decide_eq_false_2 by done. simpl.
  split; [|done]. unfold div_open. by rewrite !append_assoc.
Qed.

Lemma other_cell_types_witness :
  renderCell (obj [("cell_type", JStr "raw"); ("source", JNull)]) "<hr>"
    = Ok ("<hr>" +:+ div_open "raw" +:+ "</div>")
  ∧ previewCell (obj [("cell_type", JStr "raw"); ("source", JNull)]) = Ok EmptyString
  ∧ counted (obj [("cell_type", JStr "raw"); ("source", JNull)]) = false.
Proof. unfold obj. apply (other_cell_types _ "raw"); by vm_compute. Defined.

(** ** Splitting and joining *)

Lemma split_at_free (sep : ascii) (s : string) :
  all_chars (not_char sep) s = true → Str.split_at sep s = (s, []).
Proof.
  induction s as [|c r IH]; [done|]. cbn [all_chars Str.split_at].
  intros [Hc Hr]%andb_true_iff. rewrite (IH Hr).
  unfold not_char in Hc. by destruct (c =? sep)%char.
Qed.

Lemma split_at_app (sep : ascii) (x y : string) :
  all_chars (not_char sep) x = true →
  Str.split_at sep (x +:+ String sep y) = (x, Str.split sep y).
Proof.
  induction x as [|c r IH].
  - intros _. rewrite append_nil_l. cbn [Str.split_at]. unfold Str.split.
    destruct (Str.split_at sep y) as [hd tl]. by rewrite Ascii.eqb_refl.
  - cbn [all_chars]. intros [Hc Hr]%andb_true_iff.
    rewrite append_cons. cbn [Str.split_at]. rewrite (IH Hr).
    unfold Str.split. destruct (Str.split_at sep y) as [hd tl].
    unfold not_char in Hc. by destruct (c =? sep)%char.
Qed.

Lemma split_free (sep : ascii) (s : string) :
  Forall (λ l, all_chars (not_char sep) l = true) (Str.split sep s).
Proof.
  unfold Str.split. induction s as [|c r IH]; [by repeat constructor|].
  cbn [Str.split_at]. destruct (Str.split_at sep r) as [hd tl].
  apply Forall_cons in IH as [Hhd Htl].
  destruct (c =? sep)%char eqn:Hc.
  - by repeat constructor.
  - constructor; [|done]. cbn [all_chars]. unfold not_char at 1. by rewrite Hc.
Qed.

Lemma join_cons (sep x y : string) (l : list string) :
  Str.join sep (x :: y :: l) = x +:+ sep +:+ Str.join sep (y :: l).
Proof. done. Qed.

Lemma join_split (sep : ascii) (s : string) :
  Str.join (String sep EmptyString) (Str.split sep s) = s.
Proof.
  unfold Str.split. induction s as [|c r IH]; [done|].
  cbn [Str.split_at]. destruct (Str.split_at sep r) as [hd tl].
  destruct (Ascii.eqb_spec c sep) as [->|Hc].
  - rewrite join_cons, IH. by rewrite append_nil_l, append_cons, append_nil_l.
  - destruct tl as [|y tl].
    + simpl in *. by rewrite IH.
    + rewrite join_cons in *. by rewrite append_cons, IH.
Qed.

Lemma split_join (sep : ascii) (l : list string) :
  l ≠ [] → Forall (λ x, all_chars (not_char sep) x = true) l →
  Str.split sep (Str.join (String sep EmptyString) l) = l.
Proof.
  intros Hne Hl. induction Hl as [|x r Hx Hr IH]; [done|].
  destruct r as [|y r].
  - unfold Str.split. simpl. by rewrite split_at_free.
  - rewrite join_cons, append_cons, append_nil_l.
    unfold Str.split at 1. rewrite split_at_app by done. by rewrite IH.
Qed.

Lemma join_take (sep : string) (n : nat) (l : list string) :
  ∃ rest, Str.join sep l = Str.join sep (take (S n) l) +:+ rest
          ∧ (rest = EmptyString ∨ ∃ r, rest = sep +:+ r).
Proof.
  revert n. induction l as [|x l IH]; intros n.
  - exists EmptyString. by split; [|left].
  - destruct l as [|y l].
    + exists EmptyString. split; [|by left]. cbn [take]. rewrite take_nil.
      by rewrite append_nil_r.
    + destruct n as [|n].
      * exists (sep +:+ Str.join sep (y :: l)). split; [done|]. right. by eexists.
      * destruct (IH n) as (rest & Heq & Hrest). exists rest. split; [|done].
        change (take (S (S n)) (x :: y :: l)) with (x :: take (S n) (y :: l)).
        change (take (S n) (y :: l)) with (y :: take n l) in *.
        rewrite !join_cons, Heq. by rewrite !append_assoc.
Qed.

(** X14: the preview of a script shows its leading lines and nothing
    else: the text shown is the start of the file, cut, if at all, just
    before a line break; splitting it at the line breaks gives back the
    first eight lines of the file; a file of at most eight lines is
    shown whole.  Splitting a text and joining the pieces with the
    separator gives the text back. *)
Theorem script_preview_shows_leading_lines (raw : string) :
  let lines := Str.split Str.newline raw in
  let code := Str.join Str.nl (take PYTHON_PREVIEW_LINES lines) in
  renderScriptPreview raw = code_open +:+ escapeHtml code +:+ code_close
  ∧ Str.join Str.nl lines = raw
  ∧ Str.split Str.newline code = take PYTHON_PREVIEW_LINES lines
  ∧ (∃ rest, raw = code +:+ rest
             ∧ (rest = EmptyString ∨ ∃ r, rest = String Str.newline r))
  ∧ ((List.length lines ≤ PYTHON_PREVIEW_LINES)%nat → code = raw).
Proof.
  intros lines code. split; [done|].
  assert (Str.join Str.nl lines = raw) as Hjoin by apply join_split.
  split; [done|]. split; [|split].
  - apply split_join.
    + unfold lines, Str.split. by destruct (Str.split_at Str.newline raw).
    + apply Forall_take, split_free.
  - destruct (join_take Str.nl 7 lines) as (rest & Heq & Hrest).
    exists rest. split; [by rewrite <- Hjoin|].
    destruct Hrest as [->|[r ->]]; [by left|right]. exists r.
    unfold Str.nl. by rewrite append_cons, append_nil_l.
  - intros Hlen. unfold code. by rewrite take_ge.
Qed.

(** ** Normalised paths *)

Lemma all_chars_none (q : ascii → bool) (s : string) :
  some_char q s = false → all_chars (λ c, negb (q c)) s = true.
Proof.
  induction s as [|c r IH]; [done|]. simpl.
  intros [Hc Hr]%orb_false_iff. by rewrite Hc, IH.
Qed.

Lemma all_chars_and (p q : ascii → bool) (s : string) :
  all_chars p s = true → all_chars q s = true →
  all_chars (λ c, p c && q c) s = true.
Proof.
  induction s as [|c r IH]; [done|]. simpl.
  intros [Hp Hpr]%andb_true_iff [Hq Hqr]%andb_true_iff. by rewrite Hp, Hq, IH.
Qed.

Lemma split_at_cons (sep c : ascii) (r : string) :
  Str.split_at sep (String c r) =
  if (c =? sep)%char then (EmptyString, Str.split sep r)
  else (String c (Str.split_at sep r).1, (Str.split_at sep r).2).
Proof.
  unfold Str.split. cbn [Str.split_at]. by destruct (Str.split_at sep r).
Qed.

Lemma split_all_chars (p : ascii → bool) (sep : ascii) (s : string) :
  all_chars p s = true → Forall (λ x, all_chars p x = true) (Str.split sep s).
Proof.
  unfold Str.split. induction s as [|c r IH]; [by repeat constructor|].
  cbn [all_chars]. intros [Hc Hr]%andb_true_iff. specialize (IH Hr).
  cbn [Str.split_at]. destruct (Str.split_at sep r) as [hd tl].
  apply Forall_cons in IH as [Hhd Htl].
  destruct (c =? sep)%char.
  - by repeat constructor.
  - constructor; [|done]. cbn [all_chars]. by rewrite Hc.
Qed.

Lemma collapse_length (b : bool) (s : string) :
  (String.length (collapse b s) ≤ String.length s)%nat.
Proof.
  revert b. induction s as [|c r IH]; intros b; [done|]. simpl.
  pose proof (IH true). pose proof (IH false).
  destruct (is_backslash c); [destruct b|]; simpl; lia.
Qed.

Lemma path_parts_split (s : string) :
  path_parts s
  = filter (λ x, Str.nonempty x = true)
      ((Str.split_at "/" s).1 :: (Str.split_at "/" s).2).
Proof. unfold path_parts, Str.split. by destruct (Str.split_at "/" s). Qed.

(** Up to empty pieces, it is the same to turn every backslash into a
    slash and to turn every run of them into one. *)
Lemma collapse_parts (s : string) :
  ((Str.split_at "/" (collapse false s)).1
     = (Str.split_at "/" (replace_all backslash_one s)).1
   ∧ filter (λ x, Str.nonempty x = true) (Str.split_at "/" (collapse false s)).2
     = filter (λ x, Str.nonempty x = true)
         (Str.split_at "/" (replace_all backslash_one s)).2)
  ∧ path_parts (collapse true s) = path_parts (replace_all backslash_one s).
Proof.
  induction s as [|c r [[IHh IHt] IHrun]]; [done|].
  rewrite backslash_one_cons. cbn [collapse].
  destruct (is_backslash c) eqn:Hc.
  - rewrite !split_at_cons. simpl.
    assert (path_parts (String "/" (replace_all backslash_one r))
            = path_parts (replace_all backslash_one r)) as Hdrop.
    { unfold path_parts at 1, Str.split. rewrite split_at_cons. simpl.
      by rewrite filter_cons. }
    split; [split; [done|]|].
    + by fold (path_parts (collapse true r));
        fold (path_parts (replace_all backslash_one r)).
    + by rewrite Hdrop.
  - assert (path_parts (String c (collapse false r))
            = path_parts (String c (replace_all backslash_one r))) as Hsame.
    { rewrite !path_parts_split, !split_at_cons.
      destruct (c =? "/")%char; simpl.
      - unfold Str.split. rewrite !filter_cons. simpl.
        destruct (Str.split_at "/" (collapse false r)) as [h1 t1].
        destruct (Str.split_at "/" (replace_all backslash_one r)) as [h2 t2].
        simpl in *. by rewrite !filter_cons, IHh, IHt.
      - by rewrite !filter_cons, IHh, IHt. }
    split; [|done]. rewrite !split_at_cons.
    destruct (c =? "/")%char; simpl.
    + split; [done|]. unfold Str.split.
      destruct (Str.split_at "/" (collapse false r)) as [h1 t1].
      destruct (Str.split_at "/" (replace_all backslash_one r)) as [h2 t2].
      simpl in *. by rewrite !filter_cons, IHh, IHt.
    + by rewrite IHh, IHt.
Qed.

Lemma slashes_nonempty (s : string) :
  Str.nonempty s = true → Str.nonempty (slashes s) = true.
Proof.
  rewrite slashes_collapse. destruct s as [|c r]; [done|]. intros _. simpl.
  by destruct (is_backslash c).
Qed.

(** X15: the path of a file with a hint is settled: it holds no
    backslash, it is not empty and not longer than the hint, normalising
    it again changes nothing, and a hint without a backslash is returned
    as it is. *)
Theorem normalised_paths_are_settled (f : File) :
  Str.nonempty (hint f) = true →
  some_char is_backslash (normalizeFilePath f) = false
  ∧ slashes (normalizeFilePath f) = normalizeFilePath f
  ∧ Str.nonempty (normalizeFilePath f) = true
  ∧ (String.length (normalizeFilePath f) ≤ String.length (hint f))%nat
  ∧ (some_char is_backslash (hint f) = false → normalizeFilePath f = hint f).
Proof.
  intros Hhint. unfold normalizeFilePath. rewrite Hhint. simpl.
  split; [rewrite slashes_collapse; apply collapse_no_backslash|].
  split; [apply slashes_idempotent|].
  split; [by apply slashes_nonempty|].
  split; [rewrite slashes_collapse; apply collapse_length|].
  intros Hfree. rewrite slashes_collapse. by apply collapse_id.
Qed.

Lemma normalised_paths_are_settled_witness :
  some_char is_backslash (normalizeFilePath (picked "a\\b\c.py" "c.py")) = false
  ∧ slashes (normalizeFilePath (picked "a\\b\c.py" "c.py"))
    = normalizeFilePath (picked "a\\b\c.py" "c.py")
  ∧ Str.nonempty (normalizeFilePath (picked "a\\b\c.py" "c.py")) = true
  ∧ (String.length (normalizeFilePath (picked "a\\b\c.py" "c.py"))
     ≤ String.length (hint (picked "a\\b\c.py" "c.py")))%nat
  ∧ (some_char is_backslash (hint (picked "a\\b\c.py" "c.py")) = false →
     normalizeFilePath (picked "a\\b\c.py" "c.py")
     = hint (picked "a\\b\c.py" "c.py")).
Proof. apply normalised_paths_are_settled. by vm_compute. Defined.

(** X16: the segments of a normalised hint do not depend on how the
    separators are written: they are the segments of the text with every
    backslash turned into a slash, one for one, as the traversal of
    dropped folders does; hints that agree after that have the same
    segments; and every segment is a text that is not empty and holds no
    separator of either style. *)
Theorem segments_ignore_separator_style (s t : string) :
  path_parts (slashes s) = path_parts (replace_all backslash_one s)
  ∧ (replace_all backslash_one s = replace_all backslash_one t →
     path_parts (slashes s) = path_parts (slashes t))
  ∧ Forall (λ seg, Str.nonempty seg = true ∧ all_chars segment_char seg = true)
      (path_parts (slashes s)).
Proof.
  assert (∀ u, path_parts (slashes u) = path_parts (replace_all backslash_one u))
    as Hparts.
  { intros u. rewrite slashes_collapse, !path_parts_split.
    destruct (collapse_parts u) as [[Hh Ht] _].
    by rewrite !filter_cons, Hh, Ht. }
  split; [apply Hparts|]. split; [intros E; by rewrite !Hparts, E|].
  apply Forall_forall. intros seg [Hne Hin]%list_elem_of_filter.
  split; [done|].
  pose proof (split_free "/" (slashes s)) as Hslash.
  pose proof (split_all_chars (λ c, negb (is_backslash c)) "/" (slashes s)) as Hback.
  rewrite Forall_forall in Hslash, Hback.
  specialize (Hslash seg Hin). specialize (Hback
    ltac:(rewrite slashes_collapse; apply all_chars_none, collapse_no_backslash)
    seg Hin).
  pose proof (all_chars_and _ _ seg Hslash Hback) as Hboth.
  revert Hboth. apply all_chars_impl. intros c.
  unfold not_char, segment_char.
  by destruct (c =? "/")%char, (is_backslash c).
Qed.

(** ** What the builder does to the files *)

Lemma set_fullPath_fields (p : string) (f : File) :
  name (set_fullPath p f) = name f
  ∧ webkitRelativePath (set_fullPath p f) = webkitRelativePath f
  ∧ fullPath (set_fullPath p f) = Some p.
Proof. done. Qed.

(** Writing the normalised path back leaves a stable file stable, with
    the same normalised path. *)
Lemma written_back (f : File) :
  stable f = true →
  stable (set_fullPath (normalizeFilePath f) f) = true
  ∧ normalizeFilePath (set_fullPath (normalizeFilePath f) f) = normalizeFilePath f.
Proof.
  intros Hst. destruct (decide (normalizeFilePath f = EmptyString)) as [E|Hne].
  - rewrite E. revert E Hst. rewrite hint_order. unfold stable.
    destruct f as [n [[|c w]|] [[|d p]|]]; simpl; intros E;
      try (by rewrite E);
      exfalso; revert E; rewrite slashes_collapse; simpl;
      by destruct (is_backslash _).
  - split; [by apply stable_written_back | by apply normalize_written_back].
Qed.

Lemma buildLoop_store (files : list ref) :
  ∀ (σ σ' : store) (tree tree' : node),
    buildLoop files σ tree = Ok (σ', tree') →
    (∀ f, f ∉ files → σ' f = σ f)
    ∧ (∀ f, name (σ' f) = name (σ f)
            ∧ webkitRelativePath (σ' f) = webkitRelativePath (σ f))
    ∧ (∀ f, f ∈ files → stable (σ f) = true →
            fullPath (σ' f) = Some (normalizeFilePath (σ f))
            ∧ normalizeFilePath (σ' f) = normalizeFilePath (σ f)
            ∧ stable (σ' f) = true).
Proof.
  induction files as [|f files IH]; intros σ σ' tree tree' Hloop.
  - simpl in Hloop. injection Hloop as <- <-.
    split; [done|]. split; [done|]. intros f Hf. by apply elem_of_nil in Hf.
  - cbn [buildLoop] in Hloop.
    destruct (place f (path_parts (normalizeFilePath (σ f))) tree)
      as [tree1| |]; simpl in Hloop; try done.
    set (σ1 := <[f := set_fullPath (normalizeFilePath (σ f)) (σ f)]> σ) in Hloop.
    destruct (IH _ _ _ _ Hloop) as (Hout & Hfields & Hin).
    assert (σ1 f = set_fullPath (normalizeFilePath (σ f)) (σ f)) as Hf1
      by (unfold σ1; by rewrite fn_lookup_insert).
    assert (∀ g, g ≠ f → σ1 g = σ g) as Hg1
      by (intros g Hg; unfold σ1; by rewrite fn_lookup_insert_ne).
    split; [|split].
    + intros g Hg. apply not_elem_of_cons in Hg as [Hgf Hg].
      by rewrite Hout, Hg1.
    + intros g. destruct (Hfields g) as [-> ->].
      destruct (decide (g = f)) as [->|Hgf]; [by rewrite Hf1 | by rewrite Hg1].
    + intros g Hg Hst. destruct (decide (g = f)) as [->|Hgf].
      * destruct (written_back _ Hst) as [Hst1 Hnorm1].
        destruct (decide (f ∈ files)) as [Hmore|Hlast].
        -- rewrite <- Hf1 in Hst1, Hnorm1.
           destruct (Hin f Hmore Hst1) as (Hfp & Hn & Hs).
           by rewrite Hfp, Hn, Hnorm1.
        -- rewrite (Hout f Hlast), Hf1. done.
      * apply elem_of_cons in Hg as [->|Hg]; [done|].
        rewrite <- (Hg1 g Hgf) in Hst. destruct (Hin g Hg Hst) as (Hfp & Hn & Hs).
        by rewrite Hfp, Hn, Hs, (Hg1 g Hgf).
Qed.

(** X17: building the tree changes the file objects in one way only:
    each file of the input gets its normalised path written to
    [fullPath]; names and picker hints stay, files outside the input are
    not touched, and a stable file normalises afterwards to the same
    path as before. *)
Theorem buildTree_writes_normalised_paths
    (σ σ' : store) (files : list ref) (tree : node) :
  buildTree σ files = Ok (σ', tree) →
  (∀ f, f ∉ files → σ' f = σ f)
  ∧ (∀ f, name (σ' f) = name (σ f)
          ∧ webkitRelativePath (σ' f) = webkitRelativePath (σ f))
  ∧ (∀ f, f ∈ files → stable (σ f) = true →
          fullPath (σ' f) = Some (normalizeFilePath (σ f))
          ∧ normalizeFilePath (σ' f) = normalizeFilePath (σ f)).
Proof.
  intros Hbuild.
  destruct (buildLoop_store files σ σ' (Obj ∅) tree Hbuild) as (Hout & Hfields & Hin).
  split; [done|]. split; [done|]. intros f Hf Hst.
  by destruct (Hin f Hf Hst) as (? & ? & _).
Qed.

Lemma buildTree_writes_normalised_paths_witness :
  ∃ σ' tree,
    buildTree shared_store shared_input = Ok (σ', tree)
    ∧ fullPath (σ' 3%nat) = Some "a/y.py"
    ∧ σ' 7%nat = shared_store 7%nat.
Proof.
  destruct (buildTree shared_store shared_input) as [[σ' tree]| |] eqn:Hbuild;
    [|by vm_compute in Hbuild..].
  exists σ', tree. split; [done|].
  destruct (buildTree_writes_normalised_paths _ _ _ _ Hbuild) as (Hout & _ & Hin).
  split.
  - destruct (Hin 3%nat) as [-> _]; [|by vm_compute..].
    apply list_elem_of_In. simpl. tauto.
  - apply Hout. intros H%list_elem_of_In. simpl in H.
    by repeat (destruct H as [H|H]; [lia|]).
Defined.

(** X18: on an input of admissible files every folder path of the built
    tree lists the files of the input that belong to that folder, in
    input order, and no others, so that a file is listed under its own
    folder only; the lists are plain arrays and every other entry is a
    folder of the same shape. *)
Theorem built_tree_lists_each_folder (σ : store) (files : list ref) :
  (∀ f, f ∈ files → admissible (σ f) = true) →
  ∃ σ' tree,
    buildTree σ files = Ok (σ', tree)
    ∧ shaped tree
    ∧ (∀ d, list_at tree d = in_folder σ d files)
    ∧ (∀ d f, f ∈ list_at tree d ↔ f ∈ files ∧ folders (canonical σ f) = d).
Proof.
  intros Hadm.
  destruct (buildLoop_shaped files σ (Obj ∅) shaped_empty Hadm)
    as (σ' & tree & Hloop & Hshaped & Hlist).
  exists σ', tree. split; [done|]. split; [done|].
  assert (∀ d, list_at tree d = in_folder σ d files) as Hat.
  { intros d. by rewrite Hlist, list_at_empty. }
  split; [done|]. intros d f. rewrite Hat. unfold in_folder.
  rewrite list_elem_of_filter. tauto.
Qed.

Lemma built_tree_lists_each_folder_witness :
  ∃ σ' tree,
    buildTree shared_store shared_input = Ok (σ', tree)
    ∧ shaped tree
    ∧ (∀ d, list_at tree d = in_folder shared_store d shared_input)
    ∧ (∀ d f, f ∈ list_at tree d
              ↔ f ∈ shared_input ∧ folders (canonical shared_store f) = d).
Proof.
  apply (built_tree_lists_each_folder shared_store shared_input).
  apply all_admissible. by vm_compute.
Defined.

Lemma buildLoop_same (files : list ref) :
  ∀ (σ1 σ2 σ1' : store) (tree tree' : node),
    (∀ g, g ∈ files →
          stable (σ1 g) = true ∧ stable (σ2 g) = true
          ∧ normalizeFilePath (σ2 g) = normalizeFilePath (σ1 g)) →
    buildLoop files σ1 tree = Ok (σ1', tree') →
    ∃ σ2', buildLoop files σ2 tree = Ok (σ2', tree').
Proof.
  induction files as [|f files IH]; intros σ1 σ2 σ1' tree tree' Hsame Hloop.
  - simpl in *. injection Hloop as <- <-. by eexists.
  - cbn [buildLoop] in *.
    destruct (Hsame f) as (Hs1 & Hs2 & Hn); [apply elem_of_cons; by left|].
    rewrite Hn.
    destruct (place f (path_parts (normalizeFilePath (σ1 f))) tree)
      as [tree1| |]; simpl in *; try done.
    eapply IH; [|exact Hloop]. intros g Hg.
    destruct (decide (g = f)) as [->|Hgf].
    + rewrite !fn_lookup_insert.
      destruct (written_back _ Hs1) as [Hs1' Hn1].
      destruct (written_back _ Hs2) as [Hs2' Hn2].
      rewrite Hn in Hs2', Hn2. by rewrite Hs1', Hs2', Hn1, Hn2.
    + rewrite !fn_lookup_insert_ne by done. apply Hsame, elem_of_cons. by right.
Qed.

(** X19: building again from the file objects a first building has
    written to gives the same tree, and leaves the objects as they are,
    when the files are stable. *)
Theorem rebuilding_gives_the_same_tree
    (σ σ' : store) (files : list ref) (tree : node) :
  (∀ f, f ∈ files → stable (σ f) = true) →
  buildTree σ files = Ok (σ', tree) →
  ∃ σ'', buildTree σ' files = Ok (σ'', tree) ∧ ∀ f, σ'' f = σ' f.
Proof.
  intros Hst Hbuild.
  destruct (buildLoop_store files σ σ' (Obj ∅) tree Hbuild) as (_ & _ & Hin).
  destruct (buildLoop_same files σ σ' σ' (Obj ∅) tree) as [σ'' Hagain]; [|done|].
  { intros g Hg. destruct (Hin g Hg (Hst g Hg)) as (_ & Hn & Hs).
    by rewrite Hn, Hs, Hst. }
  exists σ''. split; [done|]. intros f.
  destruct (buildLoop_store files σ' σ'' (Obj ∅) tree Hagain) as (Hout & Hfields & Hin').
  destruct (decide (f ∈ files)) as [Hf|Hf]; [|by apply Hout].
  destruct (Hin f Hf (Hst f Hf)) as (Hfp & Hn & Hs).
  destruct (Hin' f Hf Hs) as (Hfp' & _).
  destruct (Hfields f) as [Hname Hwrp].
  rewrite Hn, <- Hfp in Hfp'.
  destruct (σ'' f), (σ' f). simpl in *. by subst.
Qed.

Lemma rebuilding_gives_the_same_tree_witness :
  ∃ σ' σ'' tree,
    buildTree scenario_store [0; 1; 2]%nat = Ok (σ', tree)
    ∧ buildTree σ' [0; 1; 2]%nat = Ok (σ'', tree)
    ∧ ∀ f, σ'' f = σ' f.
Proof.
  destruct (buildTree scenario_store [0; 1; 2]%nat) as [[σ' tree]| |] eqn:Hbuild;
    [|by vm_compute in Hbuild..].
  destruct (rebuilding_gives_the_same_tree scenario_store σ' [0; 1; 2]%nat tree)
    as (σ'' & Hagain & Hfix); [|done|].
  - intros f Hf%list_elem_of_In. simpl in Hf.
    by repeat (destruct Hf as [<-|Hf]; [by vm_compute|]).
  - by exists σ', σ'', tree.
Defined.

(** ** Dropped folders *)

Lemma entry_nested_ind (P : entry → Prop) :
  (∀ n f, P (FileEntry n f)) →
  (∀ n es, Forall P es → P (DirEntry n es)) →
  (∀ n, P (OtherEntry n)) →
  ∀ e, P e.
Proof.
  intros Hfile Hdir Hother. fix IH 1. intros [n f|n es|n].
  - apply Hfile.
  - apply Hdir. induction es as [|e es IHes]; constructor; [apply IH | exact IHes].
  - apply Hother.
Qed.

Lemma traverse_directory (dir : string) (es : list entry) (acc : list File)
    (path : string) :
  traverseFileTree (DirEntry dir es) acc path = traverseEntries dir es acc path.
Proof.
  revert acc. induction es as [|e es IH]; intros acc; [done|].
  cbn [traverseEntries]. rewrite <- !IH. simpl.
  by destruct (Str.starts_with "._" (entry_name e)).
Qed.

Lemma one_for_one_app (a b : string) :
  replace_all backslash_one (a +:+ b)
  = replace_all backslash_one a +:+ replace_all backslash_one b.
Proof.
  induction a as [|c a IH]; [by rewrite !append_nil_l|].
  by rewrite append_cons, !backslash_one_cons, IH, append_cons.
Qed.

Lemma one_for_one_free (s : string) :
  some_char is_backslash (replace_all backslash_one s) = false.
Proof.
  induction s as [|c s IH]; [done|]. rewrite backslash_one_cons. simpl.
  rewrite IH. by destruct (is_backslash c) eqn:Hc; rewrite ?Hc.
Qed.

Lemma one_for_one_id (s : string) :
  some_char is_backslash s = false → replace_all backslash_one s = s.
Proof.
  induction s as [|c s IH]; [done|]. simpl. intros [Hc Hs]%orb_false_iff.
  by rewrite backslash_one_cons, Hc, IH.
Qed.

Lemma some_char_app (p : ascii → bool) (a b : string) :
  some_char p (a +:+ b) = some_char p a || some_char p b.
Proof.
  induction a as [|c a IH]; [done|]. rewrite append_cons. simpl.
  by rewrite IH, orb_assoc.
Qed.

Lemma drop_add (a b : string) (k : nat) :
  Str.drop (String.length a + k) (a +:+ b) = Str.drop k b.
Proof. induction a as [|c a IH]; [done|]. rewrite append_cons. by simpl. Qed.

Lemma ends_with_app (p a b : string) :
  Str.ends_with p b = true → Str.ends_with p (a +:+ b) = true.
Proof.
  unfold Str.ends_with. intros [Hlen Hst]%andb_true_iff.
  apply Nat.leb_le in Hlen. rewrite length_append.
  apply andb_true_iff. split; [apply Nat.leb_le; lia|].
  replace (String.length a + String.length b - String.length p)%nat
    with (String.length a + (String.length b - String.length p))%nat by lia.
  by rewrite drop_add.
Qed.

(** A step down into a directory keeps what the traversal guarantees. *)
Lemma collected_under_directory (path dir : string) (g : File) :
  collected_under (replace_all backslash_one path +:+ dir +:+ "/") g →
  collected_under path g.
Proof.
  intros (Hsup & dirs & Hfp & Hfree & Hend). split; [done|].
  exists (replace_all backslash_one dir +:+ "/" +:+ dirs).
  split; [|split].
  - rewrite Hfp. f_equal. rewrite !one_for_one_app.
    rewrite (one_for_one_id (replace_all backslash_one path))
      by apply one_for_one_free.
    change (replace_all backslash_one "/") with "/".
    by rewrite !append_assoc.
  - rewrite !some_char_app, one_for_one_free, Hfree. done.
  - right. destruct Hend as [->|Hend].
    + rewrite append_nil_r. by apply ends_with_app.
    + by do 2 apply ends_with_app.
Qed.

Lemma traverse_spec (item : entry) :
  ∀ path, ∃ new,
    (∀ acc, traverseFileTree item acc path = (acc ++ new)%list)
    ∧ Forall (collected_under path) new.
Proof.
  induction item as [n f|dir es IH|n] using entry_nested_ind; intros path.
  - cbn [traverseFileTree].
    destruct (supported (set_fullPath _ f)) eqn:Hsup.
    + eexists [_]. split; [done|]. repeat constructor; [done|].
      exists EmptyString. split; [|by split; [|left]].
      by rewrite append_nil_l.
    + exists []. split; [|done]. intros acc. by rewrite app_nil_r.
  - assert (∃ new, (∀ acc, traverseEntries dir es acc path = (acc ++ new)%list)
                   ∧ Forall (collected_under path) new) as (new & Hnew & Hall).
    { induction IH as [|e es He Hes IHes].
      - exists []. split; [|done]. intros acc. simpl. by rewrite app_nil_r.
      - destruct IHes as (rest & Hrest & Hall).
        cbn [traverseEntries].
        destruct (Str.starts_with "._" (entry_name e)); simpl.
        + by exists rest.
        + destruct (He (replace_all backslash_one path +:+ dir +:+ "/"))
            as (mine & Hmine & Hmy).
          exists (mine ++ rest)%list. split.
          * intros acc. by rewrite Hmine, Hrest, app_assoc.
          * apply Forall_app. split; [|done].
            eapply Forall_impl; [exact Hmy|]. intros g.
            apply collected_under_directory. }
    exists new. split; [|done]. intros acc. by rewrite traverse_directory.
  - exists []. split; [|done]. intros acc. simpl. by rewrite app_nil_r.
Qed.

Lemma dropLoop_spec (items : list (option entry)) :
  ∃ new, (∀ acc, dropLoop items acc = (acc ++ new)%list)
         ∧ Forall (collected_under EmptyString) new.
Proof.
  induction items as [|[e|] items (rest & Hrest & Hall)].
  - exists []. split; [|done]. intros acc. simpl. by rewrite app_nil_r.
  - destruct (traverse_spec e EmptyString) as (mine & Hmine & Hmy).
    exists (mine ++ rest)%list. split.
    + intros acc. simpl. by rewrite Hmine, Hrest, app_assoc.
    + by apply Forall_app.
  - by exists rest.
Qed.

Lemma traverse_app (item : entry) (acc : list File) (path : string) :
  traverseFileTree item acc path = (acc ++ traverseFileTree item [] path)%list.
Proof.
  destruct (traverse_spec item path) as (new & Hnew & _).
  by rewrite (Hnew acc), (Hnew []).
Qed.

Lemma traverseEntries_elem (dir : string) (es : list entry) (path : string)
    (g : File) :
  ∀ acc,
    g ∈ traverseEntries dir es acc path
    ↔ g ∈ acc
      ∨ ∃ e, e ∈ es ∧ Str.starts_with "._" (entry_name e) = false
             ∧ g ∈ traverseFileTree e []
                     (replace_all backslash_one path +:+ dir +:+ "/").
Proof.
  induction es as [|e es IH]; intros acc.
  - simpl. split; [by left|]. intros [H|(e & He & _)]; [done|].
    by apply elem_of_nil in He.
  - cbn [traverseEntries].
    destruct (Str.starts_with "._" (entry_name e)) eqn:Hmeta; cbn [negb].
    + rewrite IH. split.
      * intros [H|(e' & He' & Hm & Hg)]; [by left|right].
        exists e'. split; [apply elem_of_cons; by right | done].
      * intros [H|(e' & [->|He']%elem_of_cons & Hm & Hg)]; [by left| |].
        -- congruence.
        -- right. by exists e'.
    + rewrite IH, traverse_app, elem_of_app. split.
      * intros [[H|H]|(e' & He' & Hm & Hg)]; [by left| |].
        -- right. exists e. split; [apply elem_of_cons; by left | done].
        -- right. exists e'. split; [apply elem_of_cons; by right | done].
      * intros [H|(e' & [->|He']%elem_of_cons & Hm & Hg)].
        -- left. by left.
        -- left. by right.
        -- right. by exists e'.
Qed.

Lemma placed_directory (path dir : string) (dirs : list string) (f : File) :
  placed (replace_all backslash_one path +:+ dir +:+ "/") dirs f
  = placed path (dir :: dirs) f.
Proof.
  unfold placed. f_equal. cbn [dirs_text]. rewrite !one_for_one_app.
  rewrite (one_for_one_id (replace_all backslash_one path))
    by apply one_for_one_free.
  change (replace_all backslash_one "/") with "/".
  by rewrite !append_assoc.
Qed.

Lemma supported_placed (path : string) (dirs : list string) (f : File) :
  supported (placed path dirs f) = supported f.
Proof. done. Qed.

(** The files a traversal adds are the supported files below the entry,
    each with the path of the directories passed to reach it. *)
Lemma traverse_reaches (item : entry) :
  ∀ path g,
    g ∈ traverseFileTree item [] path
    ↔ ∃ dirs f, reaches item dirs f ∧ supported f = true
                ∧ g = placed path dirs f.
Proof.
  induction item as [n f|dir es IH|n] using entry_nested_ind; intros path g.
  - cbn [traverseFileTree].
    assert (set_fullPath (replace_all backslash_one path +:+ name f) f
            = placed path [] f) as ->.
    { unfold placed. simpl. by rewrite append_nil_l. }
    rewrite supported_placed. split.
    + destruct (supported f) eqn:Hsup; simpl.
      * intros ->%list_elem_of_singleton. exists [], f.
        split; [constructor | done].
      * intros H. by apply elem_of_nil in H.
    + intros (dirs & f' & Hreach & Hsup & ->). inversion Hreach; subst.
      rewrite Hsup. simpl. by apply list_elem_of_singleton.
  - rewrite traverse_directory, traverseEntries_elem.
    rewrite Forall_forall in IH. split.
    + intros [H|(e & He & Hmeta & Hg)]; [by apply elem_of_nil in H|].
      apply (IH e He) in Hg as (dirs & f & Hreach & Hsup & ->).
      exists (dir :: dirs), f. split; [by econstructor|].
      split; [done|]. apply placed_directory.
    + intros (dirs & f & Hreach & Hsup & ->). right.
      inversion Hreach as [|? ? e dirs' ? He Hmeta Hbelow]; subst.
      exists e. split; [done|]. split; [done|].
      apply (IH e He). exists dirs', f. split; [done|]. split; [done|].
      symmetry. apply placed_directory.
  - simpl. split; [intros H; by apply elem_of_nil in H|].
    intros (dirs & f & Hreach & _). inversion Hreach.
Qed.

Lemma dropLoop_elem (items : list (option entry)) (g : File) :
  ∀ acc,
    g ∈ dropLoop items acc
    ↔ g ∈ acc
      ∨ ∃ e, Some e ∈ items ∧ g ∈ traverseFileTree e [] EmptyString.
Proof.
  induction items as [|[e|] items IH]; intros acc.
  - simpl. split; [by left|]. intros [H|(e & He & _)]; [done|].
    by apply elem_of_nil in He.
  - cbn [dropLoop]. rewrite IH, traverse_app, elem_of_app. split.
    + intros [[H|H]|(e' & He' & Hg)]; [by left| |].
      * right. exists e. split; [apply elem_of_cons; by left | done].
      * right. exists e'. split; [apply elem_of_cons; by right | done].
    + intros [H|(e' & [[= ->]|He']%elem_of_cons & Hg)].
      * left. by left.
      * left. by right.
      * right. by exists e'.
  - cbn [dropLoop]. rewrite IH. split.
    + intros [H|(e' & He' & Hg)]; [by left|right].
      exists e'. split; [apply elem_of_cons; by right | done].
    + intros [H|(e' & [?|He']%elem_of_cons & Hg)]; [by left|done|].
      right. by exists e'.
Qed.

(** X20: the traversal of a dropped entry adds files to the list and
    does nothing else to it.  The files it adds are the supported files
    below the entry, entries whose name starts with a dot and an
    underscore apart, and no others; each has as [fullPath] the
    normalised path the traversal was started with, then the directories
    passed to reach it, from the entry down, each with its backslashes
    turned into slashes and followed by a slash, then the file's name.
    The same holds of the files the drop handler hands over, from the
    entries of the items and with an empty starting path. *)
Theorem traversal_collects_supported_files
    (item : entry) (acc : list File) (path : string)
    (items : list (option entry)) :
  traverseFileTree item acc path = (acc ++ traverseFileTree item [] path)%list
  ∧ (∀ g, g ∈ traverseFileTree item [] path
          ↔ ∃ dirs f, reaches item dirs f ∧ supported f = true
                      ∧ g = placed path dirs f)
  ∧ (∀ g, g ∈ dropLoop items []
          ↔ ∃ e dirs f, Some e ∈ items ∧ reaches e dirs f
                        ∧ supported f = true
                        ∧ g = placed EmptyString dirs f)
  ∧ Forall (collected_under path) (traverseFileTree item [] path)
  ∧ Forall (collected_under EmptyString) (dropLoop items []).
Proof.
  split; [apply traverse_app|]. split; [apply traverse_reaches|]. split.
  - intros g. rewrite dropLoop_elem. split.
    + intros [H|(e & He & Hg)]; [by apply elem_of_nil in H|].
      apply traverse_reaches in Hg as (dirs & f & Hreach & Hsup & ->).
      by exists e, dirs, f.
    + intros (e & dirs & f & He & Hreach & Hsup & ->). right.
      exists e. split; [done|]. apply traverse_reaches. by exists dirs, f.
  - destruct (traverse_spec item path) as (new & Hnew & Hall).
    destruct (dropLoop_spec items) as (dropped & Hdropped & Hdrop).
    by rewrite (Hnew []), (Hdropped []).
Qed.

Lemma traversal_collects_supported_files_witness :
  placed EmptyString ["proj"; "src\lib"] (mkFile "m.py" (Some EmptyString) None)
  = mkFile "m.py" (Some EmptyString) (Some "proj/src/lib/m.py")
  ∧ mkFile "m.py" (Some EmptyString) (Some "proj/src/lib/m.py")
    ∈ traverseFileTree dropped_folder [] EmptyString
  ∧ mkFile "m.py" (Some EmptyString) (Some "proj/src/lib/m.py")
    ∈ dropLoop [None; Some dropped_folder] [].
Proof.
  destruct (traversal_collects_supported_files dropped_folder [] EmptyString
              [None; Some dropped_folder]) as (_ & Hone & Hdrop & _).
  assert (reaches dropped_folder ["proj"; "src\lib"]
            (mkFile "m.py" (Some EmptyString) None)) as Hreach.
  { unfold dropped_folder.
    eapply reaches_dir; [| |eapply reaches_dir; [| |apply reaches_file]].
    - do 3 (apply elem_of_cons; right). apply elem_of_cons. by left.
    - done.
    - apply elem_of_cons. by left.
    - done. }
  split; [by vm_compute|]. split.
  - apply Hone. eexists _, _. split; [exact Hreach|]. split; by vm_compute.
  - apply Hdrop. eexists _, _, _.
    split; [apply elem_of_cons; right; apply elem_of_cons; by left|].
    split; [exact Hreach|]. split; by vm_compute.
Defined.

Lemma starts_with_mem (c : ascii) (p s : string) :
  Str.starts_with p s = true → Str.mem c p = true → Str.mem c s = true.
Proof.
  revert s. induction p as [|a p IH]; intros [|b s]; simpl; try done.
  intros [Hab Hps]%andb_true_iff [Hc|Hc]%orb_true_iff.
  - apply Ascii.eqb_eq in Hab as <-. by rewrite Hc.
  - rewrite (IH s Hps Hc). apply orb_true_r.
Qed.

Lemma mem_drop (c : ascii) (k : nat) (s : string) :
  Str.mem c (Str.drop k s) = true → Str.mem c s = true.
Proof.
  revert k. induction s as [|d s IH]; intros [|k]; simpl; try done.
  intros H. rewrite (IH k H). apply orb_true_r.
Qed.

Lemma mem_some_char (p : ascii → bool) (c : ascii) (s : string) :
  p c = true → Str.mem c s = true → some_char p s = true.
Proof.
  intros Hp. induction s as [|d s IH]; [done|]. simpl.
  intros [Hc|Hc]%orb_true_iff.
  - apply Ascii.eqb_eq in Hc as <-. by rewrite Hp.
  - rewrite (IH Hc). apply orb_true_r.
Qed.

(** A supported name holds a dot. *)
Lemma supported_name (f : File) :
  supported f = true → Str.mem "." (name f) = true.
Proof.
  unfold supported, Str.ends_with.
  intros [[H|H]%orb_true_iff _]%andb_true_iff;
    apply andb_true_iff in H as [_ H];
    eapply mem_drop, starts_with_mem; done.
Qed.

(** X21: a file collected from a drop, its picker hint being absent or
    empty as it is for the files an entry yields, is taken by the tree
    builder at the path the traversal gave it: that path is its hint, it
    normalises to a path with at least one segment, and writing the
    normalised path back does not change it. *)
Theorem collected_files_have_a_place (path : string) (g : File) :
  collected_under path g →
  or_text (webkitRelativePath g) None = None →
  (∃ p, fullPath g = Some p ∧ hint g = p ∧ normalizeFilePath g = slashes p)
  ∧ path_parts (normalizeFilePath g) ≠ []
  ∧ stable g = true
  ∧ normalizeFilePath (set_fullPath (normalizeFilePath g) g) = normalizeFilePath g.
Proof.
  intros (Hsup & dirs & Hfp & _) Hwrp.
  pose proof (supported_name g Hsup) as Hdot.
  set (p := replace_all backslash_one path +:+ dirs +:+ name g) in *.
  assert (Str.mem "." p = true) as Hp.
  { unfold p. by rewrite !mem_app, Hdot, !orb_true_r. }
  assert (hint g = p) as Hhint.
  { unfold hint. rewrite Hfp.
    destruct (webkitRelativePath g) as [[|c w]|]; try done;
      simpl; by destruct p. }
  assert (Str.nonempty (hint g) = true) as Hne by (rewrite Hhint; by destruct p).
  assert (stable g = true) as Hst by (unfold stable; by rewrite Hne).
  split; [exists p; split; [done|]; split; [done|] |split; [|split; [done|]]].
  - unfold normalizeFilePath. by rewrite Hne, Hhint.
  - apply canonical_nonempty. unfold path_source. rewrite Hne, Hhint.
    by apply (mem_some_char _ ".").
  - by apply written_back.
Qed.

Lemma collected_files_have_a_place_witness :
  path_parts (normalizeFilePath
                (mkFile "m.py" (Some EmptyString) (Some "proj/src/lib/m.py"))) ≠ []
  ∧ stable (mkFile "m.py" (Some EmptyString) (Some "proj/src/lib/m.py")) = true.
Proof.
  destruct (collected_files_have_a_place "proj\"
              (mkFile "m.py" (Some EmptyString) (Some "proj/src/lib/m.py")))
    as (_ & Hparts & Hst & _); [| done | done].
  split; [by vm_compute|]. exists "src/lib/".
  split; [by vm_compute|]. split; [by vm_compute|]. right. by vm_compute.
Defined.

(** The traversal on a folder with a nested folder whose name is written
    with a backslash, a metadata entry and a file that is not supported. *)
Example traversal_of_a_dropped_folder :
  traverseFileTree dropped_folder [] EmptyString
  = [mkFile "a.ipynb" (Some EmptyString) (Some "proj/a.ipynb");
     mkFile "m.py" (Some EmptyString) (Some "proj/src/lib/m.py")].
Proof. by vm_compute. Qed.

(** ** initGallery *)

(** X22: the gallery is built from the supported files alone.  Without
    one, an alert is raised and nothing changes.  Otherwise, the
    supported files being admissible, the path is emptied and the new
    folder structure lists under each folder path the supported files of
    that folder, in input order; files that are not supported are in no
    list and are left as they are. *)
Theorem initGallery_effect (files : list ref) (σ : store) (st : @session node) :
  ((∀ f, f ∈ files → supported (σ f) = false) →
   initGallery files σ st = Ok (σ, st, [no_files_found]))
  ∧ ((∃ f, f ∈ files ∧ supported (σ f) = true) →
     (∀ f, f ∈ files → supported (σ f) = true → admissible (σ f) = true) →
     ∃ σ' tree,
       initGallery files σ st = Ok (σ', Session tree [] (console st), [])
       ∧ (∀ d g, g ∈ list_at tree d
                 ↔ g ∈ files ∧ supported (σ g) = true
                   ∧ folders (canonical σ g) = d)
       ∧ (∀ g, supported (σ g) = false → σ' g = σ g)).
Proof.
  unfold initGallery.
  set (supportedFiles := filter (λ f, supported (σ f) = true) files).
  split.
  - intros Hnone. assert (supportedFiles = []) as ->; [|done].
    destruct supportedFiles as [|f rest] eqn:E; [done|].
    assert (f ∈ supportedFiles) as [Hf Hfiles]%list_elem_of_filter
      by (rewrite E; apply elem_of_cons; by left).
    by rewrite (Hnone f Hfiles) in Hf.
  - intros (f & Hf & Hsup) Hadm.
    assert (f ∈ supportedFiles) as Hin by by apply list_elem_of_filter.
    destruct (buildLoop_shaped supportedFiles σ (Obj ∅) shaped_empty)
      as (σ' & tree & Hloop & _ & Hlist).
    { intros g [Hg Hgf]%list_elem_of_filter. by apply Hadm. }
    exists σ', tree. unfold buildTree. rewrite Hloop. simpl.
    split; [by destruct supportedFiles; [apply elem_of_nil in Hin|]|].
    split.
    + intros d g. rewrite Hlist, list_at_empty. simpl. unfold in_folder.
      rewrite list_elem_of_filter. unfold supportedFiles.
      rewrite list_elem_of_filter. tauto.
    + intros g Hg.
      destruct (buildLoop_store _ _ _ _ _ Hloop) as (Hout & _).
      apply Hout. intros [Hs _]%list_elem_of_filter. congruence.
Qed.

Lemma initGallery_effect_witness :
  initGallery [0%nat] (store_of [mkFile "notes.txt" None None])
    (Session (Obj ∅) ["old"] [])
  = Ok (store_of [mkFile "notes.txt" None None], Session (Obj ∅) ["old"] [],
        [no_files_found])
  ∧ ∃ σ' tree,
      initGallery [0; 1; 2]%nat scenario_store (Session (Obj ∅) ["old"] [])
      = Ok (σ', Session tree [] [], [])
      ∧ (∀ d g, g ∈ list_at tree d
                ↔ g ∈ [0; 1; 2]%nat ∧ supported (scenario_store g) = true
                  ∧ folders (canonical scenario_store g) = d).
Proof.
  split.
  - apply (proj1 (initGallery_effect _ _ _)).
    intros f Hf%list_elem_of_In. simpl in Hf.
    by repeat (destruct Hf as [<-|Hf]; [by vm_compute|]).
  - destruct (proj2 (initGallery_effect [0; 1; 2]%nat scenario_store
                       (Session (Obj ∅) ["old"] [])))
      as (σ' & tree & Hinit & Hlist & _).
    + exists 0%nat. split; [|by vm_compute]. apply list_elem_of_In. simpl. tauto.
    + intros f Hf%list_elem_of_In _. simpl in Hf.
      by repeat (destruct Hf as [<-|Hf]; [by vm_compute|]).
    + by exists σ', tree.
Defined.

(** ** Moving through the folders *)

Section FolderFacts.

Context {value : Type}.
Variable read : value → string → option value.

Lemma resolve_app (node : value) (a b : list string) :
  resolve read node (a ++ b)%list = (resolve read node a ≫= λ m, resolve read m b).
Proof.
  revert node. induction a as [|p a IH]; intros node; [done|]. simpl.
  destruct (read node p) as [child|]; simpl; [apply IH|done].
Qed.

Lemma resolve_prefix (node n : value) (path : list string) (k : nat) :
  resolve read node path = Some n →
  ∃ m, resolve read node (take k path) = Some m
       ∧ resolve read m (drop k path) = Some n.
Proof.
  intros H. rewrite <- (take_drop k path), resolve_app in H.
  destruct (resolve read node (take k path)) as [m|]; [|done]. by exists m.
Qed.

Lemma unguarded_resolved (node n : value) (path : list string) :
  resolve read node path = Some n →
  unguardedLoop read path (Some node) = Ok (Some n).
Proof.
  revert node. induction path as [|p path IH]; intros node; simpl.
  - by intros [= ->].
  - destruct (read node p) as [child|]; simpl; [apply IH|done].
Qed.

Lemma jump_in_step (i : nat) (st : @session value) :
  in_step read (jumpToBreadcrumb read i st).1 (jumpToBreadcrumb read i st).2.
Proof.
  unfold in_step, jumpToBreadcrumb.
  destruct (resolve read (folderStructure st) (take (S i) (currentPath st)))
    as [n|] eqn:E.
  - by rewrite (resolveLoop_resolved read _ _ _ _ n E).
  - by destruct (resolveLoop_missing read (folderStructure st)
                   (take (S i) (currentPath st)) _ _ E) as (p & _ & _ & ->).
Qed.

(** X23: the view and the path stay in step.  Whatever the session, a
    breadcrumb leaves a path that leads from the root to the node it
    shows, and so does the root breadcrumb; entering a folder of the
    node shown keeps it so; and then [getCurrentNode] returns the node
    shown. *)
Theorem view_follows_path (st : @session value) :
  (∀ i, in_step read (jumpToBreadcrumb read i st).1 (jumpToBreadcrumb read i st).2)
  ∧ in_step read (jumpToRoot st).1 (jumpToRoot st).2
  ∧ (∀ shown name child,
       in_step read st shown → read shown name = Some child →
       (enterFolder read name st shown).2 = Some child
       ∧ in_step read (enterFolder read name st shown).1 child)
  ∧ (∀ shown, in_step read st shown → getCurrentNode read st = Ok (Some shown)).
Proof.
  split; [intros i; apply jump_in_step|]. split; [done|]. split.
  - intros shown name child Hstep Hread. split; [done|].
    unfold in_step, enterFolder in *. simpl.
    rewrite resolve_app, Hstep. simpl. by rewrite Hread.
  - intros shown Hstep. by apply unguarded_resolved.
Qed.

(** X24: on a path that leads somewhere, a breadcrumb never falls back:
    the breadcrumb of index [i] keeps the first [i+1] segments, shows
    the node they lead to, from which the rest of the old path leads to
    the node shown before, and logs nothing; the last breadcrumb changes
    nothing; and after entering a folder, the breadcrumb that was the
    last one before leads back. *)
Theorem breadcrumbs_on_a_valid_path (st : @session value) (shown : value) :
  in_step read st shown →
  (∀ i, (i < List.length (currentPath st))%nat →
        ∃ m, jumpToBreadcrumb read i st
             = (Session (folderStructure st) (take (S i) (currentPath st))
                  (console st), m)
             ∧ resolve read m (drop (S i) (currentPath st)) = Some shown)
  ∧ (∀ i, (List.length (currentPath st) ≤ S i)%nat →
          jumpToBreadcrumb read i st = (st, shown))
  ∧ (∀ name child i,
       read shown name = Some child →
       S i = List.length (currentPath st) →
       jumpToBreadcrumb read i (enterFolder read name st shown).1 = (st, shown)).
Proof.
  intros Hstep. unfold in_step in Hstep.
  assert (∀ i, ∃ m, jumpToBreadcrumb read i st
             = (Session (folderStructure st) (take (S i) (currentPath st))
                  (console st), m)
             ∧ resolve read m (drop (S i) (currentPath st)) = Some shown) as Hjump.
  { intros i.
    destruct (resolve_prefix _ _ _ (S i) Hstep) as (m & Hm & Hrest).
    exists m. split; [|done]. unfold jumpToBreadcrumb.
    rewrite (resolveLoop_resolved read _ _ _ _ m Hm). by rewrite app_nil_r. }
  split; [intros i _; apply Hjump|]. split.
  - intros i Hi. destruct (Hjump i) as (m & -> & Hm).
    rewrite drop_ge in Hm by done. rewrite take_ge by done.
    injection Hm as ->. by destruct st.
  - intros name child i Hread Hi. unfold jumpToBreadcrumb, enterFolder. simpl.
    rewrite take_app_length' by done.
    rewrite (resolveLoop_resolved read _ _ _ _ shown Hstep).
    rewrite app_nil_r. by destruct st.
Qed.

End FolderFacts.

Lemma breadcrumbs_on_a_valid_path_witness :
  jumpToBreadcrumb own 0 inside_b
  = (Session scenario_tree ["a"] [],
     Obj {[ "b" := Obj {[ "files" := Arr [0%nat] ∅ ]};
            "files" := Arr [1%nat] ∅ ]})
  ∧ jumpToBreadcrumb own 1 inside_b
    = (inside_b, Obj {[ "files" := Arr [0%nat] ∅ ]}).
Proof.
  destruct (breadcrumbs_on_a_valid_path own inside_b
              (Obj {[ "files" := Arr [0%nat] ∅ ]}))
    as (Hany & Hlast & _); [by vm_compute|].
  split; [|apply Hlast; simpl; lia].
  destruct (Hany 0%nat) as (m & Hjump & Hm); [simpl; lia|].
  rewrite Hjump. f_equal.
  pose proof (jump_in_step own 0 inside_b) as Hstep.
  rewrite Hjump in Hstep. unfold in_step in Hstep. simpl in Hstep.
  vm_compute in Hstep. by injection Hstep as <-.
Defined.

(** ** The cursor of the carousel *)

Lemma indexFrom_range (x : string) (l : list string) (k : Z) :
  (indexFrom x l k = -1 ∨ k ≤ indexFrom x l k < k + Z.of_nat (List.length l))%Z.
Proof.
  revert k. induction l as [|y l IH]; intros k; [by left|]. simpl.
  destruct (bool_decide (y = x)); [right; lia|].
  destruct (IH (k + 1)%Z) as [->|H]; [by left | right; lia].
Qed.

Lemma updateNavigationButtons_frame (v : viewer) :
  cardMap (updateNavigationButtons v) = cardMap v
  ∧ gallery (updateNavigationButtons v) = gallery v
  ∧ navigationCardIds (updateNavigationButtons v) = navigationCardIds v
  ∧ currentCardIndex (updateNavigationButtons v) = currentCardIndex v
  ∧ viewerTitle (updateNavigationButtons v) = viewerTitle v
  ∧ viewerBody (updateNavigationButtons v) = viewerBody v
  ∧ modalShown (updateNavigationButtons v) = modalShown v
  ∧ alerts (updateNavigationButtons v) = alerts v.
Proof.
  unfold updateNavigationButtons.
  by destruct (prevButton v), (nextButton v).
Qed.

Section CarouselFacts.

Variable JSON_parse : string → option json.

Lemma loadNotebookInModal_title (m : meta) (v v' : viewer) :
  loadNotebookInModal JSON_parse m v = Ok v' → viewerTitle v' = filename m.
Proof.
  unfold loadNotebookInModal. destruct (type m).
  - destruct (JSON_parse (raw m)) as [nb|].
    + destruct (renderFullNotebook nb); simpl; [|done..]. by intros [= <-].
    + by intros [= <-].
  - by intros [= <-].
Qed.

Lemma loadNotebookInModal_quiet (m : meta) (v v' : viewer) :
  (type m = IPYNB → is_Some (JSON_parse (raw m))) →
  loadNotebookInModal JSON_parse m v = Ok v' → alerts v' = alerts v.
Proof.
  unfold loadNotebookInModal. intros Hparse. destruct (type m).
  - destruct (Hparse eq_refl) as [nb ->].
    destruct (renderFullNotebook nb); simpl; [|done..]. by intros [= <-].
  - by intros [= <-].
Qed.

Lemma showCurrent_frame (v v' : viewer) :
  showCurrent JSON_parse v = Ok v' →
  cardMap v' = cardMap v ∧ gallery v' = gallery v
  ∧ navigationCardIds v' = navigationCardIds v
  ∧ currentCardIndex v' = currentCardIndex v.
Proof.
  unfold showCurrent.
  destruct (at_index _ _ ≫= _) as [m|]; [|by intros [= <-]].
  destruct (loadNotebookInModal JSON_parse m v) as [v1| |] eqn:Hload;
    simpl; [|done..].
  intros [= <-].
  destruct (updateNavigationButtons_frame v1) as (-> & -> & -> & -> & _).
  by apply loadNotebookInModal_frame in Hload as (-> & -> & -> & -> & _).
Qed.

Lemma showCurrent_quiet (v v' : viewer) :
  parsed_on_entry JSON_parse v →
  showCurrent JSON_parse v = Ok v' → alerts v' = alerts v.
Proof.
  unfold showCurrent. intros Hparsed.
  destruct (at_index (navigationCardIds v) (currentCardIndex v)) as [id|];
    simpl; [|by intros [= <-]].
  destruct (cardMap v !! id) as [m|] eqn:Hm; [|by intros [= <-]].
  destruct (loadNotebookInModal JSON_parse m v) as [v1| |] eqn:Hload;
    simpl; [|done..].
  intros [= <-].
  apply loadNotebookInModal_quiet in Hload; [|by apply (Hparsed id)].
  by destruct (updateNavigationButtons_frame v1) as (_ & _ & _ & _ & _ & _ & _ & ->).
Qed.

Lemma updateNavigationButtons_buttons (v : viewer) (pb nb : button) :
  prevButton v = Some pb → nextButton v = Some nb →
  available (prevButton (updateNavigationButtons v))
  = (0 <? currentCardIndex v)%Z
  ∧ available (nextButton (updateNavigationButtons v))
    = (currentCardIndex v <? Z.of_nat (List.length (navigationCardIds v)) - 1)%Z.
Proof.
  intros Hp Hn. unfold updateNavigationButtons. rewrite Hp, Hn. simpl.
  by rewrite !negb_involutive.
Qed.

Lemma at_index_nat (l : list string) (i : nat) : at_index l (Z.of_nat i) = l !! i.
Proof.
  unfold at_index.
  replace (Z.of_nat i <? 0)%Z with false by (symmetry; apply Z.ltb_ge; lia).
  by rewrite Nat2Z.id.
Qed.

Lemma showCurrent_load (v : viewer) (id : string) (m : meta) :
  at_index (navigationCardIds v) (currentCardIndex v) = Some id →
  cardMap v !! id = Some m →
  showCurrent JSON_parse v
  = (v' ← loadNotebookInModal JSON_parse m v; Ok (updateNavigationButtons v')).
Proof. intros Hid Hm. unfold showCurrent. rewrite Hid. simpl. by rewrite Hm. Qed.

Lemma navigateNext_step (v : viewer) :
  (currentCardIndex v < Z.of_nat (List.length (navigationCardIds v)) - 1)%Z →
  available (nextButton v) = true →
  navigateNext JSON_parse v
  = showCurrent JSON_parse (with_index (currentCardIndex v + 1)%Z v).
Proof.
  intros Hlt%Z.ltb_lt Hb. unfold navigateNext. rewrite Hlt.
  destruct (nextButton v) as [b|]; [|done]. simpl in Hb. by rewrite Hb.
Qed.

Lemma navigatePrevious_step (v : viewer) :
  (0 < currentCardIndex v)%Z →
  available (prevButton v) = true →
  navigatePrevious JSON_parse v
  = showCurrent JSON_parse (with_index (currentCardIndex v - 1)%Z v).
Proof.
  intros Hlt%Z.ltb_lt Hb. unfold navigatePrevious. rewrite Hlt.
  destruct (prevButton v) as [b|]; [|done]. simpl in Hb. by rewrite Hb.
Qed.

(** What showing the card under the cursor leaves, the card rendering. *)
Lemma showCurrent_shown (v : viewer) (i : nat) (id : string) (m : meta)
    (pb nb : button) :
  prevButton v = Some pb → nextButton v = Some nb →
  currentCardIndex v = Z.of_nat i →
  navigationCardIds v !! i = Some id →
  cardMap v !! id = Some m →
  renders JSON_parse m →
  ∃ v',
    showCurrent JSON_parse v = Ok v'
    ∧ cardMap v' = cardMap v
    ∧ navigationCardIds v' = navigationCardIds v
    ∧ currentCardIndex v' = Z.of_nat i
    ∧ viewerTitle v' = filename m
    ∧ is_Some (prevButton v') ∧ is_Some (nextButton v')
    ∧ available (prevButton v') = bool_decide (0 < i)%nat
    ∧ available (nextButton v')
      = bool_decide (S i < List.length (navigationCardIds v))%nat.
Proof.
  intros Hpb Hnb Hidx Hid Hm Hr.
  destruct (loadNotebookInModal_renders JSON_parse m v Hr) as [v1 Hload].
  pose proof (loadNotebookInModal_title _ _ _ Hload) as Htitle.
  pose proof (loadNotebookInModal_frame _ _ _ _ Hload)
    as (Hmap & _ & Hids & Hcur & Hprev & Hnxt & _).
  rewrite Hpb in Hprev. rewrite Hnb in Hnxt.
  destruct (updateNavigationButtons_frame v1)
    as (Hmap' & _ & Hids' & Hcur' & Htitle' & _).
  destruct (updateNavigationButtons_buttons v1 pb nb Hprev Hnxt) as [Hp Hn].
  exists (updateNavigationButtons v1). split.
  { rewrite (showCurrent_load v id m); [by rewrite Hload | | done].
    by rewrite Hidx, at_index_nat. }
  split; [by rewrite Hmap', Hmap|]. split; [by rewrite Hids', Hids|].
  split; [by rewrite Hcur', Hcur|]. split; [by rewrite Htitle'|].
  assert (is_Some (prevButton (updateNavigationButtons v1))
          ∧ is_Some (nextButton (updateNavigationButtons v1))) as [? ?].
  { unfold updateNavigationButtons. rewrite Hprev, Hnxt. simpl. by split; eexists. }
  do 2 (split; [done|]).
  rewrite Hp, Hn, Hcur, Hids, Hidx. split.
  - destruct (decide (0 < i)%nat).
    + rewrite bool_decide_eq_true_2 by done. apply Z.ltb_lt. lia.
    + rewrite bool_decide_eq_false_2 by done. apply Z.ltb_ge. lia.
  - destruct (decide (S i < List.length (navigationCardIds v))%nat).
    + rewrite bool_decide_eq_true_2 by done. apply Z.ltb_lt. lia.
    + rewrite bool_decide_eq_false_2 by done. apply Z.ltb_ge. lia.
Qed.

(** X25: a step forward that is offered moves the cursor to the next
    card of the captured list and shows it: the title is its file name,
    the list is the same, a step back is then offered and a further step
    forward exactly when the new position is not the last; and the step
    back then returns the cursor and shows the card left before. *)
Theorem step_forward_and_back
    (v : viewer) (i : nat) (id id' : string) (m m' : meta) :
  is_Some (prevButton v) →
  available (nextButton v) = true →
  currentCardIndex v = Z.of_nat i →
  navigationCardIds v !! i = Some id →
  navigationCardIds v !! S i = Some id' →
  cardMap v !! id = Some m → cardMap v !! id' = Some m' →
  renders JSON_parse m → renders JSON_parse m' →
  ∃ v' v'',
    navigateNext JSON_parse v = Ok v'
    ∧ currentCardIndex v' = Z.of_nat (S i)
    ∧ navigationCardIds v' = navigationCardIds v
    ∧ viewerTitle v' = filename m'
    ∧ available (prevButton v') = true
    ∧ available (nextButton v')
      = bool_decide (S (S i) < List.length (navigationCardIds v))%nat
    ∧ navigatePrevious JSON_parse v' = Ok v''
    ∧ currentCardIndex v'' = Z.of_nat i
    ∧ viewerTitle v'' = filename m
    ∧ available (nextButton v'') = true.
Proof.
  intros [pb Hpb] Hnext Hidx Hid Hid' Hm Hm' Hr Hr'.
  destruct (nextButton v) as [nb|] eqn:Hnb; [|done].
  pose proof (lookup_lt_Some _ _ _ Hid') as Hlt.
  destruct (showCurrent_shown (with_index (Z.of_nat (S i)) v) (S i) id' m' pb nb)
    as (v' & Hshow & Hmap & Hids & Hcur & Htitle & [pb' Hpb'] & [nb' Hnb']
        & Hprev & Hnxt); try done.
  simpl in Hmap, Hids.
  destruct (showCurrent_shown (with_index (Z.of_nat i) v') i id m pb' nb')
    as (v'' & Hshow' & _ & Hids' & Hcur' & Htitle' & _ & _ & _ & Hnxt');
    try done.
  { simpl. by rewrite Hids. }
  { simpl. by rewrite Hmap. }
  simpl in Hids'.
  exists v', v''. split.
  { rewrite navigateNext_step; [| rewrite Hidx; lia | by rewrite Hnb].
    rewrite Hidx. by replace (Z.of_nat i + 1)%Z with (Z.of_nat (S i)) by lia. }
  do 3 (split; [done|]).
  split; [rewrite Hprev; apply bool_decide_eq_true_2; lia|].
  split; [done|]. split.
  { rewrite navigatePrevious_step;
      [| rewrite Hcur; lia | rewrite Hprev; apply bool_decide_eq_true_2; lia].
    rewrite Hcur. by replace (Z.of_nat (S i) - 1)%Z with (Z.of_nat i) by lia. }
  do 2 (split; [done|]).
  rewrite Hnxt'. simpl. rewrite Hids. by apply bool_decide_eq_true_2.
Qed.

(** X26: the cursor never leaves the captured list: opening a card,
    stepping back and stepping forward leave it on a position of the
    list or just before the first, and on a position from 0 on the list
    has an id; closing the viewer puts it before an empty list, where
    both steps do nothing. *)
Theorem cursor_stays_in_range (v : viewer) :
  cursor_in_range v →
  (∀ id v', openNotebookModal JSON_parse id v = Ok v' → cursor_in_range v')
  ∧ (∀ v', navigatePrevious JSON_parse v = Ok v' → cursor_in_range v')
  ∧ (∀ v', navigateNext JSON_parse v = Ok v' → cursor_in_range v')
  ∧ ((0 ≤ currentCardIndex v)%Z →
     is_Some (at_index (navigationCardIds v) (currentCardIndex v)))
  ∧ cursor_in_range (closeModal v)
  ∧ navigatePrevious JSON_parse (closeModal v) = Ok (closeModal v)
  ∧ navigateNext JSON_parse (closeModal v) = Ok (closeModal v).
Proof.
  unfold cursor_in_range. intros Hv.
  split; [|split; [|split; [|split; [|split; [|done]]]]].
  - intros id v'. unfold openNotebookModal.
    destruct (cardMap v !! id) as [m|]; [|by intros [= <-]].
    destruct (loadNotebookInModal JSON_parse m _) as [v1| |] eqn:Hload;
      simpl; [|done..].
    intros [= <-]. simpl.
    apply loadNotebookInModal_frame in Hload as (_ & _ & Hids & Hcur & _).
    destruct (updateNavigationButtons_frame v1) as (_ & _ & -> & -> & _).
    rewrite Hids, Hcur. simpl. unfold indexOf.
    pose proof (indexFrom_range id (getAllCardIds (gallery v)) 0). lia.
  - intros v'. unfold navigatePrevious.
    destruct (0 <? currentCardIndex v)%Z eqn:Hpos; [|by intros [= <-]].
    apply Z.ltb_lt in Hpos.
    destruct (prevButton v) as [b|]; [|done].
    destruct (negb (disabled b)); [|by intros [= <-]].
    intros (_ & _ & -> & ->)%showCurrent_frame. simpl. lia.
  - intros v'. unfold navigateNext.
    destruct (currentCardIndex v <? _)%Z eqn:Hlast; [|by intros [= <-]].
    apply Z.ltb_lt in Hlast.
    destruct (nextButton v) as [b|]; [|done].
    destruct (negb (disabled b)); [|by intros [= <-]].
    intros (_ & _ & -> & ->)%showCurrent_frame. simpl. lia.
  - intros Hpos. unfold at_index.
    replace (currentCardIndex v <? 0)%Z with false by (symmetry; apply Z.ltb_ge; lia).
    apply lookup_lt_is_Some. lia.
  - simpl. lia.
Qed.

(** X27: the parse error of the viewer cannot be reached through the
    cards.  A card is registered only once its preview has rendered, so
    that every notebook of the map has a text that parses; this holds of
    an empty map and is kept by registering, opening, stepping, closing
    and clearing; and under it opening a card or stepping raises no
    alert.  A card that shows the error text is not registered. *)
Theorem registered_cards_parse (v : viewer) :
  parsed_on_entry JSON_parse v →
  (∀ ext file_name result id i,
     parsed_on_entry JSON_parse (onload JSON_parse ext file_name result id i v).1
     ∧ ((onload JSON_parse ext file_name result id i v).2 = Text "Error parsing"
        → (onload JSON_parse ext file_name result id i v).1 = v)
     ∧ (∀ html, (onload JSON_parse ext file_name result id i v).2 = Markup html →
          cardMap (onload JSON_parse ext file_name result id i v).1 !! id
          = Some (Meta file_name result ext)))
  ∧ (∀ id v', openNotebookModal JSON_parse id v = Ok v' →
              parsed_on_entry JSON_parse v' ∧ alerts v' = alerts v)
  ∧ (∀ v', navigatePrevious JSON_parse v = Ok v' →
           parsed_on_entry JSON_parse v' ∧ alerts v' = alerts v)
  ∧ (∀ v', navigateNext JSON_parse v = Ok v' →
           parsed_on_entry JSON_parse v' ∧ alerts v' = alerts v)
  ∧ parsed_on_entry JSON_parse (closeModal v)
  ∧ parsed_on_entry JSON_parse (clearCards v).
Proof.
  intros Hparsed.
  assert (∀ v', cardMap v' = cardMap v → parsed_on_entry JSON_parse v') as Hsame.
  { intros v' E id m. rewrite E. apply Hparsed. }
  split; [|split; [|split; [|split; [|split]]]].
  - intros ext file_name result id i. unfold onload.
    assert (∀ nb, (ext = IPYNB → JSON_parse result = Some nb) →
              parsed_on_entry JSON_parse
                (with_registered i id (Meta file_name result ext) v)) as Hreg.
    { intros nb Hnb id' m. simpl.
      destruct (decide (id' = id)) as [->|Hne].
      - rewrite lookup_insert_eq. intros [= <-]. simpl. intros E.
        rewrite (Hnb E). by eexists.
      - rewrite lookup_insert_ne by done. apply Hparsed. }
    destruct ext.
    + destruct (JSON_parse result) as [nb|] eqn:Hnb; [|done].
      destruct (renderNotebookPreview nb) as [html| |]; [|done..].
      split; [by apply (Hreg nb)|]. split; [done|]. intros _ _. simpl.
      by rewrite lookup_insert_eq.
    + split; [by apply (Hreg JNull)|]. split; [done|]. intros _ _. simpl.
      by rewrite lookup_insert_eq.
  - intros id v'. unfold openNotebookModal.
    destruct (cardMap v !! id) as [m|] eqn:Hm; [|by intros [= <-]].
    destruct (loadNotebookInModal JSON_parse m _) as [v1| |] eqn:Hload;
      simpl; [|done..].
    intros [= <-].
    pose proof (loadNotebookInModal_quiet _ _ _ (Hparsed id m Hm) Hload) as Hq.
    apply loadNotebookInModal_frame in Hload as (Hmap & _).
    destruct (updateNavigationButtons_frame v1)
      as (Hmap' & _ & _ & _ & _ & _ & _ & Halerts).
    split; [apply Hsame; simpl; by rewrite Hmap', Hmap|].
    simpl. by rewrite Halerts, Hq.
  - intros v'. unfold navigatePrevious.
    destruct (0 <? currentCardIndex v)%Z; [|by intros [= <-]].
    destruct (prevButton v) as [b|]; [|done].
    destruct (negb (disabled b)); [|by intros [= <-]].
    intros Hshow. split.
    + apply showCurrent_frame in Hshow as (Hmap & _). by apply Hsame.
    + by apply showCurrent_quiet in Hshow; [|apply Hsame].
  - intros v'. unfold navigateNext.
    destruct (currentCardIndex v <? _)%Z; [|by intros [= <-]].
    destruct (nextButton v) as [b|]; [|done].
    destruct (negb (disabled b)); [|by intros [= <-]].
    intros Hshow. split.
    + apply showCurrent_frame in Hshow as (Hmap & _). by apply Hsame.
    + by apply showCurrent_quiet in Hshow; [|apply Hsame].
  - by apply Hsame.
  - intros id m. simpl. by rewrite lookup_empty.
Qed.

End CarouselFacts.

Lemma step_forward_and_back_witness :
  ∃ v' v'',
    navigateNext no_parse (with_navigation ["a"; "b"; "c"] 0 three_scripts) = Ok v'
    ∧ currentCardIndex v' = 1%Z
    ∧ viewerTitle v' = "b.py"
    ∧ navigatePrevious no_parse v' = Ok v''
    ∧ currentCardIndex v'' = 0%Z
    ∧ viewerTitle v'' = "a.py".
Proof.
  destruct (step_forward_and_back no_parse
              (with_navigation ["a"; "b"; "c"] 0 three_scripts) 0%nat "a" "b"
              (Meta "a.py" "x = 1" PY) (Meta "b.py" "y = 2" PY))
    as (v' & v'' & Hnext & Hcur & _ & Htitle & _ & _ & Hprev & Hcur' & Htitle' & _);
    try (by vm_compute); try (by eexists); try exact I.
  by exists v', v''.
Defined.

Lemma cursor_stays_in_range_witness :
  cursor_in_range (closeModal three_scripts)
  ∧ ∀ id v', openNotebookModal no_parse id three_scripts = Ok v' →
             cursor_in_range v'.
Proof.
  destruct (cursor_stays_in_range no_parse three_scripts)
    as (Hopen & _ & _ & _ & Hclose & _); [|by split].
  unfold cursor_in_range. simpl. lia.
Defined.

(** The three scripts hold no notebook. *)
Lemma three_scripts_parsed (parse : string → option json) :
  parsed_on_entry parse three_scripts.
Proof.
  intros id m Hm%elem_of_list_to_map_2 Hty.
  repeat (apply elem_of_cons in Hm as [[= -> ->]|Hm]; [by simpl in Hty|]).
  by apply elem_of_nil in Hm.
Qed.

Lemma registered_cards_parse_witness :
  cardMap with_notebook_card !! "k3"
    = Some (Meta "hello.ipynb" hello_text IPYNB)
  ∧ parse_scenario hello_text = Some hello_notebook
  ∧ parsed_on_entry parse_scenario with_notebook_card
  ∧ (∃ v', openNotebookModal parse_scenario "k3" with_notebook_card = Ok v'
           ∧ alerts v' = alerts with_notebook_card
           ∧ viewerTitle v' = "hello.ipynb"
           ∧ viewerBody v'
             = div_open "markdown" +:+ "<p>hello</p>" +:+ "</div>")
  ∧ onload parse_scenario IPYNB "bad.ipynb" "{" "k5" 2 with_notebook_card
    = (with_notebook_card, Text "Error parsing")
  ∧ parsed_on_entry parse_scenario
      (onload parse_scenario IPYNB "empty.ipynb" "{}" "k6" 2
         with_notebook_card).1.
Proof.
  destruct (registered_cards_parse parse_scenario three_scripts
              (three_scripts_parsed parse_scenario)) as (Hload & _).
  destruct (Hload IPYNB "hello.ipynb" hello_text "k3" 1%nat)
    as (Hparsed & _ & Hmeta).
  fold with_notebook_card in Hparsed, Hmeta.
  destruct (registered_cards_parse parse_scenario with_notebook_card Hparsed)
    as (Hload' & Hopen & _).
  split; [by apply (Hmeta "<p>hello</p>"); vm_compute|].
  split; [by vm_compute|]. split; [done|]. split.
  - destruct (openNotebookModal parse_scenario "k3" with_notebook_card)
      as [v'| |] eqn:E; [|by vm_compute in E..].
    exists v'. split; [done|]. split; [by apply (Hopen "k3")|].
    vm_compute in E. injection E as <-. split; by vm_compute.
  - split; [by vm_compute|].
    apply (Hload' IPYNB "empty.ipynb" "{}" "k6" 2%nat).
Defined.

Lemma escapeHtml_round_trip_witness :
  unescapeHtml (escapeHtml "a<b") = "a<b" ∧ "a<" +:+ "b" = "a<b".
Proof.
  destruct (escapeHtml_round_trip "a<b") as [Hback Hinj].
  split; [exact Hback|]. apply Hinj. by vm_compute.
Defined.

Lemma escapeHtml_markup_is_inert_witness :
  "&"%char ≠ "<"%char ∧ "&"%char ≠ ">"%char
  ∧ "&"%char ≠ Str.dquote ∧ "&"%char ≠ "'"%char.
Proof.
  destruct (escapeHtml_markup_is_inert "<" "b") as (_ & Hraw & _).
  apply Hraw. by vm_compute.
Defined.

Lemma script_preview_shows_leading_lines_witness :
  Str.join Str.nl
    (take PYTHON_PREVIEW_LINES (Str.split Str.newline ("a" +:+ Str.nl +:+ "b")))
  = "a" +:+ Str.nl +:+ "b".
Proof.
  destruct (script_preview_shows_leading_lines ("a" +:+ Str.nl +:+ "b"))
    as (_ & _ & _ & _ & Hwhole).
  apply Hwhole. vm_compute. lia.
Defined.

Lemma segments_ignore_separator_style_witness :
  path_parts (slashes "a\\b\c.py") = path_parts (slashes "a/b/c.py").
Proof.
  destruct (segments_ignore_separator_style "a\\b\c.py" "a//b/c.py")
    as (_ & Hsame & _).
  rewrite Hsame by by vm_compute. by vm_compute.
Defined.

Lemma view_follows_path_witness :
  getCurrentNode own inside_b = Ok (Some (Obj {[ "files" := Arr [0%nat] ∅ ]})).
Proof.
  destruct (view_follows_path own inside_b) as (_ & _ & _ & Hnode).
  apply Hnode. by vm_compute.
Defined.

(** ** Hints of either style, side by side *)

Lemma parts_one_for_one (u : string) :
  path_parts (slashes u) = path_parts (replace_all backslash_one u).
Proof.
  rewrite slashes_collapse, !path_parts_split.
  destruct (collapse_parts u) as [[Hh Ht] _]. by rewrite !filter_cons, Hh, Ht.
Qed.

(** X28: files whose hints name the same folder, in whichever separator
    style each is written, are listed together: on an admissible input
    walking the canonical path of either reaches one list, which holds
    both. *)
Theorem same_folder_across_separator_styles
    (σ : store) (files : list ref) (f g : ref) :
  (∀ h, h ∈ files → admissible (σ h) = true) →
  f ∈ files → g ∈ files →
  Str.nonempty (hint (σ f)) = true → Str.nonempty (hint (σ g)) = true →
  folders (path_parts (replace_all backslash_one (hint (σ f))))
  = folders (path_parts (replace_all backslash_one (hint (σ g)))) →
  ∃ σ' tree es,
    buildTree σ files = Ok (σ', tree)
    ∧ files_at tree (canonical σ f) = Some es
    ∧ files_at tree (canonical σ g) = Some es
    ∧ f ∈ es ∧ g ∈ es.
Proof.
  intros Hadm Hf Hg Hhf Hhg Hsame.
  assert (∀ h, Str.nonempty (hint (σ h)) = true →
               canonical σ h
               = path_parts (replace_all backslash_one (hint (σ h)))) as Hcanon.
  { intros h Hh. unfold canonical, normalizeFilePath. rewrite Hh. simpl.
    apply parts_one_for_one. }
  assert (folders (canonical σ g) = folders (canonical σ f)) as Hfolders
    by by rewrite !Hcanon.
  destruct (buildTree_admissible σ files Hadm) as (σ' & tree & Hbuild & Hat).
  exists σ', tree, (in_folder σ (folders (canonical σ f)) files).
  split; [done|]. split; [by apply Hat|].
  split; [by rewrite (Hat g Hg), Hfolders|].
  split; by apply list_elem_of_filter.
Qed.

Lemma same_folder_across_separator_styles_witness :
  ∃ σ' tree es,
    buildTree cross_platform_store [0; 1; 2; 3]%nat = Ok (σ', tree)
    ∧ files_at tree (canonical cross_platform_store 2%nat) = Some es
    ∧ files_at tree (canonical cross_platform_store 3%nat) = Some es
    ∧ 2%nat ∈ es ∧ 3%nat ∈ es.
Proof.
  apply (same_folder_across_separator_styles cross_platform_store
           [0; 1; 2; 3]%nat 2%nat 3%nat); try (by vm_compute).
  - apply all_admissible. by vm_compute.
  - apply list_elem_of_In. simpl. tauto.
  - apply list_elem_of_In. simpl. tauto.
Defined.

(** ** Texts written as lists of lines *)

Lemma elementTexts_lines (lines : list string) :
  elementTexts (JStr <$> lines) = Ok lines.
Proof.
  induction lines as [|l lines IH]; [done|].
  change (elementTexts (JStr <$> l :: lines))
    with (s ← Ok l; ss ← elementTexts (JStr <$> lines); Ok (s :: ss)).
  by rewrite IH.
Qed.

Lemma joined_lines (lines : list string) :
  joined (Some (as_lines lines)) = joined (Some (as_text lines)).
Proof.
  unfold as_lines, as_text. cbn [joined]. unfold arrayJoin.
  by rewrite elementTexts_lines.
Qed.

(** X29: a text written as a list of lines is rendered as the one text
    of the lines put together: the source of a cell in the preview and
    in the full view, and, when that text is not empty, the plain text
    and the stream text of an output. *)
Theorem lines_render_as_their_text
    (lines : list string) (cell data out : gmap string json) (html : string) :
  renderCell (JObj (<["source" := as_lines lines]> cell)) html
  = renderCell (JObj (<["source" := as_text lines]> cell)) html
  ∧ previewCell (JObj (<["source" := as_lines lines]> cell))
    = previewCell (JObj (<["source" := as_text lines]> cell))
  ∧ (Str.nonempty (Str.join EmptyString lines) = true →
     renderOutput
       (JObj (<["data" := JObj (<["text/plain" := as_lines lines]> data)]> out))
     = renderOutput
         (JObj (<["data" := JObj (<["text/plain" := as_text lines]> data)]> out))
     ∧ renderOutput (JObj (<["text" := as_lines lines]> out))
       = renderOutput (JObj (<["text" := as_text lines]> out))).
Proof.
  pose proof (joined_lines lines) as Hj.
  split; [|split].
  - unfold renderCell. simpl. rewrite !lookup_insert_eq.
    rewrite !lookup_insert_ne by done. by rewrite Hj.
  - unfold previewCell. simpl. rewrite !lookup_insert_eq.
    rewrite !lookup_insert_ne by done. by rewrite Hj.
  - intros Hne.
    assert (truthy (Some (as_text lines)) = true) as Htext.
    { unfold as_text. simpl. by destruct (Str.join EmptyString lines). }
    assert (truthy (Some (as_lines lines)) = true) as Hlines by done.
    split.
    + unfold renderOutput, dataField, streamText. simpl.
      rewrite !lookup_insert_eq. simpl.
      rewrite !(lookup_insert_ne _ "text/plain" "image/png") by done.
      rewrite !(lookup_insert_ne _ "text/plain" "image/jpeg") by done.
      rewrite !(lookup_insert_ne _ "text/plain" "image/svg+xml") by done.
      rewrite !(lookup_insert_ne _ "data" "output_type") by done.
      rewrite !(lookup_insert_ne _ "data" "text") by done.
      rewrite !lookup_insert_eq.
      destruct (truthy (data !! "image/png")); [done|].
      destruct (truthy (data !! "image/jpeg")); [done|].
      destruct (truthy (data !! "image/svg+xml")); [done|].
      by rewrite Hlines, Htext, Hj.
    + unfold renderOutput, dataField, streamText. simpl.
      rewrite !(lookup_insert_ne _ "text" "data") by done.
      rewrite !(lookup_insert_ne _ "text" "output_type") by done.
      rewrite !lookup_insert_eq.
      destruct (truthy (out !! "data")).
      * destruct (out !! "data") as [d|]; [|done]. simpl.
        destruct (getProp d "image/png") as [png| |]; simpl; try done.
        destruct (truthy png); [done|].
        destruct (getProp d "image/jpeg") as [jpeg| |]; simpl; try done.
        destruct (truthy jpeg); [done|].
        destruct (getProp d "image/svg+xml") as [svg| |]; simpl; try done.
        destruct (truthy svg); [done|].
        destruct (getProp d "text/plain") as [plain| |]; simpl; try done.
        destruct (truthy plain); [done|].
        destruct (is_string "stream" (out !! "output_type")); simpl; [|done].
        rewrite Hne. unfold arrayJoin. by rewrite elementTexts_lines.
      * destruct (is_string "stream" (out !! "output_type")); simpl; [|done].
        rewrite Hne. unfold arrayJoin. by rewrite elementTexts_lines.
Qed.

Lemma lines_render_as_their_text_witness :
  renderOutput (obj [("output_type", JStr "stream");
                     ("text", as_lines ["a "; "< b"])])
  = renderOutput (obj [("output_type", JStr "stream");
                       ("text", as_text ["a "; "< b"])]).
Proof.
  destruct (lines_render_as_their_text ["a "; "< b"] ∅ ∅
              {[ "output_type" := JStr "stream" ]} EmptyString)
    as (_ & _ & Hout).
  destruct Hout as [_ Hstream]; [by vm_compute|].
  etrans; [|etrans; [exact Hstream|]]; by vm_compute.
Defined.

(** A list of lines without a character is still a list: as the plain
    text of an output it gives an empty block, where the empty text gives
    none. *)
Example empty_lines_are_rendered :
  renderOutput (data_output [("text/plain", as_lines [])])
  = Ok (out_open +:+ out_close)
  ∧ renderOutput (data_output [("text/plain", as_text [])]) = Ok EmptyString.
Proof. split; by vm_compute. Qed.

(** ** Registered cards in the carousel *)

Lemma getAllCardIds_elem (cards : list card) (i : nat) (id : string) :
  cards !! i = Some (Card (Some id)) → id ≠ EmptyString →
  id ∈ getAllCardIds cards.
Proof.
  revert i. induction cards as [|c cards IH]; intros i Hi Hne; [done|].
  destruct i as [|i]; simpl in Hi.
  - injection Hi as ->. simpl. destruct id; [done|]. apply elem_of_cons. by left.
  - simpl. destruct (cardId c) as [[|a r]|]; try by eapply IH.
    apply elem_of_cons. right. by eapply IH.
Qed.

Lemma getAllCardIds_nonempty (cards : list card) :
  EmptyString ∉ getAllCardIds cards.
Proof.
  induction cards as [|c cards IH]; [apply not_elem_of_nil|]. simpl.
  destruct (cardId c) as [[|a r]|]; try done.
  apply not_elem_of_cons. by split.
Qed.

Lemma indexFrom_elem (x : string) (l : list string) (k : Z) :
  x ∈ l → ∃ j, l !! j = Some x ∧ indexFrom x l k = (k + Z.of_nat j)%Z.
Proof.
  revert k. induction l as [|y l IH]; intros k Hx; [by apply elem_of_nil in Hx|].
  simpl. destruct (decide (y = x)) as [->|Hne].
  - exists 0%nat. rewrite bool_decide_eq_true_2 by done. split; [done | lia].
  - rewrite bool_decide_eq_false_2 by done.
    apply elem_of_cons in Hx as [->|Hx]; [done|].
    destruct (IH (k + 1)%Z Hx) as (j & Hj & ->). exists (S j). split; [done | lia].
Qed.

Lemma indexFrom_absent (x : string) (l : list string) (k : Z) :
  x ∉ l → indexFrom x l k = (-1)%Z.
Proof.
  revert k. induction l as [|y l IH]; intros k Hx; [done|].
  apply not_elem_of_cons in Hx as [Hne Hx]. simpl.
  rewrite bool_decide_eq_false_2 by done. by apply IH.
Qed.

Section RegisteredFacts.

Variable JSON_parse : string → option json.

(** X30: a card that was registered while in the gallery is found by
    the carousel: opening it captures a list in which the cursor stands
    on its id.  The ids captured are never empty, so that a card whose
    drawn id is the empty text opens with the cursor before the list. *)
Theorem registered_card_is_in_the_carousel
    (v v1 : viewer) (ext : kind) (file_name result id html : string) (i : nat) :
  onload JSON_parse ext file_name result id i v = (v1, Markup html) →
  (i < List.length (gallery v))%nat →
  ∀ v2, openNotebookModal JSON_parse id v1 = Ok v2 →
    navigationCardIds v2 = getAllCardIds (gallery v1)
    ∧ (EmptyString ∉ navigationCardIds v2)
    ∧ (id ≠ EmptyString →
       (0 ≤ currentCardIndex v2)%Z
       ∧ at_index (navigationCardIds v2) (currentCardIndex v2) = Some id)
    ∧ (id = EmptyString → currentCardIndex v2 = (-1)%Z).
Proof.
  intros Hload Hi v2 Hopen.
  assert (cardMap v1 !! id = Some (Meta file_name result ext)
          ∧ gallery v1 !! i = Some (Card (Some id))) as [Hmeta Hcard].
  { unfold onload in Hload.
    assert (∀ w, w = with_registered i id (Meta file_name result ext) v →
              cardMap w !! id = Some (Meta file_name result ext)
              ∧ gallery w !! i = Some (Card (Some id))) as Hreg.
    { intros w ->. simpl. rewrite lookup_insert_eq. split; [done|].
      by apply list_lookup_insert_eq. }
    destruct ext.
    - destruct (JSON_parse result) as [nb|]; [|done].
      destruct (renderNotebookPreview nb); [|done..].
      injection Hload as <- _. by apply Hreg.
    - injection Hload as <- _. by apply Hreg. }
  unfold openNotebookModal in Hopen. rewrite Hmeta in Hopen.
  destruct (loadNotebookInModal JSON_parse _ _) as [v3| |] eqn:Hl;
    simpl in Hopen; [|done..].
  injection Hopen as <-.
  apply loadNotebookInModal_frame in Hl as (_ & _ & Hids & Hcur & _).
  simpl in Hids, Hcur.
  destruct (updateNavigationButtons_frame v3) as (_ & _ & Hids' & Hcur' & _).
  simpl. rewrite Hids', Hcur', Hids, Hcur.
  split; [done|]. split; [apply getAllCardIds_nonempty|]. split.
  - intros Hne.
    destruct (indexFrom_elem id (getAllCardIds (gallery v1)) 0)
      as (j & Hj & Hidx); [by eapply getAllCardIds_elem|].
    unfold indexOf. rewrite Hidx. split; [lia|].
    replace (0 + Z.of_nat j)%Z with (Z.of_nat j) by lia.
    by rewrite at_index_nat.
  - intros ->. apply indexFrom_absent, getAllCardIds_nonempty.
Qed.

End RegisteredFacts.

Lemma registered_card_is_in_the_carousel_witness :
  ∃ v2,
    openNotebookModal no_parse "k4"
      (onload no_parse PY "s.py" "x = 1" "k4" 1 three_scripts).1 = Ok v2
    ∧ (0 ≤ currentCardIndex v2)%Z
    ∧ at_index (navigationCardIds v2) (currentCardIndex v2) = Some "k4".
Proof.
  destruct (openNotebookModal no_parse "k4"
              (onload no_parse PY "s.py" "x = 1" "k4" 1 three_scripts).1)
    as [v2| |] eqn:Hopen; [|by vm_compute in Hopen..].
  exists v2. split; [done|].
  destruct (registered_card_is_in_the_carousel no_parse three_scripts
              (onload no_parse PY "s.py" "x = 1" "k4" 1 three_scripts).1
              PY "s.py" "x = 1" "k4" (renderScriptPreview "x = 1") 1
              eq_refl ltac:(simpl; lia) v2 Hopen)
    as (_ & _ & Hin & _).
  by apply Hin.
Defined.
